(** * catcher: the job lifecycle engine

    A shallow embedding of the job entity ([internal/domain]), the SQLite
    job store ([internal/adapter/sqlite]), the orchestration service, the
    processor registry, the command executor and the built-in YouTube
    processor ([internal/adapter/processor]), the polling worker
    ([internal/worker]) and the webhook handlers ([internal/adapter/http]).

    Conventions.
    - Go's [int64]/[int] and SQLite's INTEGER are [Z]; the only arithmetic
      is [attempts + 1], which stays far below 2^63 on any run.
    - [time.Now()] is an input: store operations take the reading as an
      argument, the service reads it from a clock oracle.  A reading is an
      instant with the zone offset of the clock on the wall: the driver
      stores a [time.Time] as the text of its local reading, and the
      store orders by that text.
    - [url.ParseRequestURI] of the Go standard library is followed down
      to the parsing of the authority, which stays a parameter.
    - The worker runs under a [context.Context]: a repository call that
      finds it cancelled returns its error and executes nothing.
    - Other storage-layer I/O failures of [database/sql] are not
      modelled: a statement that is started executes.  The distinguished
      domain errors are. *)

From stdpp Require Import gmap strings list fin_maps sorting.
From Stdlib Require Import ZArith Ascii.

Local Open Scope Z_scope.

(** ** internal/domain: job.go *)
Module Domain.

(** [type JobStatus string] with its four constants. *)
Inductive JobStatus : Set :=
| StatusPending
| StatusProcessing
| StatusCompleted
| StatusFailed.

#[global] Instance JobStatus_eq_dec : EqDecision JobStatus.
Proof. solve_decision. Defined.

(** A [time.Time] value: an instant on a linear scale and the offset
    from UTC of the zone the value is shown in, both in nanoseconds.
    [time.Now()] shows local time. *)
Record Time : Set := mkTime {
  instant : Z;
  zone : Z
}.

#[global] Instance Time_eq_dec : EqDecision Time.
Proof. solve_decision. Defined.

(** The reading of a clock on the wall: the date and time that the text
    of the value shows, before its zone suffix. *)
Definition wall (t : Time) : Z := instant t + zone t.

(** An instant shown in UTC; a plain number is read this way. *)
Definition utc (z : Z) : Time := {| instant := z; zone := 0 |}.
Coercion utc : Z >-> Time.

(** Pairs and lists are elaborated from the type expected of them, so that
    a number in a list of timed calls is read as a time. *)
Arguments pair {A B}%_type_scope & _ _.
Arguments cons {A}%_type_scope & _ _.

Record Job : Set := mkJob {
  ID : Z;
  URL : string;
  Status : JobStatus;
  Attempts : Z;
  Error : string;
  CreatedAt : Time;
  UpdatedAt : Time
}.

(** [func (j *Job) CanRetry(maxAttempts int) bool] *)
Definition CanRetry (j : Job) (maxAttempts : Z) : bool :=
  (Attempts j <? maxAttempts) && negb (bool_decide (Status j = StatusCompleted)).

(** The package's sentinel errors ([ErrInvalidURL], [ErrJobNotFound]),
    and the error of a cancelled context ([context.Canceled]), which the
    repository passes on from [database/sql]. *)
Inductive error : Set :=
| ErrInvalidURL
| ErrJobNotFound
| ErrCanceled.

#[global] Instance error_eq_dec : EqDecision error.
Proof. solve_decision. Defined.

(** A Go [(T, error)] pair, of which exactly one side is meaningful. *)
Inductive result (A : Type) : Type :=
| Ok (a : A)
| Err (e : error).
Arguments Ok {A} a.
Arguments Err {A} e.

(** *** ports.go *)

(** The [URLProcessor] port.  [Process] gives the outcome of running the
    processor on a job: [None] for nil, [Some msg] for an error whose
    [Error()] text is [msg].  The outcome is that of the run under the
    context it was given: a command killed by a cancellation is a
    [Process] that fails. *)
Record URLProcessor : Type := mkProcessor {
  Name : string;
  TargetDir : string;
  Match : string → bool;
  Process : Job → option string
}.

End Domain.
Export Domain.

(** ** internal/adapter/sqlite: repository.go *)
Module Sqlite.

(** One row of table [jobs]; the [id] column is the key of the table.
    [error TEXT] has no default, so it is NULL ([None]) until written. *)
Record Row : Set := mkRow {
  url : string;
  status : JobStatus;
  attempts : Z;
  error_col : option string;
  created_at : Time;
  updated_at : Time
}.

(** The database: table [jobs] keyed by its INTEGER PRIMARY KEY, and the
    AUTOINCREMENT high-water mark kept in [sqlite_sequence]. *)
Record DB : Type := mkDB {
  jobs : gmap Z Row;
  seq : Z
}.

Definition empty_db : DB := {| jobs := ∅; seq := 0 |}.

(** *** The two SQL statement shapes the repository uses *)

(** [UPDATE jobs SET ... WHERE cond]: the new table and the number of
    rows the statement changed ([result.RowsAffected()]). *)
Definition exec_update (cond : Z → Row → bool) (set : Row → Row)
    (t : gmap Z Row) : gmap Z Row * Z :=
  (map_imap (λ k r, Some (if cond k r then set r else r)) t,
   Z.of_nat (size (filter (λ kr : Z * Row, cond kr.1 kr.2 = true) t))).

(** The largest rowid in use (0 for the empty table). *)
Definition max_rowid (t : gmap Z Row) : Z :=
  map_fold (λ k _ acc, Z.max k acc) 0 t.

(** [INSERT INTO jobs ...] under AUTOINCREMENT: the new rowid is one more
    than the largest rowid ever used. *)
Definition exec_insert (r : Row) (d : DB) : Z * DB :=
  let id := Z.max (seq d) (max_rowid (jobs d)) + 1 in
  (id, {| jobs := <[id := r]> (jobs d); seq := id |}).

(** *** WHERE clauses and column assignments of the UPDATE statements *)

(** [WHERE id = ? AND status = 'pending'] *)
Definition claim_cond (id : Z) : Z → Row → bool :=
  λ k r, (k =? id) && bool_decide (status r = StatusPending).

(** [WHERE id = ?] *)
Definition id_cond (id : Z) : Z → Row → bool := λ k _, k =? id.

(** [WHERE status = 'processing'] *)
Definition stale_cond : Z → Row → bool :=
  λ _ r, bool_decide (status r = StatusProcessing).

Definition set_claim (now : Time) (r : Row) : Row :=
  {| url := url r; status := StatusProcessing; attempts := attempts r + 1;
     error_col := error_col r; created_at := created_at r; updated_at := now |}.

Definition set_status (s : JobStatus) (now : Time) (r : Row) : Row :=
  {| url := url r; status := s; attempts := attempts r;
     error_col := error_col r; created_at := created_at r; updated_at := now |}.

Definition set_status_error (s : JobStatus) (reason : string) (now : Time)
    (r : Row) : Row :=
  {| url := url r; status := s; attempts := attempts r;
     error_col := Some reason; created_at := created_at r; updated_at := now |}.

Definition with_jobs (d : DB) (t : gmap Z Row) : DB :=
  {| jobs := t; seq := seq d |}.

(** *** Repository methods *)

(** [Create]: the INSERT names url, status and both timestamps; attempts
    takes its DEFAULT 0 and error stays NULL. *)
Definition Create (now : Time) (u : string) (d : DB) : Job * DB :=
  let '(id, d') :=
    exec_insert {| url := u; status := StatusPending; attempts := 0;
                   error_col := None; created_at := now; updated_at := now |} d in
  ({| ID := id; URL := u; Status := StatusPending; Attempts := 0;
      Error := ""; CreatedAt := now; UpdatedAt := now |}, d').

(** [scanJob] over the SELECT list, with [COALESCE(error, '')]. *)
Definition scanJob (id : Z) (r : Row) : Job :=
  {| ID := id; URL := url r; Status := status r; Attempts := attempts r;
     Error := default "" (error_col r);
     CreatedAt := created_at r; UpdatedAt := updated_at r |}.

(** [Get]: [sql.ErrNoRows] becomes [ErrJobNotFound]. *)
Definition Get (id : Z) (d : DB) : result Job :=
  match jobs d !! id with
  | Some r => Ok (scanJob id r)
  | None => Err ErrJobNotFound
  end.

(** [ORDER BY created_at ASC]. The driver binds a [time.Time] as the
    text of [Time.String()], local date and time first and the zone after
    it, and SQLite compares the column as text: the order is that of the
    wall-clock readings, not of the instants. Rows whose readings coincide
    are ordered by the rest of the text (zone, monotonic clock), which the
    model does not keep; it breaks these ties by rowid. *)
Definition created_le (x y : Z * Row) : bool :=
  (wall (created_at x.2) <? wall (created_at y.2))
  || ((wall (created_at x.2) =? wall (created_at y.2)) && (x.1 <=? y.1)).

(** [LIMIT ?]: a negative limit means no limit in SQLite. *)
Definition sql_limit {A} (limit : Z) (l : list A) : list A :=
  if limit <? 0 then l else take (Z.to_nat limit) l.

(** [FindPending]. *)
Definition FindPending (limit : Z) (d : DB) : list Job :=
  (λ kr : Z * Row, scanJob kr.1 kr.2) <$>
    sql_limit limit
      (merge_sort (λ x y, Is_true (created_le x y))
         (filter (λ kr : Z * Row, status kr.2 = StatusPending)
            (map_to_list (jobs d)))).

(** [Claim]: one conditional UPDATE; zero affected rows is reported as
    [ErrJobNotFound]. *)
Definition Claim (now : Time) (id : Z) (d : DB) : option error * DB :=
  let '(t, affected) :=
    exec_update (claim_cond id) (set_claim now) (jobs d) in
  if affected =? 0 then (Some ErrJobNotFound, with_jobs d t)
  else (None, with_jobs d t).

(** [Complete]: [UPDATE ... WHERE id = ?], result ignored. *)
Definition Complete (now : Time) (id : Z) (d : DB) : option error * DB :=
  (None, with_jobs d
     (exec_update (id_cond id) (set_status StatusCompleted now) (jobs d)).1).

(** [Fail]. *)
Definition Fail (now : Time) (id : Z) (reason : string) (d : DB)
    : option error * DB :=
  (None, with_jobs d
     (exec_update (id_cond id)
        (set_status_error StatusFailed reason now) (jobs d)).1).

(** [Retry]. *)
Definition Retry (now : Time) (id : Z) (reason : string) (d : DB)
    : option error * DB :=
  (None, with_jobs d
     (exec_update (id_cond id)
        (set_status_error StatusPending reason now) (jobs d)).1).

(** The fixed marker written by crash recovery. *)
Definition recovery_marker : string := "recovered after crash".

(** [RecoverStale]: [UPDATE ... WHERE status = 'processing']. *)
Definition RecoverStale (now : Time) (d : DB) : Z * DB :=
  let '(t, affected) :=
    exec_update stale_cond
      (set_status_error StatusPending recovery_marker now) (jobs d) in
  (affected, with_jobs d t).

(** *** The [JobRepository] port as an alphabet of calls *)

Inductive Call : Set :=
| CallCreate (u : string)
| CallGet (id : Z)
| CallFindPending (limit : Z)
| CallClaim (id : Z)
| CallComplete (id : Z)
| CallFail (id : Z) (reason : string)
| CallRetry (id : Z) (reason : string)
| CallRecoverStale.

#[global] Instance Call_eq_dec : EqDecision Call.
Proof. solve_decision. Defined.

(** The database after one call made at time [now]. *)
Definition exec_call (now : Time) (c : Call) (d : DB) : DB :=
  match c with
  | CallCreate u => (Create now u d).2
  | CallGet _ | CallFindPending _ => d
  | CallClaim id => (Claim now id d).2
  | CallComplete id => (Complete now id d).2
  | CallFail id reason => (Fail now id reason d).2
  | CallRetry id reason => (Retry now id reason d).2
  | CallRecoverStale => (RecoverStale now d).2
  end.

(** A sequence of calls, each with the clock reading it is made at. *)
Fixpoint run (cs : list (Time * Call)) (d : DB) : DB :=
  match cs with
  | [] => d
  | (now, c) :: rest => run rest (exec_call now c d)
  end.

(** Whether call [c] is a claim of job [id] that returns nil on [d]. *)
Definition claim_won (id : Z) (now : Time) (c : Call) (d : DB) : bool :=
  match c with
  | CallClaim i => bool_decide (i = id) && bool_decide ((Claim now i d).1 = None)
  | _ => false
  end.

(** The number of successful claims of job [id] along a run. *)
Fixpoint claims_won (id : Z) (cs : list (Time * Call)) (d : DB) : nat :=
  match cs with
  | [] => 0%nat
  | (now, c) :: rest =>
      ((if claim_won id now c d then 1 else 0)
       + claims_won id rest (exec_call now c d))%nat
  end.

(** What one call does to a row that is in the table. *)
Definition row_after (now : Time) (c : Call) (k : Z) (r : Row) : Row :=
  match c with
  | CallCreate _ | CallGet _ | CallFindPending _ => r
  | CallClaim id => if claim_cond id k r then set_claim now r else r
  | CallComplete id => if k =? id then set_status StatusCompleted now r else r
  | CallFail id reason =>
      if k =? id then set_status_error StatusFailed reason now r else r
  | CallRetry id reason =>
      if k =? id then set_status_error StatusPending reason now r else r
  | CallRecoverStale =>
      if bool_decide (status r = StatusProcessing)
      then set_status_error StatusPending recovery_marker now r else r
  end.

(** The job a call is addressed to. *)
Definition call_id (c : Call) : option Z :=
  match c with
  | CallGet i | CallClaim i | CallComplete i
  | CallFail i _ | CallRetry i _ => Some i
  | CallCreate _ | CallFindPending _ | CallRecoverStale => None
  end.

(** The text call [c], made on [d], writes to the [error] column of job
    [id], if it writes one: a fail or a retry addressed to the job while it
    is in the table writes its reason, a crash recovery that finds the job
    processing writes the marker. No other statement names the column. *)
Definition error_written (id : Z) (c : Call) (d : DB) : option string :=
  match c with
  | CallFail i reason | CallRetry i reason =>
      if bool_decide (i = id) && bool_decide (is_Some (jobs d !! id))
      then Some reason else None
  | CallRecoverStale =>
      match jobs d !! id with
      | Some r =>
          if bool_decide (status r = StatusProcessing)
          then Some recovery_marker else None
      | None => None
      end
  | _ => None
  end.

(** The last text written to the [error] column of job [id] along a run
    from [d], if any was. *)
Fixpoint last_error_written (id : Z) (cs : list (Time * Call)) (d : DB)
    : option string :=
  match cs with
  | [] => None
  | (now, c) :: rest =>
      match last_error_written id rest (exec_call now c d) with
      | Some e => Some e
      | None => error_written id c d
      end
  end.

(** *** The stages of the query behind [FindPending] *)

(** The order of [ORDER BY created_at ASC], as a relation. *)
Definition created_rel : relation (Z * Row) := λ x y, Is_true (created_le x y).

(** [WHERE status = 'pending'], then the sort. *)
Definition pending_rows (d : DB) : list (Z * Row) :=
  filter (λ kr : Z * Row, status kr.2 = StatusPending) (map_to_list (jobs d)).

Definition ordered_rows (d : DB) : list (Z * Row) :=
  merge_sort created_rel (pending_rows d).

End Sqlite.

(** ** net/url of the Go standard library: [ParseRequestURI]

    [JobService.Submit] validates with [url.ParseRequestURI]. The function
    is not part of the repository; this is its [parse(rawURL, true)], with
    the parsing of an authority (user information, host and port) left as
    a parameter. Only whether the parse succeeds is kept. *)
Module Url.

Definition byte (c : Ascii.ascii) : N := Ascii.N_of_ascii c.

Definition in_range (lo hi : N) (c : Ascii.ascii) : bool :=
  ((lo <=? byte c) && (byte c <=? hi))%N.

(** [b < ' ' || b == 0x7f] *)
Definition is_ctl (c : Ascii.ascii) : bool :=
  ((byte c <? 32) || (byte c =? 127))%N.

(** [stringContainsCTLByte]. *)
Fixpoint stringContainsCTLByte (s : string) : bool :=
  match s with
  | EmptyString => false
  | String c s' => is_ctl c || stringContainsCTLByte s'
  end.

(** ['a' <= c && c <= 'z' || 'A' <= c && c <= 'Z'] *)
Definition is_letter (c : Ascii.ascii) : bool :=
  in_range 97 122 c || in_range 65 90 c.

(** ['0' <= c && c <= '9' || c == '+' || c == '-' || c == '.'] *)
Definition is_scheme_mark (c : Ascii.ascii) : bool :=
  in_range 48 57 c || Ascii.eqb c "+"%char || Ascii.eqb c "-"%char || Ascii.eqb c "."%char.

(** [ishex]. *)
Definition ishex (c : Ascii.ascii) : bool :=
  in_range 48 57 c || in_range 97 102 c || in_range 65 70 c.

(** The loop of [getScheme] from a byte on, [first] telling whether the
    byte is the first of the string: [None] is the error "missing protocol
    scheme", [Some None] the return without a scheme, and
    [Some (Some (scheme, rest))] the return at a colon. *)
Fixpoint scan_scheme (first : bool) (s : string)
    : option (option (string * string)) :=
  match s with
  | EmptyString => Some None
  | String c s' =>
      let go :=
        match scan_scheme false s' with
        | Some (Some (scheme, rest)) => Some (Some (String c scheme, rest))
        | r => r
        end in
      if is_letter c then go
      else if is_scheme_mark c then (if first then Some None else go)
      else if Ascii.eqb c ":"%char
      then (if first then None else Some (Some (EmptyString, s')))
      else Some None
  end.

(** [getScheme]: scheme and rest, the scheme empty and the rest the whole
    string when there is none; [None] is its error. *)
Definition getScheme (rawURL : string) : option (string * string) :=
  match scan_scheme true rawURL with
  | None => None
  | Some None => Some (EmptyString, rawURL)
  | Some (Some (scheme, rest)) => Some (scheme, rest)
  end.

(** The longest prefix of [s] without the byte [c], and the rest from the
    first [c] on. *)
Fixpoint break_at (c : Ascii.ascii) (s : string) : string * string :=
  match s with
  | EmptyString => (EmptyString, EmptyString)
  | String x s' =>
      if Ascii.eqb x c then (EmptyString, s)
      else let '(a, b) := break_at c s' in (String x a, b)
  end.

(** What is left of [rest] once the query is split off: with one question
    mark, at the end, [rest] without it, and otherwise what
    [strings.Cut(rest, "?")] gives first; in both cases the text before
    the first question mark. *)
Definition before_query (rest : string) : string := (break_at "?"%char rest).1.

(** The check of [unescape] in the mode of a path: each percent sign is
    followed by two hexadecimal digits. *)
Fixpoint valid_escapes (s : string) : bool :=
  match s with
  | EmptyString => true
  | String c s1 =>
      if Ascii.eqb c "%"%char then
        match s1 with
        | String a (String b s3) => ishex a && ishex b && valid_escapes s3
        | _ => false
        end
      else valid_escapes s1
  end.

(** [rest[2:]]. *)
Definition drop2 (s : string) : string :=
  match s with
  | String _ (String _ s') => s'
  | _ => EmptyString
  end.

Section Parse.
(** [parseAuthority] returns no error on this text. *)
Variable parseAuthority : string → bool.

(** [ParseRequestURI] returns no error. *)
Definition ParseRequestURI (rawURL : string) : bool :=
  if stringContainsCTLByte rawURL then false
  else if String.eqb rawURL "" then false
  else if String.eqb rawURL "*" then true
  else
    match getScheme rawURL with
    | None => false
    | Some (scheme, rest) =>
        let rest := before_query rest in
        if negb (String.prefix "/" rest)
        then negb (String.eqb scheme "")
        else if negb (String.eqb scheme "") && String.prefix "//" rest
        then
          let '(authority, path) := break_at "/"%char (drop2 rest) in
          parseAuthority authority && valid_escapes path
        else valid_escapes rest
    end.

End Parse.

End Url.

(** ** internal/domain: service.go *)
Module Service.
Import Sqlite.

(** What a [JobService] acts on: the repository behind it, how many
    times the wall clock has been read, and the calls made so far. *)
Record World : Type := mkWorld {
  db : DB;
  ticks : nat;
  calls : list Call
}.

Definition init_world : World := {| db := empty_db; ticks := 0; calls := [] |}.

Section JobService.
(** [parseAuthority] of [net/url], as the predicate "parses without
    error". *)
Variable parseAuthority : string → bool.
(** The successive readings of [time.Now()]. *)
Variable clock : nat → Time.

(** A call that reads the clock once. *)
Definition timed {A} (c : Call) (op : Time → DB → A * DB) (w : World)
    : A * World :=
  let '(a, d) := op (clock (ticks w)) (db w) in
  (a, {| db := d; ticks := S (ticks w); calls := calls w ++ [c] |}).

(** A read-only call. *)
Definition untimed {A} (c : Call) (op : DB → A) (w : World) : A * World :=
  (op (db w), {| db := db w; ticks := ticks w; calls := calls w ++ [c] |}).

Definition repo_Create (u : string) : World → Job * World :=
  timed (CallCreate u) (λ now, Create now u).

(** [Submit]: validate, then create. *)
Definition Submit (rawURL : string) (w : World) : result Job * World :=
  if Url.ParseRequestURI parseAuthority rawURL then
    let '(j, w') := repo_Create rawURL w in (Ok j, w')
  else (Err ErrInvalidURL, w).

Definition Get (id : Z) : World → result Job * World :=
  untimed (CallGet id) (Sqlite.Get id).

Definition GetPending (limit : Z) : World → list Job * World :=
  untimed (CallFindPending limit) (FindPending limit).

Definition MarkProcessing (id : Z) : World → option error * World :=
  timed (CallClaim id) (λ now, Claim now id).

Definition MarkComplete (id : Z) : World → option error * World :=
  timed (CallComplete id) (λ now, Complete now id).

Definition MarkFailed (id : Z) (reason : string)
    : World → option error * World :=
  timed (CallFail id reason) (λ now, Fail now id reason).

Definition MarkRetry (id : Z) (reason : string)
    : World → option error * World :=
  timed (CallRetry id reason) (λ now, Retry now id reason).

Definition RecoverStale : World → Z * World :=
  timed CallRecoverStale Sqlite.RecoverStale.
End JobService.

End Service.

(** ** internal/adapter/processor: registry.go *)
Module Registry.

(** [Registry.Match]: the first registered processor that matches. *)
Fixpoint Match (processors : list URLProcessor) (u : string)
    : option URLProcessor :=
  match processors with
  | [] => None
  | p :: rest => if Domain.Match p u then Some p else Match rest u
  end.

(** [NewRegistry]: no processor registered. *)
Definition NewRegistry : list URLProcessor := [].

(** [Register]: append, so earlier registrations keep their precedence. *)
Definition Register (processors : list URLProcessor) (p : URLProcessor)
    : list URLProcessor :=
  processors ++ [p].

(** [Processors]. *)
Definition Processors (processors : list URLProcessor) : list URLProcessor :=
  processors.

End Registry.

(** ** internal/worker: worker.go *)
Module Worker.
Import Sqlite Service.

Definition no_processor : string := "no processor for URL".

(** What a worker sees of its [ctx]. The context is cancelled from
    outside, at any moment, so each look at it has an answer of its own;
    that a cancelled context stays cancelled is not built in. *)
Record Context : Type := mkContext {
  (** [ctx.Err() != nil] at the check before the [k]-th job of a batch *)
  cancelled : nat → bool;
  (** the repository call made when [n] calls have been made before it
      finds the context cancelled *)
  refused : nat → bool
}.

(** [context.Background()]: never cancelled. *)
Definition background : Context :=
  {| cancelled := λ _, false; refused := λ _, false |}.

(** How a call of the worker ends: it returns, or it panics on a nil
    pointer, which ends the process; either way in the world reached. *)
Inductive outcome : Type :=
| Returned (w : World)
| Panicked (w : World).

Definition world_of (o : outcome) : World :=
  match o with
  | Returned w | Panicked w => w
  end.

Section Worker.
Variable clock : nat → Time.
Variable registry : list URLProcessor.
Variable maxRetries : Z.

(** The world after a repository call that was not executed: the call has
    been made, and the repository method has evaluated its arguments, the
    reading of the clock among them. *)
Definition declined (c : Call) (reads_clock : bool) (w : World) : World :=
  {| db := db w;
     ticks := if reads_clock then S (ticks w) else ticks w;
     calls := calls w ++ [c] |}.

(** A call of the service under [ctx]. [database/sql] returns the error
    of a context it finds cancelled and executes nothing; a statement it
    has started is taken to run to its end. *)
Definition under {A} (ctx : Context) (c : Call) (reads_clock : bool)
    (refusal : A) (m : World → A * World) (w : World) : A * World :=
  if refused ctx (length (calls w))
  then (refusal, declined c reads_clock w)
  else m w.

Definition svc_GetPending (ctx : Context) (limit : Z)
    : World → result (list Job) * World :=
  under ctx (CallFindPending limit) false (Err ErrCanceled)
    (λ w, let '(batch, w') := GetPending limit w in (Ok batch, w')).

Definition svc_Get (ctx : Context) (id : Z) : World → result Job * World :=
  under ctx (CallGet id) false (Err ErrCanceled) (Service.Get id).

Definition svc_MarkProcessing (ctx : Context) (id : Z)
    : World → option error * World :=
  under ctx (CallClaim id) true (Some ErrCanceled) (MarkProcessing clock id).

Definition svc_MarkComplete (ctx : Context) (id : Z)
    : World → option error * World :=
  under ctx (CallComplete id) true (Some ErrCanceled) (MarkComplete clock id).

Definition svc_MarkFailed (ctx : Context) (id : Z) (reason : string)
    : World → option error * World :=
  under ctx (CallFail id reason) true (Some ErrCanceled)
    (MarkFailed clock id reason).

Definition svc_MarkRetry (ctx : Context) (id : Z) (reason : string)
    : World → option error * World :=
  under ctx (CallRetry id reason) true (Some ErrCanceled)
    (MarkRetry clock id reason).

(** [processJob]. The errors of the three marking calls at its ends are
    not looked at. On an error of the refresh the Go code panics: [job]
    is assigned by the refresh, nil with an error, and the log line of
    the error branch reads [job.ID]. *)
Definition processJob (ctx : Context) (job : Job) (w : World) : outcome :=
  match Registry.Match registry (URL job) with
  | None => Returned (svc_MarkFailed ctx (ID job) no_processor w).2
  | Some proc =>
      match svc_MarkProcessing ctx (ID job) w with
      | (Some _, w1) => Returned w1
      | (None, w1) =>
          match svc_Get ctx (ID job) w1 with
          | (Err _, w2) => Panicked w2
          | (Ok job', w2) =>
              match Process proc job' with
              | Some msg =>
                  if CanRetry job' maxRetries
                  then Returned (svc_MarkRetry ctx (ID job') msg w2).2
                  else Returned (svc_MarkFailed ctx (ID job') msg w2).2
              | None => Returned (svc_MarkComplete ctx (ID job') w2).2
              end
          end
      end
  end.

(** The loop of [poll], from the [k]-th job of the batch on. *)
Fixpoint poll_loop (ctx : Context) (k : nat) (batch : list Job)
    (w : World) : outcome :=
  match batch with
  | [] => Returned w
  | job :: rest =>
      if cancelled ctx k then Returned w
      else match processJob ctx job w with
           | Returned w' => poll_loop ctx (S k) rest w'
           | Panicked w' => Panicked w'
           end
  end.

(** [poll]: one cycle over up to 10 pending jobs. *)
Definition poll (ctx : Context) (w : World) : outcome :=
  match svc_GetPending ctx 10 w with
  | (Err _, w1) => Returned w1
  | (Ok batch, w1) => poll_loop ctx 0 batch w1
  end.

(** [n] successive runs of [processJob] on the same job, as successive
    poll cycles make them; [processJob] reads only the id and the url of
    the copy it is handed. *)
Fixpoint rounds (ctx : Context) (n : nat) (job : Job) (w : World) : outcome :=
  match n with
  | O => Returned w
  | S n' =>
      match processJob ctx job w with
      | Returned w' => rounds ctx n' job w'
      | Panicked w' => Panicked w'
      end
  end.

End Worker.

End Worker.

(** ** internal/adapter/processor: command.go *)
Module Executor.

(** A directory entry: a regular file with its bytes, or a subdirectory. *)
Inductive entry : Set :=
| File (data : string)
| Dir.

#[global] Instance entry_eq_dec : EqDecision entry.
Proof. solve_decision. Defined.

Definition is_dir (e : entry) : bool :=
  match e with Dir => true | File _ => false end.

(** The directories the executor touches, by path, each with its entries
    by name. *)
Abbreviation dir := (gmap string entry).
Abbreviation FS := (gmap string (gmap string entry)).

(** What [copyFile] can do to one file. [CopyWriteFailed err left]:
    [os.WriteFile] failed, leaving nothing ([None]) or a truncated file
    ([Some data]) at the destination. *)
Inductive copy_outcome : Set :=
| CopyDone
| CopyReadFailed (err : string)
| CopyWriteFailed (err : string) (left : option string).

(** The operating system as seen during one [Process] call. *)
Record OS : Type := mkOS {
  (** path chosen by [os.MkdirTemp], or its error text *)
  mkdir_temp : string + string;
  (** error text of [os.MkdirAll] when it has to create the directory *)
  mkdir_all : option string;
  (** the external command, run with the given arguments in a working
      directory with the given entries: the entries it leaves there, and
      on failure the error text and the combined output *)
  run : string → list string → dir → dir * option (string * string);
  (** [os.Rename] of the file with this name succeeds *)
  rename_ok : string → bool;
  (** outcome of the copy fallback for the file with this name *)
  copy : string → copy_outcome
}.

(** [CommandProcessor]; the compiled pattern is its match predicate. *)
Record CommandProcessor : Type := mkCommandProcessor {
  name : string;
  pattern : string → bool;
  command : string;
  args : list string;
  targetDir : string;
  isolate : bool
}.

(** [os.MkdirTemp]: a new, empty directory. The name comes with a random
    suffix and is retried until unused; a used name is a failure here. *)
Definition os_MkdirTemp (o : OS) (fs : FS) : (string * FS) + string :=
  match mkdir_temp o with
  | inl path =>
      match fs !! path with
      | None => inl (path, <[path := ∅]> fs)
      | Some _ => inr "file exists"
      end
  | inr err => inr err
  end.

(** [os.MkdirAll]: nothing to do when the directory exists. When it does
    not, the call makes it, empty, along with the ancestors that are
    missing, and enters it in the listing of its parent. [FS] follows the
    listing of [path] alone: what the call does to the ancestors and to
    the parent is not modelled, and where a statement speaks of the other
    directories it is for a [path] that exists. *)
Definition os_MkdirAll (o : OS) (path : string) (fs : FS) : FS + string :=
  match fs !! path with
  | Some _ => inl fs
  | None =>
      match mkdir_all o with
      | None => inl (<[path := ∅]> fs)
      | Some err => inr err
      end
  end.

(** [os.RemoveAll]. *)
Definition os_RemoveAll (path : string) (fs : FS) : FS := delete path fs.

(** [cmd.CombinedOutput()] with [cmd.Dir = cwd]. *)
Definition run_in (o : OS) (cmd : string) (argv : list string) (cwd : string)
    (fs : FS) : option (string * string) * FS :=
  match fs !! cwd with
  | Some d => let '(d', res) := run o cmd argv d in (res, <[cwd := d']> fs)
  | None => (Some ("chdir: no such file or directory", ""), fs)
  end.

(** [os.ReadDir]: the entries sorted by file name. *)
Definition os_ReadDir (path : string) (fs : FS)
    : list (string * entry) + string :=
  match fs !! path with
  | Some d =>
      inl (merge_sort (λ x y : string * entry, Is_true (String.leb x.1 y.1))
             (map_to_list d))
  | None => inr "no such file or directory"
  end.

(** [os.Stat(dst)] returns a nil error. *)
Definition stat_ok (path nm : string) (fs : FS) : bool :=
  match fs !! path with
  | Some d => bool_decide (is_Some (d !! nm))
  | None => false
  end.

Definition lookup_entry (path nm : string) (fs : FS) : option entry :=
  fs !! path ≫= (λ d, d !! nm).

Definition put_entry (path nm : string) (e : entry) (fs : FS) : FS :=
  match fs !! path with
  | Some d => <[path := <[nm := e]> d]> fs
  | None => fs
  end.

Definition del_entry (path nm : string) (fs : FS) : FS :=
  match fs !! path with
  | Some d => <[path := delete nm d]> fs
  | None => fs
  end.

(** [os.Rename(src, dst)] for a regular file: [None] is a nil error. *)
Definition os_Rename (o : OS) (srcDir dstDir nm : string) (fs : FS)
    : option string * FS :=
  match lookup_entry srcDir nm fs, fs !! dstDir with
  | Some e, Some _ =>
      if rename_ok o nm
      then (None, put_entry dstDir nm e (del_entry srcDir nm fs))
      else (Some "invalid cross-device link", fs)
  | _, _ => (Some "no such file or directory", fs)
  end.

(** [copyFile]: [os.ReadFile] then [os.WriteFile]. *)
Definition copyFile (o : OS) (srcDir dstDir nm : string) (fs : FS)
    : option string * FS :=
  match lookup_entry srcDir nm fs, fs !! dstDir with
  | Some (File data), Some _ =>
      match copy o nm with
      | CopyDone => (None, put_entry dstDir nm (File data) fs)
      | CopyReadFailed err => (Some err, fs)
      | CopyWriteFailed err None => (Some err, fs)
      | CopyWriteFailed err (Some part) =>
          (Some err, put_entry dstDir nm (File part) fs)
      end
  | Some Dir, _ => (Some "is a directory", fs)
  | _, _ => (Some "no such file or directory", fs)
  end.

(** The second loop of [moveFiles], with its accumulator [moved]. *)
Fixpoint move_loop (o : OS) (srcDir dstDir : string)
    (entries : list (string * entry)) (moved : list string) (fs : FS)
    : option string * list string * FS :=
  match entries with
  | [] => (None, moved, fs)
  | (nm, e) :: rest =>
      if is_dir e then move_loop o srcDir dstDir rest moved fs
      else if stat_ok dstDir nm fs
      then move_loop o srcDir dstDir rest moved fs
      else
        match os_Rename o srcDir dstDir nm fs with
        | (None, fs1) => move_loop o srcDir dstDir rest (moved ++ [nm]) fs1
        | (Some _, fs1) =>
            match copyFile o srcDir dstDir nm fs1 with
            | (Some err, fs2) => (Some err, moved, fs2)
            | (None, fs2) =>
                move_loop o srcDir dstDir rest (moved ++ [nm])
                  (del_entry srcDir nm fs2)
            end
        end
  end.

(** [moveFiles]: error, the names moved, and the file system after. *)
Definition moveFiles (p : CommandProcessor) (o : OS) (srcDir : string)
    (fs : FS) : option string * list string * FS :=
  match os_ReadDir srcDir fs with
  | inr err => (Some err, [], fs)
  | inl entries =>
      match os_MkdirAll o (targetDir p) fs with
      | inr err => (Some err, [], fs)
      | inl fs1 => move_loop o srcDir (targetDir p) entries [] fs1
      end
  end.

(** [processIsolated]; the deferred [os.RemoveAll(tempDir)] runs on every
    return after the directory was made. The job argument of the Go
    method only feeds the directory-name pattern and the log lines. *)
Definition processIsolated (p : CommandProcessor) (o : OS) (argv : list string)
    (fs : FS) : option string * FS :=
  match os_MkdirTemp o fs with
  | inr err => (Some ("create temp dir: " +:+ err), fs)
  | inl (tempDir, fs1) =>
      let '(res, fs3) :=
        match run_in o (command p) argv tempDir fs1 with
        | (Some (err, output), fs2) =>
            (Some (command p +:+ " failed: " +:+ err +:+ ": " +:+ output), fs2)
        | (None, fs2) =>
            let '(err, _, fs3) := moveFiles p o tempDir fs2 in (err, fs3)
        end in
      (res, os_RemoveAll tempDir fs3)
  end.

(** *** A run that fails half way

    The command leaves [a.txt] and [b.txt]; the temporary directory is on
    another device than the target, so every rename fails; the copy of
    [a.txt] succeeds and the copy of [b.txt] hits a full disk. *)
Definition partial_proc : CommandProcessor :=
  {| name := "fetch"; pattern := λ _, true; command := "fetch"; args := [];
     targetDir := "/videos"; isolate := true |}.

Definition partial_os : OS :=
  {| mkdir_temp := inl "/tmp/catcher-job-1-001";
     mkdir_all := None;
     run := λ _ _ _, ({["a.txt" := File "A"; "b.txt" := File "B"]}, None);
     rename_ok := λ _, false;
     copy := λ nm, if String.eqb nm "b.txt"
                   then CopyWriteFailed "no space left on device" None
                   else CopyDone |}.

Definition partial_fs : FS := {["/videos" := ∅]}.

(** *** A rerun over finished output

    The target already holds [a.txt]; the command writes an [a.txt] of its
    own and a new [b.txt]. *)
Definition rerun_os : OS :=
  {| mkdir_temp := inl "/tmp/catcher-job-1-002";
     mkdir_all := None;
     run := λ _ _ _, ({["a.txt" := File "new"; "b.txt" := File "B"]}, None);
     rename_ok := λ _, true;
     copy := λ _, CopyDone |}.

Definition rerun_fs : FS := {["/videos" := {["a.txt" := File "old"]}]}.

(** [fs'] is [fs] with the entry [e] named [nm] relocated from [src] to
    [dst]. *)
Definition relocated (src dst nm : string) (e : entry) (fs fs' : FS) : Prop :=
  (∀ path, path ≠ src → path ≠ dst → fs' !! path = fs !! path)
  ∧ (is_Some (fs !! dst) → is_Some (fs' !! dst))
  ∧ (∀ path' nm',
       lookup_entry path' nm' fs'
       = if decide (path' = dst ∧ nm' = nm) then Some e
         else if decide (path' = src ∧ nm' = nm) then None
         else lookup_entry path' nm' fs).

(** The invariant of [move_loop] from [fs0] to the state [(moved, fs)]:
    directories other than source and destination are untouched, the
    destination exists, what the destination held is still there and not
    moved, each moved name was absent from the destination and is there
    with the entry the source had, and the source still has the entries
    of the names not moved. *)
Definition move_inv (srcDir dstDir : string) (fs0 : FS)
    (moved : list string) (fs : FS) : Prop :=
  (∀ path, path ≠ srcDir → path ≠ dstDir → fs !! path = fs0 !! path)
  ∧ is_Some (fs !! dstDir)
  ∧ (∀ nm e, lookup_entry dstDir nm fs0 = Some e →
       lookup_entry dstDir nm fs = Some e ∧ nm ∉ moved)
  ∧ (∀ nm, nm ∈ moved →
       lookup_entry dstDir nm fs0 = None
       ∧ ∃ e, lookup_entry srcDir nm fs0 = Some e
              ∧ lookup_entry dstDir nm fs = Some e)
  ∧ (∀ nm, nm ∉ moved →
       lookup_entry srcDir nm fs = lookup_entry srcDir nm fs0).

(** [processDirect]: the command runs in the target directory itself. *)
Definition processDirect (p : CommandProcessor) (o : OS) (argv : list string)
    (fs : FS) : option string * FS :=
  match os_MkdirAll o (targetDir p) fs with
  | inr err => (Some ("create target dir: " +:+ err), fs)
  | inl fs1 =>
      match run_in o (command p) argv (targetDir p) fs1 with
      | (Some (err, output), fs2) =>
          (Some (command p +:+ " failed: " +:+ err +:+ ": " +:+ output), fs2)
      | (None, fs2) => (None, fs2)
      end
  end.

(** What a successful [move_loop] adds to [move_inv]: the destination
    holds nothing but what it held and what was moved. *)
Definition move_exact (dstDir : string) (fs0 : FS) (moved : list string)
    (fs : FS) : Prop :=
  ∀ nm e, lookup_entry dstDir nm fs = Some e →
    lookup_entry dstDir nm fs0 = Some e ∨ nm ∈ moved.

End Executor.

(** ** internal/adapter/processor: youtube.go *)
Module YouTube.
Import Executor.

(** [os.Rename] onto a name that may be taken: a regular file is
    replaced, a directory of that name makes the call fail. *)
Definition rename_over (o : OS) (srcDir dstDir nm : string) (fs : FS)
    : option string * FS :=
  match lookup_entry dstDir nm fs with
  | Some Dir => (Some "file exists", fs)
  | _ => os_Rename o srcDir dstDir nm fs
  end.

(** [copyFile] onto a name that may be taken: [os.WriteFile] truncates a
    regular file and fails on a directory. *)
Definition copy_over (o : OS) (srcDir dstDir nm : string) (fs : FS)
    : option string * FS :=
  match lookup_entry dstDir nm fs with
  | Some Dir => (Some "is a directory", fs)
  | _ => copyFile o srcDir dstDir nm fs
  end.

(** The loop of [YouTubeProcessor.moveFiles]: no check for a file that
    exists. *)
Fixpoint move_loop (o : OS) (srcDir dstDir : string)
    (entries : list (string * entry)) (fs : FS) : option string * FS :=
  match entries with
  | [] => (None, fs)
  | (nm, e) :: rest =>
      if is_dir e then move_loop o srcDir dstDir rest fs
      else
        match rename_over o srcDir dstDir nm fs with
        | (None, fs1) => move_loop o srcDir dstDir rest fs1
        | (Some _, fs1) =>
            match copy_over o srcDir dstDir nm fs1 with
            | (Some err, fs2) => (Some err, fs2)
            | (None, fs2) =>
                move_loop o srcDir dstDir rest (del_entry srcDir nm fs2)
            end
        end
  end.

(** [YouTubeProcessor.moveFiles]. *)
Definition moveFiles (videoDir : string) (o : OS) (srcDir : string) (fs : FS)
    : option string * FS :=
  match os_ReadDir srcDir fs with
  | inr err => (Some err, fs)
  | inl entries =>
      match os_MkdirAll o videoDir fs with
      | inr err => (Some err, fs)
      | inl fs1 => move_loop o srcDir videoDir entries fs1
      end
  end.

(** The arguments [yt-dlp] is started with. *)
Definition yt_args (tempDir url : string) : list string :=
  ["-o"; tempDir +:+ "/%(title)s.%(ext)s"; url].

(** [YouTubeProcessor.Process]. [yt-dlp] is told to write below the
    temporary directory and is taken to write nowhere else, so its run is
    that of a command acting on that directory. *)
Definition Process (videoDir : string) (o : OS) (url : string) (fs : FS)
    : option string * FS :=
  match os_MkdirTemp o fs with
  | inr err => (Some ("create temp dir: " +:+ err), fs)
  | inl (tempDir, fs1) =>
      let '(res, fs3) :=
        match run_in o "yt-dlp" (yt_args tempDir url) tempDir fs1 with
        | (Some (err, output), fs2) =>
            (Some ("yt-dlp failed: " +:+ err +:+ ": " +:+ output), fs2)
        | (None, fs2) =>
            match moveFiles videoDir o tempDir fs2 with
            | (Some err, fs3) => (Some ("move files: " +:+ err), fs3)
            | (None, fs3) => (None, fs3)
            end
        end in
      (res, os_RemoveAll tempDir fs3)
  end.

End YouTube.

(** ** internal/adapter/http: server.go *)
Module Http.
Import Service.

(** What the handlers read of an [*http.Request]. *)
Record Request : Type := mkRequest {
  (** [io.ReadAll(r.Body)]; [None] when reading fails *)
  read_body : option string;
  (** [r.Header.Get]; the empty string for a header that is not set *)
  header : string → string;
  (** [r.PathValue("id")] *)
  path_id : string
}.

(** What a handler writes: [errorResponse], [jobResponse] (kept as the job
    it is built from; the timestamps' text format is not modelled) or the
    health map. *)
Inductive Payload : Type :=
| ErrorBody (msg : string)
| JobBody (job : Job)
| HealthBody.

Record Response : Type := mkResponse {
  code : Z;
  payload : Payload
}.

Definition StatusOK : Z := 200.
Definition StatusCreated : Z := 201.
Definition StatusBadRequest : Z := 400.
Definition StatusUnauthorized : Z := 401.
Definition StatusNotFound : Z := 404.
Definition StatusInternalServerError : Z := 500.

(** [writeError]. *)
Definition writeError (status : Z) (msg : string) : Response :=
  {| code := status; payload := ErrorBody msg |}.

(** [jobToResponse]. *)
Definition jobToResponse (job : Job) : Payload := JobBody job.

(** [const maxTimestampSkew = 5 * time.Minute], in nanoseconds. *)
Definition maxTimestampSkew : Z := 5 * 60 * 1000000000.

(** An [int64] result, wrapped around. *)
Definition wrap64 (z : Z) : Z := (z + 2 ^ 63) mod 2 ^ 64 - 2 ^ 63.

Definition newline : string := String (Ascii.ascii_of_nat 10) EmptyString.

Section Server.
Variable parseAuthority : string → bool.
Variable clock : nat → Time.
(** The server's shared secret; empty when none is configured. *)
Variable secret : string.
(** Decoding the body as a [webhookRequest]: its [url] field (empty when the
    field is absent), or [None] when the body is not JSON. *)
Variable decode : string → option string.
(** [time.Parse(time.RFC3339, _)]. *)
Variable parse_rfc3339 : string → option Time.
(** [time.Since], a [time.Duration]: an [int64] count of nanoseconds. *)
Variable since : Time → Z.
(** The text of the error for a timestamp outside the window. *)
Variable skew_error : Z → string.
(** Lower-case hex of the SHA-256 digest of a string. *)
Variable sha256_hex : string → string.
(** [strconv.ParseInt(_, 10, 64)]. *)
Variable parse_int : string → option Z.

(** [verifySignature]; [None] is a nil error. *)
Definition verifySignature (r : Request) (body : string) : option string :=
  let timestamp := header r "X-Timestamp" in
  if decide (timestamp = "") then Some "missing X-Timestamp header"
  else
    match parse_rfc3339 timestamp with
    | None => Some "invalid X-Timestamp: must be ISO8601/RFC3339 format"
    | Some ts =>
        let skew := since ts in
        let skew := if skew <? 0 then wrap64 (- skew) else skew in
        if maxTimestampSkew <? skew then Some (skew_error skew)
        else
          let signature := header r "X-Signature" in
          if decide (signature = "") then Some "missing X-Signature header"
          else
            let payload :=
              timestamp +:+ newline +:+ body +:+ newline +:+ secret in
            if decide (signature = sha256_hex payload) then None
            else Some "invalid signature"
    end.

(** [handleWebhook]. *)
Definition handleWebhook (r : Request) (w : World) : Response * World :=
  match read_body r with
  | None => (writeError StatusBadRequest "failed to read request body", w)
  | Some body =>
      match (if decide (secret = "") then None else verifySignature r body) with
      | Some err => (writeError StatusUnauthorized err, w)
      | None =>
          match decode body with
          | None => (writeError StatusBadRequest "invalid JSON", w)
          | Some u =>
              if decide (u = "")
              then (writeError StatusBadRequest "url is required", w)
              else
                match Submit parseAuthority clock u w with
                | (Err ErrInvalidURL, w') =>
                    (writeError StatusBadRequest "invalid URL", w')
                | (Err _, w') =>
                    (writeError StatusInternalServerError "internal error", w')
                | (Ok job, w') =>
                    ({| code := StatusCreated; payload := jobToResponse job |},
                     w')
                end
          end
      end
  end.

(** [handleGetJob]. *)
Definition handleGetJob (r : Request) (w : World) : Response * World :=
  match parse_int (path_id r) with
  | None => (writeError StatusBadRequest "invalid job ID", w)
  | Some id =>
      match Service.Get id w with
      | (Err ErrJobNotFound, w') => (writeError StatusNotFound "job not found", w')
      | (Err _, w') =>
          (writeError StatusInternalServerError "internal error", w')
      | (Ok job, w') => ({| code := StatusOK; payload := jobToResponse job |}, w')
      end
  end.

End Server.

End Http.

(** ** Scenarios

    Concrete runs used to exercise the statements below. *)
Module Scenario.
Import Sqlite Service Worker.

(** A clock that reads 100, 101, 102, ... *)
Definition clock0 : nat → Time := λ n, 100 + Z.of_nat n.

(** One submitted job, id 1. *)
Definition db_one : DB := (Create 100 "https://example.com/x" empty_db).2.

Definition row_one : Row :=
  {| url := "https://example.com/x"; status := StatusPending; attempts := 0;
     error_col := None; created_at := 100; updated_at := 100 |}.

(** Claimed, retried, claimed again. *)
Definition reclaim_calls : list (Time * Call) :=
  [(100, CallCreate "https://example.com/x"); (101, CallClaim 1);
   (102, CallRetry 1 "exit status 1"); (103, CallClaim 1)].




(** Calls on job 1 after its creation: two claims succeed, one fails. *)
Definition later_calls : list (Time * Call) :=
  [(101, CallClaim 1); (102, CallRetry 1 "exit status 1"); (103, CallClaim 1);
   (104, CallClaim 1); (105, CallComplete 1); (106, CallRecoverStale)].

(** Three jobs, the first two claimed when the process died. *)
Definition db_stale : DB :=
  run [(1, CallCreate "https://example.com/1");
       (2, CallCreate "https://example.com/2");
       (3, CallCreate "https://example.com/3");
       (4, CallClaim 1); (5, CallClaim 2)] empty_db.

(** A processor for one site whose command always fails. *)
Definition failing : URLProcessor :=
  {| Name := "video"; TargetDir := "/videos";
     Match := String.prefix "https://video.example/";
     Process := λ _, Some "exit status 1" |}.

(** A world with one pending job that [failing] matches. *)
Definition w_video : World :=
  (repo_Create clock0 "https://video.example/v" init_world).2.

Definition job_video : Job :=
  {| ID := 1; URL := "https://video.example/v"; Status := StatusPending;
     Attempts := 0; Error := ""; CreatedAt := 100; UpdatedAt := 100 |}.

Definition row_video : Row :=
  {| url := "https://video.example/v"; status := StatusPending; attempts := 0;
     error_col := None; created_at := 100; updated_at := 100 |}.

(** A context cancelled while the command of a job processed on
    [w_video], which has made one call, is running: the claim and the
    refresh are executed, every later call is refused, and every later
    check finds the context cancelled. *)
Definition ctx_cut : Context :=
  {| cancelled := λ k, bool_decide (1 ≤ k)%nat;
     refused := λ n, bool_decide (3 ≤ n)%nat |}.

(** A context cancelled right after the batch of a poll cycle on
    [w_video] has been fetched. *)
Definition ctx_stopped : Context :=
  {| cancelled := λ _, true; refused := λ n, bool_decide (2 ≤ n)%nat |}.



(** Two pending jobs: the first is created at instant 100 where the
    clock on the wall is an hour ahead of UTC, the second a minute later
    after the clock has been set back to UTC. *)
Definition hour : Z := 3600000000000.

Definition db_zones : DB :=
  run [(mkTime 100 hour, CallCreate "https://example.com/1");
       (mkTime (100 + 60000000000) 0, CallCreate "https://example.com/2")]
    empty_db.

Definition row_first : Row :=
  {| url := "https://example.com/1"; status := StatusPending; attempts := 0;
     error_col := None; created_at := mkTime 100 hour;
     updated_at := mkTime 100 hour |}.

(** The row of [db_one] after a claim at 101, and after a retry at 102. *)
Definition row_claimed : Row :=
  {| url := "https://example.com/x"; status := StatusProcessing;
     attempts := 1; error_col := None; created_at := 100;
     updated_at := 101 |}.

Definition row_retried : Row :=
  {| url := "https://example.com/x"; status := StatusPending; attempts := 0;
     error_col := Some "exit status 1"; created_at := 100;
     updated_at := 102 |}.

(** A processor for the site of [failing] whose command succeeds. *)
Definition succeeding : URLProcessor :=
  {| Name := "video"; TargetDir := "/videos";
     Match := String.prefix "https://video.example/";
     Process := λ _, None |}.

(** The job of [w_video], claimed by someone else in the meantime. *)
Definition w_claimed : World := (MarkProcessing clock0 1 w_video).2.

(** The three jobs of [db_stale] behind a service. *)
Definition w_stale : World := {| db := db_stale; ticks := 5; calls := [] |}.

(** A signed request, sent 40 seconds before it is checked. Times are in
    nanoseconds; [since0] saturates as [time.Time.Sub] does, and [digest0]
    stands in for the digest. *)
Definition since0 : Time → Z :=
  λ ts, Z.max (- 2 ^ 63) (Z.min (2 ^ 63 - 1) (1000000000000 - instant ts)).

Definition parse0 : string → option Time :=
  λ s, if String.eqb s "1970-01-01T00:16:00Z" then Some (utc 960000000000)
       else None.

Definition digest0 : string → string := λ s, "digest of " +:+ s.

Definition body0 : string := "{url: https://video.example/v}".

Definition req0 : Http.Request :=
  {| Http.read_body := Some body0;
     Http.header := λ h,
       if String.eqb h "X-Timestamp" then "1970-01-01T00:16:00Z"
       else if String.eqb h "X-Signature"
       then digest0 ("1970-01-01T00:16:00Z" +:+ Http.newline +:+ body0
                     +:+ Http.newline +:+ "s3cret")
       else "";
     Http.path_id := "" |}.

End Scenario.

(** * Properties *)

(** ** The SQL layer *)
Section SqlFacts.
Import Sqlite.
Implicit Types (t : gmap Z Row) (d : DB) (cond : Z → Row → bool).

Lemma lookup_exec_update cond set t k :
  (exec_update cond set t).1 !! k
  = (λ r, if cond k r then set r else r) <$> t !! k.
Proof.
  unfold exec_update; simpl. rewrite map_lookup_imap.
  by destruct (t !! k).
Qed.

Lemma affected_zero cond set t :
  (exec_update cond set t).2 = 0 ↔ ∀ k r, t !! k = Some r → cond k r = false.
Proof.
  unfold exec_update; simpl.
  rewrite <- Nat2Z.inj_0, Nat2Z.inj_iff, map_size_empty_iff, map_empty_filter.
  unfold map_Forall; simpl. split; intros H k r Hk.
  - specialize (H k r Hk). by destruct (cond k r).
  - rewrite (H k r Hk). discriminate.
Qed.

Lemma exec_update_id cond set t :
  (∀ k r, t !! k = Some r → cond k r = false) →
  (exec_update cond set t).1 = t.
Proof.
  intros H. apply map_eq; intros k. rewrite lookup_exec_update.
  destruct (t !! k) as [r|] eqn:Hk; simpl; [|done].
  by rewrite (H k r Hk).
Qed.

(** An UPDATE whose WHERE clause names one rowid rewrites that row. *)
Lemma exec_update_one cond set t id r :
  t !! id = Some r → cond id r = true →
  (∀ k r', cond k r' = true → k = id) →
  (exec_update cond set t).1 = <[id := set r]> t.
Proof.
  intros Hid Hc Honly. apply map_eq; intros k. rewrite lookup_exec_update.
  destruct (decide (k = id)) as [->|Hne].
  - by rewrite Hid, lookup_insert_eq; simpl; rewrite Hc.
  - rewrite lookup_insert_ne by done.
    destruct (t !! k) as [r'|] eqn:Hk; simpl; [|done].
    destruct (cond k r') eqn:Hc'; [|done]. by apply Honly in Hc'.
Qed.

(** The affected-row count is the number of rows the WHERE clause
    selects, however they are enumerated. *)
Lemma affected_count cond set t (ids : list Z) :
  NoDup ids →
  (∀ i, i ∈ ids ↔ ∃ r, t !! i = Some r ∧ cond i r = true) →
  (exec_update cond set t).2 = Z.of_nat (length ids).
Proof.
  intros Hnd Hids. unfold exec_update; simpl. f_equal.
  set (m := filter (λ kr : Z * Row, cond kr.1 kr.2 = true) t).
  rewrite <- length_map_to_list, <- (length_fmap fst).
  apply Permutation_length, NoDup_Permutation;
    [apply NoDup_fst_map_to_list | done |].
  intros i. rewrite Hids, list_elem_of_fmap. split.
  - intros [[k r] [-> Hin]]. apply elem_of_map_to_list in Hin.
    apply map_lookup_filter_Some in Hin as [? ?]. eauto.
  - intros (r & Hr & Hc). exists (i, r). split; [done|].
    apply elem_of_map_to_list, map_lookup_filter_Some. eauto.
Qed.

Lemma with_jobs_id d : with_jobs d (jobs d) = d.
Proof. by destruct d. Qed.

Lemma max_rowid_ge t k r : t !! k = Some r → k ≤ max_rowid t.
Proof.
  unfold max_rowid. revert k r.
  apply (map_fold_weak_ind (λ acc m, ∀ k r, m !! k = Some r → k ≤ acc)).
  - intros k r. by rewrite lookup_empty.
  - intros i x m acc Hi IH k r Hk.
    destruct (decide (k = i)) as [->|Hne]; [lia|].
    rewrite lookup_insert_ne in Hk by done. specialize (IH k r Hk). lia.
Qed.

(** AUTOINCREMENT never reuses the rowid of a row in the table. *)
Lemma exec_insert_fresh r d : jobs d !! (exec_insert r d).1 = None.
Proof.
  unfold exec_insert; simpl.
  destruct (jobs d !! _) as [r'|] eqn:Hk; [|done].
  apply max_rowid_ge in Hk. lia.
Qed.

End SqlFacts.

(** ** The store: claim and crash recovery *)
Section StoreFacts.
Import Sqlite.
Implicit Types (d : DB) (r : Row) (id : Z) (now : Time).

Lemma claim_cond_true id k r :
  claim_cond id k r = true ↔ k = id ∧ status r = StatusPending.
Proof.
  unfold claim_cond.
  rewrite andb_true_iff, Z.eqb_eq, bool_decide_eq_true. done.
Qed.

Lemma Claim_unfold now id d :
  Claim now id d =
    (if (exec_update (claim_cond id) (set_claim now) (jobs d)).2 =? 0
     then Some ErrJobNotFound else None,
     with_jobs d (exec_update (claim_cond id) (set_claim now) (jobs d)).1).
Proof.
  unfold Claim.
  destruct (exec_update _ _ _) as [t n]; simpl. by destruct (n =? 0).
Qed.

Lemma Claim_pending now id d r :
  jobs d !! id = Some r → status r = StatusPending →
  Claim now id d = (None, with_jobs d (<[id := set_claim now r]> (jobs d))).
Proof.
  intros Hid Hst. rewrite Claim_unfold.
  assert (Hc : claim_cond id id r = true) by by apply claim_cond_true.
  rewrite (exec_update_one _ _ _ id r) by
    (try done; intros k r' Hk; by apply claim_cond_true in Hk as [? _]).
  destruct (_ =? 0) eqn:Hz; [|done].
  apply Z.eqb_eq in Hz. pose proof (proj1 (affected_zero _ _ _) Hz id r Hid) as Hf.
  rewrite Hf in Hc. done.
Qed.

Lemma Claim_not_pending now id d :
  (∀ r, jobs d !! id = Some r → status r ≠ StatusPending) →
  Claim now id d = (Some ErrJobNotFound, d).
Proof.
  intros Hno. rewrite Claim_unfold.
  assert (Hz : ∀ k r, jobs d !! k = Some r → claim_cond id k r = false).
  { intros k r Hk. destruct (claim_cond id k r) eqn:Hc; [|done].
    apply claim_cond_true in Hc as [-> Hst]. by destruct (Hno r Hk). }
  rewrite exec_update_id, with_jobs_id by done.
  apply (proj2 (affected_zero _ (set_claim now) _)) in Hz. by rewrite Hz.
Qed.

(** Either the job is there and pending, or [Claim] has nothing to do. *)
Lemma pending_or_not id d :
  (∃ r, jobs d !! id = Some r ∧ status r = StatusPending)
  ∨ (∀ r, jobs d !! id = Some r → status r ≠ StatusPending).
Proof.
  destruct (jobs d !! id) as [r|]; [|right; intros; discriminate].
  destruct (decide (status r = StatusPending)); [left; eauto|].
  right; intros ? [= <-]; done.
Qed.

(** C1. [Claim] moves a pending job to processing with attempts + 1 and
    returns nil; on a missing or non-pending job it returns
    [ErrJobNotFound] and leaves the database as it was; it succeeds
    exactly on pending jobs, so a claim that follows a successful claim
    of the same job fails. *)
Theorem Claim_exactly_once now id d :
  (∀ r, jobs d !! id = Some r → status r = StatusPending →
     Claim now id d =
       (None,
        {| jobs := <[id := {| url := url r; status := StatusProcessing;
                              attempts := attempts r + 1;
                              error_col := error_col r;
                              created_at := created_at r;
                              updated_at := now |}]> (jobs d);
           seq := seq d |}))
  ∧ ((∀ r, jobs d !! id = Some r → status r ≠ StatusPending) →
     Claim now id d = (Some ErrJobNotFound, d))
  ∧ ((Claim now id d).1 = None ↔
     ∃ r, jobs d !! id = Some r ∧ status r = StatusPending)
  ∧ (∀ now', (Claim now id d).1 = None →
     Claim now' id (Claim now id d).2
     = (Some ErrJobNotFound, (Claim now id d).2)).
Proof.
  split_and!.
  - intros r Hid Hst. by rewrite (Claim_pending now id d r).
  - apply Claim_not_pending.
  - destruct (pending_or_not id d) as [(r & Hid & Hst)|Hno].
    + rewrite (Claim_pending now id d r) by done. naive_solver.
    + rewrite Claim_not_pending by done. simpl. split; [done|].
      intros (r & Hid & Hst). by destruct (Hno r Hid).
  - intros now'. destruct (pending_or_not id d) as [(r & Hid & Hst)|Hno].
    + rewrite (Claim_pending now id d r) by done. simpl. intros _.
      apply Claim_not_pending. simpl. intros r'.
      rewrite lookup_insert_eq. intros [= <-]. done.
    + rewrite Claim_not_pending by done. discriminate.
Qed.

Lemma RecoverStale_unfold now d :
  RecoverStale now d =
    ((exec_update stale_cond
        (set_status_error StatusPending recovery_marker now) (jobs d)).2,
     with_jobs d
       (exec_update stale_cond
          (set_status_error StatusPending recovery_marker now) (jobs d)).1).
Proof.
  unfold RecoverStale. by destruct (exec_update _ _ _).
Qed.

Lemma lookup_RecoverStale now d id :
  jobs (RecoverStale now d).2 !! id
  = (λ r, if bool_decide (status r = StatusProcessing)
          then set_status_error StatusPending recovery_marker now r
          else r) <$> jobs d !! id.
Proof.
  rewrite RecoverStale_unfold. unfold with_jobs. cbn [snd jobs].
  by rewrite lookup_exec_update.
Qed.

(** C2. With the processing jobs enumerated by [ids], [RecoverStale]
    returns their number, turns each into a pending job carrying the
    recovery marker, leaves no processing job behind and leaves every
    other job, and the set of jobs, as they were. *)
Theorem RecoverStale_all now d (ids : list Z) :
  NoDup ids →
  (∀ i, i ∈ ids ↔ ∃ r, jobs d !! i = Some r ∧ status r = StatusProcessing) →
  (RecoverStale now d).1 = Z.of_nat (length ids)
  ∧ (∀ i r, jobs d !! i = Some r → status r = StatusProcessing →
       jobs (RecoverStale now d).2 !! i =
         Some {| url := url r; status := StatusPending;
                 attempts := attempts r;
                 error_col := Some "recovered after crash";
                 created_at := created_at r; updated_at := now |})
  ∧ (∀ i r, jobs (RecoverStale now d).2 !! i = Some r →
       status r ≠ StatusProcessing)
  ∧ (∀ i r, jobs d !! i = Some r → status r ≠ StatusProcessing →
       jobs (RecoverStale now d).2 !! i = Some r)
  ∧ (∀ i, jobs d !! i = None → jobs (RecoverStale now d).2 !! i = None).
Proof.
  intros Hnd Hids. split_and!.
  - rewrite RecoverStale_unfold. cbn [fst]. apply affected_count; [done|].
    intros i. rewrite Hids. unfold stale_cond.
    by setoid_rewrite bool_decide_eq_true.
  - intros i r Hi Hst. rewrite lookup_RecoverStale, Hi; simpl.
    by rewrite bool_decide_eq_true_2.
  - intros i r. rewrite lookup_RecoverStale.
    destruct (jobs d !! i) as [r0|]; simpl; [|done].
    case_bool_decide; intros [= <-]; done.
  - intros i r Hi Hst. rewrite lookup_RecoverStale, Hi; simpl.
    by rewrite bool_decide_eq_false_2.
  - intros i Hi. by rewrite lookup_RecoverStale, Hi.
Qed.

End StoreFacts.

(** ** The store along a sequence of calls *)
Section RunFacts.
Import Sqlite.
Implicit Types (d : DB) (r : Row) (id : Z) (now : Time) (c : Call).

Lemma lookup_Claim now id d k :
  jobs (Claim now id d).2 !! k
  = (λ r, if claim_cond id k r then set_claim now r else r) <$> jobs d !! k.
Proof.
  rewrite Claim_unfold. unfold with_jobs. cbn [snd jobs].
  by rewrite lookup_exec_update.
Qed.

Lemma lookup_Complete now id d k :
  jobs (Complete now id d).2 !! k
  = (λ r, if k =? id then set_status StatusCompleted now r else r)
      <$> jobs d !! k.
Proof.
  unfold Complete, with_jobs. cbn [snd jobs]. by rewrite lookup_exec_update.
Qed.

Lemma lookup_Fail now id reason d k :
  jobs (Fail now id reason d).2 !! k
  = (λ r, if k =? id then set_status_error StatusFailed reason now r else r)
      <$> jobs d !! k.
Proof.
  unfold Fail, with_jobs. cbn [snd jobs]. by rewrite lookup_exec_update.
Qed.

Lemma lookup_Retry now id reason d k :
  jobs (Retry now id reason d).2 !! k
  = (λ r, if k =? id then set_status_error StatusPending reason now r else r)
      <$> jobs d !! k.
Proof.
  unfold Retry, with_jobs. cbn [snd jobs]. by rewrite lookup_exec_update.
Qed.

(** [Create] adds a row and leaves the rows of the table alone. *)
Lemma lookup_Create_old now u d k r :
  jobs d !! k = Some r → jobs (Create now u d).2 !! k = Some r.
Proof.
  intros Hk. unfold Create.
  pose proof (exec_insert_fresh
    {| url := u; status := StatusPending; attempts := 0; error_col := None;
       created_at := now; updated_at := now |} d) as Hfresh.
  unfold exec_insert in *. cbn [fst snd jobs] in *.
  rewrite lookup_insert_ne; [done|]. intros <-. congruence.
Qed.

Lemma lookup_Create_new now u d :
  jobs (Create now u d).2 !! ID (Create now u d).1
  = Some {| url := u; status := StatusPending; attempts := 0;
            error_col := None; created_at := now; updated_at := now |}.
Proof. unfold Create, exec_insert. cbn. by rewrite lookup_insert_eq. Qed.

Lemma lookup_exec_call now c d k r :
  jobs d !! k = Some r →
  jobs (exec_call now c d) !! k = Some (row_after now c k r).
Proof.
  intros Hk. destruct c; cbn [exec_call row_after]; try done.
  - by apply lookup_Create_old.
  - by rewrite lookup_Claim, Hk.
  - by rewrite lookup_Complete, Hk.
  - by rewrite lookup_Fail, Hk.
  - by rewrite lookup_Retry, Hk.
  - by rewrite lookup_RecoverStale, Hk.
Qed.

Lemma claim_won_cond id now c d r :
  jobs d !! id = Some r →
  claim_won id now c d
  = match c with CallClaim i => claim_cond i id r | _ => false end.
Proof.
  intros Hid. destruct c as [| | |i| | | |]; try done. cbn [claim_won].
  destruct (decide (i = id)) as [->|Hne].
  - rewrite bool_decide_eq_true_2 by done. cbn [andb].
    destruct (claim_cond id id r) eqn:Hc.
    + apply claim_cond_true in Hc as [_ Hst].
      by rewrite (Claim_pending now id d r), bool_decide_eq_true_2.
    + rewrite Claim_not_pending; [done|].
      intros r' Hr' Hst. assert (r' = r) as -> by congruence.
      assert (claim_cond id id r = true) by by apply claim_cond_true.
      congruence.
  - rewrite bool_decide_eq_false_2 by done. cbn [andb].
    destruct (claim_cond i id r) eqn:Hc; [|done].
    apply claim_cond_true in Hc as [-> _]. done.
Qed.

Lemma attempts_step now c d id r :
  jobs d !! id = Some r →
  attempts (row_after now c id r)
  = attempts r + (if claim_won id now c d then 1 else 0).
Proof.
  intros Hid. rewrite (claim_won_cond id now c d r Hid).
  destruct c; cbn [row_after]; try lia.
  - destruct (claim_cond _ _ _); cbn; lia.
  - destruct (_ =? _); cbn; lia.
  - destruct (_ =? _); cbn; lia.
  - destruct (_ =? _); cbn; lia.
  - case_bool_decide; cbn; lia.
Qed.

(** C3. Along any sequence of store calls the attempts of a job grow by
    exactly the number of successful claims of that job in the sequence,
    so they never decrease and nothing but a successful claim changes
    them; in particular a retry makes the job pending and keeps its
    attempts. *)
Theorem attempts_monotone (cs : list (Time * Call)) d id r :
  jobs d !! id = Some r →
  (∃ r', jobs (run cs d) !! id = Some r'
         ∧ attempts r' = attempts r + Z.of_nat (claims_won id cs d)
         ∧ attempts r ≤ attempts r')
  ∧ (∀ now reason, ∃ r',
        jobs (Retry now id reason d).2 !! id = Some r'
        ∧ status r' = StatusPending ∧ attempts r' = attempts r).
Proof.
  intros Hid. split.
  - revert d r Hid. induction cs as [|[now c] cs IH]; intros d r Hid.
    + exists r. cbn. split_and!; [done|lia|lia].
    + pose proof (lookup_exec_call now c d id r Hid) as Hstep.
      destruct (IH _ _ Hstep) as (r' & Hr' & Hatt & _).
      exists r'. cbn [run claims_won]. split; [done|].
      rewrite Hatt, (attempts_step now c d id r Hid).
      destruct (claim_won id now c d); lia.
  - intros now reason. eexists. rewrite lookup_Retry, Hid. cbn.
    rewrite Z.eqb_refl. done.
Qed.

End RunFacts.

(** ** Terminal states and the error column *)
Section TerminalFacts.
Import Sqlite.
Implicit Types (d : DB) (r : Row) (id : Z) (now : Time) (c : Call).


(** A call that does not write the error column of job [id] leaves it
    as it is, and a job created by the call starts with NULL. *)
Lemma error_col_step now c d id :
  from_option error_col None (jobs (exec_call now c d) !! id)
  = match error_written id c d with
    | Some e => Some e
    | None => from_option error_col None (jobs d !! id)
    end.
Proof.
  destruct (jobs d !! id) as [r|] eqn:Hid.
  - rewrite (lookup_exec_call now c d id r Hid). cbn [from_option].
    destruct c as [| | |i|i|i reason|i reason|];
      cbn [row_after error_written]; rewrite ?Hid; try done.
    + by destruct (claim_cond _ _ _).
    + by destruct (_ =? _).
    + rewrite (bool_decide_eq_true_2 (is_Some (Some r))) by eauto.
      rewrite andb_true_r. destruct (id =? i) eqn:Heq.
      * apply Z.eqb_eq in Heq as ->. by rewrite bool_decide_eq_true_2.
      * apply Z.eqb_neq in Heq. by rewrite bool_decide_eq_false_2.
    + rewrite (bool_decide_eq_true_2 (is_Some (Some r))) by eauto.
      rewrite andb_true_r. destruct (id =? i) eqn:Heq.
      * apply Z.eqb_eq in Heq as ->. by rewrite bool_decide_eq_true_2.
      * apply Z.eqb_neq in Heq. by rewrite bool_decide_eq_false_2.
    + by destruct (bool_decide (status r = StatusProcessing)).
  - assert (Hnone : error_written id c d = None).
    { destruct c as [| | |i|i|i reason|i reason|]; cbn [error_written];
        rewrite ?Hid; try done;
        rewrite (bool_decide_eq_false_2 (is_Some None))
          by (by intros [? ?]); by rewrite andb_false_r. }
    rewrite Hnone. cbn [from_option].
    destruct c as [u| | |i|i|i reason|i reason|]; cbn [exec_call];
      rewrite ?Hid; try done.
    + destruct (jobs (Create now u d).2 !! id) as [r'|] eqn:Hr'; [|done].
      unfold Create, exec_insert in Hr'. cbn [snd jobs] in Hr'.
      apply lookup_insert_Some in Hr' as [[_ <-]|[_ Hr']]; [done|congruence].
    + by rewrite lookup_Claim, Hid.
    + by rewrite lookup_Complete, Hid.
    + by rewrite lookup_Fail, Hid.
    + by rewrite lookup_Retry, Hid.
    + by rewrite lookup_RecoverStale, Hid.
Qed.

Lemma error_col_run (cs : list (Time * Call)) d id :
  from_option error_col None (jobs (run cs d) !! id)
  = match last_error_written id cs d with
    | Some e => Some e
    | None => from_option error_col None (jobs d !! id)
    end.
Proof.
  revert d. induction cs as [|[now c] cs IH]; intros d; [done|].
  cbn [run last_error_written]. rewrite IH.
  destruct (last_error_written id cs (exec_call now c d)); [done|].
  apply error_col_step.
Qed.

Lemma run_app (cs1 cs2 : list (Time * Call)) d :
  run (cs1 ++ cs2) d = run cs2 (run cs1 d).
Proof. revert d. induction cs1 as [|[now c] cs1 IH]; intros d; [done|]. apply IH. Qed.

(** The last write is made by one call of the run. *)
Lemma last_error_written_split (cs : list (Time * Call)) d id e :
  last_error_written id cs d = Some e →
  ∃ cs1 now c cs2, cs = cs1 ++ (now, c) :: cs2
    ∧ error_written id c (run cs1 d) = Some e
    ∧ last_error_written id cs2 (exec_call now c (run cs1 d)) = None.
Proof.
  revert d. induction cs as [|[now c] cs IH]; intros d Hl; [done|].
  cbn [last_error_written] in Hl.
  destruct (last_error_written id cs (exec_call now c d)) as [e'|] eqn:Hrest.
  - injection Hl as ->.
    destruct (IH _ Hrest) as (cs1 & now' & c' & cs2 & -> & Hw & Hnone).
    exists ((now, c) :: cs1), now', c', cs2. done.
  - exists [], now, c, cs. done.
Qed.

(** C8, as the code has it. Starting from the empty database, the error
    of a job read back is the text of the last write to its error column
    and is empty if there was none. The writes are the fails and retries
    addressed to the job, with their reason, and the crash recoveries
    that found the job processing, with the marker: create leaves the
    error empty, and claim and complete leave it as it is, whatever the
    status they set. *)
Theorem error_only_after_write (cs : list (Time * Call)) id (j : Job) :
  Sqlite.Get id (run cs empty_db) = Ok j →
  Error j = default "" (last_error_written id cs empty_db)
  ∧ (Error j ≠ "" →
     ∃ cs1 now c cs2, cs = cs1 ++ (now, c) :: cs2
       ∧ last_error_written id cs2 (exec_call now c (run cs1 empty_db)) = None
       ∧ (c = CallFail id (Error j) ∨ c = CallRetry id (Error j)
          ∨ (c = CallRecoverStale ∧ Error j = recovery_marker
             ∧ ∃ r, jobs (run cs1 empty_db) !! id = Some r
                    ∧ status r = StatusProcessing))).
Proof.
  unfold Sqlite.Get. intros Hget.
  destruct (jobs (run cs empty_db) !! id) as [r'|] eqn:Hr'; [|done].
  injection Hget as <-. cbn [Error scanJob].
  pose proof (error_col_run cs empty_db id) as Hrun.
  assert (He : from_option error_col None (jobs empty_db !! id) = None)
    by (cbn; by rewrite lookup_empty).
  rewrite Hr', He in Hrun. cbn [from_option] in Hrun.
  assert (Hcol : error_col r' = last_error_written id cs empty_db)
    by (rewrite Hrun; by destruct (last_error_written id cs empty_db)).
  rewrite Hcol. split; [done|]. intros Herr.
  destruct (last_error_written id cs empty_db) as [e|] eqn:Hlast; [|done].
  cbn [from_option Datatypes.id] in *.
  destruct (last_error_written_split cs empty_db id e Hlast)
    as (cs1 & now & c & cs2 & -> & Hw & Hnone).
  exists cs1, now, c, cs2. split; [done|]. split; [done|].
  destruct c as [| | | | |i reason|i reason|]; cbn [error_written] in Hw;
    try done.
  - left. destruct (bool_decide (i = id)) eqn:Hi; [|done].
    apply bool_decide_eq_true in Hi as ->.
    destruct (bool_decide (is_Some _)); [|done]. cbn in Hw. congruence.
  - right; left. destruct (bool_decide (i = id)) eqn:Hi; [|done].
    apply bool_decide_eq_true in Hi as ->.
    destruct (bool_decide (is_Some _)); [|done]. cbn in Hw. congruence.
  - right; right.
    destruct (jobs (run cs1 empty_db) !! id) as [r|] eqn:Hr; [|done].
    destruct (bool_decide (status r = StatusProcessing)) eqn:Hst; [|done].
    apply bool_decide_eq_true in Hst. injection Hw as <-. eauto.
Qed.

End TerminalFacts.

(** ** The orchestration service *)
(** ** What [url.ParseRequestURI] accepts *)
Section UrlFacts.
Import Url.
Variable parseAuthority : string → bool.

Lemma before_query_cons (c : Ascii.ascii) (s : string) :
  before_query (String c s)
  = if Ascii.eqb c "?"%char then EmptyString else String c (before_query s).
Proof.
  unfold before_query. cbn [break_at].
  destruct (Ascii.eqb c "?"%char); [done|]. by destruct (break_at "?"%char s).
Qed.

(** An absolute path is accepted. *)
Lemma absolute_path_accepted (p : string) :
  stringContainsCTLByte p = false →
  valid_escapes (before_query p) = true →
  ParseRequestURI parseAuthority (String "/"%char p) = true.
Proof.
  intros Hctl Hesc. unfold ParseRequestURI.
  cbn [stringContainsCTLByte]. rewrite Hctl.
  change (is_ctl "/"%char || false) with false. cbv iota.
  assert (Hne : String.eqb (String "/"%char p) "" = false) by reflexivity.
  assert (Hstar : String.eqb (String "/"%char p) "*" = false) by reflexivity.
  rewrite Hne, Hstar.
  assert (Hscheme : getScheme (String "/"%char p) = Some (EmptyString, String "/"%char p))
    by reflexivity.
  rewrite Hscheme. cbv zeta. rewrite before_query_cons.
  change (Ascii.eqb "/"%char "?"%char) with false. cbv iota.
  assert (Hpre : ∀ r, String.prefix "/" (String "/"%char r) = true).
  { intros r. cbn. by destruct r. }
  rewrite Hpre. cbn [negb String.eqb andb].
  cbn [valid_escapes]. change (Ascii.eqb "/"%char "%"%char) with false. cbv iota.
  exact Hesc.
Qed.

(** Without a scheme and without a leading slash only the asterisk is
    accepted. *)
Lemma rootless_rejected (s : string) :
  getScheme s = Some (EmptyString, s) →
  String.prefix "/" s = false →
  ParseRequestURI parseAuthority s = true → s = "*".
Proof.
  intros Hscheme Hpre. unfold ParseRequestURI.
  destruct (stringContainsCTLByte s); [done|].
  destruct (String.eqb s "") eqn:He; [done|].
  destruct (String.eqb s "*") eqn:Hstar; [by apply String.eqb_eq in Hstar|].
  rewrite Hscheme. cbv zeta.
  assert (Hq : String.prefix "/" (before_query s) = false).
  { destruct s as [|c s']; [done|]. rewrite before_query_cons.
    destruct (Ascii.eqb c "?"%char); [done|].
    destruct (String.prefix "/" (String c (before_query s'))) eqn:Hp; [|done].
    apply String.prefix_correct in Hp. cbn in Hp.
    assert (Hc : c = "/"%char) by (destruct (before_query s'); by injection Hp).
    subst c. rewrite <- Hpre. symmetry.
    apply String.prefix_correct. cbn. by destruct s'. }
  rewrite Hq. done.
Qed.

End UrlFacts.

Section ServiceFacts.
Import Sqlite Service.
Variable parseAuthority : string → bool.
Variable clock : nat → Time.

Lemma timed_db {A} c (op : Time → DB → A * DB) w :
  db (timed clock c op w).2 = (op (clock (ticks w)) (db w)).2.
Proof. unfold timed. by destruct (op _ _). Qed.

Lemma timed_calls {A} c (op : Time → DB → A * DB) w :
  calls (timed clock c op w).2 = calls w ++ [c].
Proof. unfold timed. by destruct (op _ _). Qed.

Lemma timed_ticks {A} c (op : Time → DB → A * DB) w :
  ticks (timed clock c op w).2 = S (ticks w).
Proof. unfold timed. by destruct (op _ _). Qed.

(** C9, as the code has it. [Submit] returns [ErrInvalidURL] exactly
    when [url.ParseRequestURI] rejects the string, and then the world is
    as it was: no row and no repository call. When the string is accepted
    the repository is called once and holds a new pending row with zero
    attempts, which is the job returned. What is accepted is more than
    the absolute URLs: every absolute path without control bytes and with
    well-formed escapes is, while a string without a scheme that does not
    start with a slash is accepted only if it is an asterisk. *)
Theorem Submit_validates_first (rawURL : string) (w : World) :
  ((Submit parseAuthority clock rawURL w).1 = Err ErrInvalidURL
     ↔ Url.ParseRequestURI parseAuthority rawURL = false)
  ∧ (Url.ParseRequestURI parseAuthority rawURL = false →
     Submit parseAuthority clock rawURL w = (Err ErrInvalidURL, w))
  ∧ (Url.ParseRequestURI parseAuthority rawURL = true →
     ∃ j w', Submit parseAuthority clock rawURL w = (Ok j, w')
       ∧ URL j = rawURL ∧ Status j = StatusPending ∧ Attempts j = 0
       ∧ jobs (db w) !! ID j = None
       ∧ jobs (db w') !! ID j
         = Some {| url := rawURL; status := StatusPending; attempts := 0;
                   error_col := None;
                   created_at := clock (ticks w);
                   updated_at := clock (ticks w) |}
       ∧ Sqlite.Get (ID j) (db w') = Ok j
       ∧ calls w' = calls w ++ [CallCreate rawURL])
  ∧ (∀ p, Url.stringContainsCTLByte p = false →
       Url.valid_escapes (Url.before_query p) = true →
       Url.ParseRequestURI parseAuthority (String "/"%char p) = true)
  ∧ (∀ s, Url.getScheme s = Some (EmptyString, s) →
       String.prefix "/" s = false →
       Url.ParseRequestURI parseAuthority s = true → s = "*").
Proof.
  split_and!; [| | |apply absolute_path_accepted|apply rootless_rejected].
  - unfold Submit, repo_Create, timed.
    destruct (Url.ParseRequestURI parseAuthority rawURL); [|done].
    by destruct (Create (clock (ticks w)) rawURL (db w)).
  - intros Hp. unfold Submit. by rewrite Hp.
  - intros Hp. unfold Submit, repo_Create, timed. rewrite Hp.
    destruct (Create (clock (ticks w)) rawURL (db w)) as [j d'] eqn:Hc.
    assert (Hj : j = (Create (clock (ticks w)) rawURL (db w)).1) by by rewrite Hc.
    assert (Hd : d' = (Create (clock (ticks w)) rawURL (db w)).2) by by rewrite Hc.
    exists j, (mkWorld d' (S (ticks w)) (calls w ++ [CallCreate rawURL])).
    cbn [db calls]. subst j d'. split_and!; try done.
    + apply (exec_insert_fresh
        {| url := rawURL; status := StatusPending; attempts := 0;
           error_col := None; created_at := clock (ticks w);
           updated_at := clock (ticks w) |}).
    + apply lookup_Create_new.
    + unfold Sqlite.Get. by rewrite lookup_Create_new.
Qed.

End ServiceFacts.

(** ** The worker *)
Section WorkerFacts.
Import Sqlite Service Worker.
Variable clock : nat → Time.
Variable registry : list URLProcessor.
Variable maxRetries : Z.

Lemma CanRetry_spec (j : Job) (m : Z) :
  CanRetry j m = true ↔ Attempts j < m ∧ Status j ≠ StatusCompleted.
Proof.
  unfold CanRetry.
  rewrite andb_true_iff, Z.ltb_lt, negb_true_iff, bool_decide_eq_false. done.
Qed.

Lemma under_live {A} ctx c rc (refusal : A) m (w : World) :
  refused ctx (length (calls w)) = false →
  under ctx c rc refusal m w = m w.
Proof. intros H. unfold under. by rewrite H. Qed.

Lemma under_refused {A} ctx c rc (refusal : A) m (w : World) :
  refused ctx (length (calls w)) = true →
  under ctx c rc refusal m w = (refusal, declined c rc w).
Proof. intros H. unfold under. by rewrite H. Qed.

(** A call that writes, under a context: it is made in any case, and
    executed unless the context refuses it. *)
Lemma under_timed_calls {A} ctx c (refusal : A) (op : Time → DB → A * DB) w :
  calls (under ctx c true refusal (timed clock c op) w).2 = calls w ++ [c].
Proof.
  unfold under. destruct (refused ctx _); [done|]. apply timed_calls.
Qed.

Lemma under_timed_db {A} ctx c (refusal : A) (op : Time → DB → A * DB) w :
  db (under ctx c true refusal (timed clock c op) w).2
  = if refused ctx (length (calls w)) then db w
    else (op (clock (ticks w)) (db w)).2.
Proof.
  unfold under. destruct (refused ctx _); [done|]. apply timed_db.
Qed.

(** The branch of [processJob] after a claim that was won and a refresh
    that was answered. *)
Lemma processJob_claimed ctx (job : Job) (w : World) proc r :
  Registry.Match registry (URL job) = Some proc →
  jobs (db w) !! ID job = Some r → status r = StatusPending →
  refused ctx (length (calls w)) = false →
  refused ctx (S (length (calls w))) = false →
  processJob clock registry maxRetries ctx job w =
    let now := clock (ticks w) in
    let job' := scanJob (ID job) (set_claim now r) in
    let w2 := {| db := with_jobs (db w) (<[ID job := set_claim now r]> (jobs (db w)));
                 ticks := S (ticks w);
                 calls := (calls w ++ [CallClaim (ID job)]) ++ [CallGet (ID job)] |} in
    match Process proc job' with
    | Some msg =>
        if CanRetry job' maxRetries
        then Returned (svc_MarkRetry clock ctx (ID job) msg w2).2
        else Returned (svc_MarkFailed clock ctx (ID job) msg w2).2
    | None => Returned (svc_MarkComplete clock ctx (ID job) w2).2
    end.
Proof.
  intros Hm Hr Hst H0 H1. unfold processJob. rewrite Hm.
  unfold svc_MarkProcessing. rewrite under_live by done.
  unfold MarkProcessing, timed at 1.
  rewrite (Claim_pending _ _ _ r Hr Hst).
  unfold svc_Get. rewrite under_live
    by (cbn [calls]; rewrite length_app, Nat.add_1_r; exact H1).
  unfold Service.Get, untimed. cbn [db ticks calls].
  unfold Sqlite.Get, with_jobs at 1. cbn [jobs].
  rewrite lookup_insert_eq. done.
Qed.

(** A claim that was won followed by a refresh that the context
    refuses: the worker panics and the job stays claimed. *)
Lemma processJob_stranded ctx (job : Job) (w : World) proc r :
  Registry.Match registry (URL job) = Some proc →
  jobs (db w) !! ID job = Some r → status r = StatusPending →
  refused ctx (length (calls w)) = false →
  refused ctx (S (length (calls w))) = true →
  processJob clock registry maxRetries ctx job w =
    Panicked
      {| db := with_jobs (db w)
                 (<[ID job := set_claim (clock (ticks w)) r]> (jobs (db w)));
         ticks := S (ticks w);
         calls := (calls w ++ [CallClaim (ID job)]) ++ [CallGet (ID job)] |}.
Proof.
  intros Hm Hr Hst H0 H1. unfold processJob. rewrite Hm.
  unfold svc_MarkProcessing. rewrite under_live by done.
  unfold MarkProcessing, timed at 1.
  rewrite (Claim_pending _ _ _ r Hr Hst).
  unfold svc_Get. rewrite under_refused
    by (cbn [calls]; rewrite length_app, Nat.add_1_r; exact H1).
  done.
Qed.

(** A claim that cannot be won: the job is skipped. *)
Lemma processJob_not_pending ctx (job : Job) (w : World) proc :
  Registry.Match registry (URL job) = Some proc →
  (∀ r, jobs (db w) !! ID job = Some r → status r ≠ StatusPending) →
  ∃ w', processJob clock registry maxRetries ctx job w = Returned w'
    ∧ db w' = db w
    ∧ calls w' = calls w ++ [CallClaim (ID job)].
Proof.
  intros Hm Hno. unfold processJob. rewrite Hm.
  unfold svc_MarkProcessing, under.
  destruct (refused ctx (length (calls w))).
  - eexists. split; [done|]. done.
  - unfold MarkProcessing, timed. rewrite (Claim_not_pending _ _ _ Hno).
    eexists. split; [done|]. done.
Qed.

(** C4, as the code has it. When the matched processor fails on a job
    the worker has just claimed and read back, the worker calls retry
    if the re-fetched job has [Attempts < maxRetries] and is not
    completed, and fail otherwise, with the failure text. If the store
    executes that call the job ends pending, respectively failed, with
    the failure text as its error and the attempts of the claim. If the
    context is cancelled when the call is made, the store refuses it:
    the job stays as the claim left it, processing, with the error it
    had. *)
Theorem failed_run_outcome ctx (job : Job) (w : World) proc r msg :
  Registry.Match registry (URL job) = Some proc →
  jobs (db w) !! ID job = Some r → status r = StatusPending →
  refused ctx (length (calls w)) = false →
  refused ctx (S (length (calls w))) = false →
  Process proc
    {| ID := ID job; URL := url r; Status := StatusProcessing;
       Attempts := attempts r + 1; Error := default "" (error_col r);
       CreatedAt := created_at r; UpdatedAt := clock (ticks w) |}
    = Some msg →
  ∃ w' job' r',
    processJob clock registry maxRetries ctx job w = Returned w'
    ∧ Sqlite.Get (ID job) (Claim (clock (ticks w)) (ID job) (db w)).2 = Ok job'
    ∧ Attempts job' = attempts r + 1
    ∧ calls w'
      = calls w ++ [CallClaim (ID job); CallGet (ID job);
                    if CanRetry job' maxRetries
                    then CallRetry (ID job) msg else CallFail (ID job) msg]
    ∧ (CanRetry job' maxRetries = true ↔
         Attempts job' < maxRetries ∧ Status job' ≠ StatusCompleted)
    ∧ jobs (db w') !! ID job = Some r'
    ∧ attempts r' = attempts r + 1
    ∧ (refused ctx (S (S (length (calls w)))) = false →
       error_col r' = Some msg
       ∧ (status r' = StatusPending ↔
            Attempts job' < maxRetries ∧ Status job' ≠ StatusCompleted)
       ∧ (status r' = StatusFailed ↔
            ¬ (Attempts job' < maxRetries ∧ Status job' ≠ StatusCompleted))
       ∧ (Attempts job' = maxRetries - 1 → status r' = StatusPending)
       ∧ (Attempts job' = maxRetries → status r' = StatusFailed))
    ∧ (refused ctx (S (S (length (calls w)))) = true →
       r' = set_claim (clock (ticks w)) r).
Proof.
  intros Hm Hr Hst H0 H1 Hp.
  rewrite (processJob_claimed ctx job w proc r Hm Hr Hst H0 H1). cbn zeta.
  set (job' := scanJob (ID job) (set_claim (clock (ticks w)) r)).
  change (Process proc job' = Some msg) in Hp. rewrite Hp.
  assert (Hget : Sqlite.Get (ID job) (Claim (clock (ticks w)) (ID job) (db w)).2
                 = Ok job').
  { rewrite (Claim_pending _ _ _ r Hr Hst). unfold Sqlite.Get, with_jobs.
    cbn [snd jobs]. by rewrite lookup_insert_eq. }
  pose proof (CanRetry_spec job' maxRetries) as Hcan.
  assert (Hnc : Status job' ≠ StatusCompleted) by done.
  assert (Hatt : Attempts job' = attempts r + 1) by done.
  set (w2 := mkWorld _ _ _).
  assert (Hlen : length (calls w2) = S (S (length (calls w)))).
  { unfold w2. cbn [calls]. rewrite !length_app. cbn. lia. }
  assert (Hw2 : jobs (db w2) !! ID job = Some (set_claim (clock (ticks w)) r)).
  { unfold w2, with_jobs. cbn [db jobs]. by rewrite lookup_insert_eq. }
  assert (Hno : CanRetry job' maxRetries = false →
            ¬ (Attempts job' < maxRetries ∧ Status job' ≠ StatusCompleted)).
  { intros Hc H. apply Hcan in H. congruence. }
  destruct (refused ctx (S (S (length (calls w))))) eqn:H2;
    destruct (CanRetry job' maxRetries) eqn:Hc;
    eexists _, job', _; (split; [done|]); (split; [done|]); (split; [done|]);
    unfold svc_MarkRetry, MarkRetry, svc_MarkFailed, MarkFailed;
    rewrite under_timed_calls, under_timed_db, Hlen, Hc, H2;
    (split; [unfold w2; cbn [calls]; by rewrite <- !app_assoc|]);
    (split; [exact Hcan|]).
  - split; [exact Hw2|]. split; [done|]. split; [done|]. done.
  - split; [exact Hw2|]. split; [done|]. split; [done|]. done.
  - rewrite lookup_Retry, Hw2. cbn [fmap option_fmap option_map].
    rewrite Z.eqb_refl. split; [done|]. split; [done|].
    split; [|done]. intros _.
    cbn [set_status_error set_claim error_col attempts status].
    destruct Hcan as [Hcan _]. specialize (Hcan eq_refl).
    split_and!.
    + done.
    + split; [intros _; exact Hcan|done].
    + split; [done|]. intros Hn. destruct (Hn Hcan).
    + done.
    + intros Heq. destruct Hcan. lia.
  - rewrite lookup_Fail, Hw2. cbn [fmap option_fmap option_map].
    rewrite Z.eqb_refl. split; [done|]. split; [done|].
    split; [|done]. intros _.
    cbn [set_status_error set_claim error_col attempts status].
    specialize (Hno eq_refl).
    split_and!.
    + done.
    + split; [done|]. intros H. destruct (Hno H).
    + split; [intros _; exact Hno|done].
    + intros Heq. destruct Hno. split; [lia|done].
    + done.
Qed.

End WorkerFacts.

(** ** One poll cycle *)
Section PollFacts.
Import Sqlite Service Worker.
Variable clock : nat → Time.
Variable registry : list URLProcessor.
Variable maxRetries : Z.

Lemma FindPending_keys limit d :
  ID <$> FindPending limit d
  = (sql_limit limit
       (merge_sort (λ x y, Is_true (created_le x y))
          (filter (λ kr : Z * Row, status kr.2 = StatusPending)
             (map_to_list (jobs d))))).*1.
Proof.
  unfold FindPending. rewrite <- list_fmap_compose. by apply list_fmap_ext.
Qed.

Lemma sql_limit_sublist {A} limit (l : list A) : sql_limit limit l `sublist_of` l.
Proof. unfold sql_limit. destruct (limit <? 0); [done|apply sublist_take]. Qed.

(** A batch never holds the same job twice. *)
Lemma FindPending_NoDup limit d : NoDup (ID <$> FindPending limit d).
Proof.
  rewrite FindPending_keys.
  set (rows := filter (λ kr : Z * Row, status kr.2 = StatusPending)
                 (map_to_list (jobs d))).
  set (sorted := merge_sort (λ x y, Is_true (created_le x y)) rows).
  apply (sublist_NoDup _ (sorted.*1));
    [|apply fmap_sublist, sql_limit_sublist].
  unfold sorted. rewrite merge_sort_Permutation.
  apply (sublist_NoDup _ ((map_to_list (jobs d)).*1));
    [apply NoDup_fst_map_to_list|].
  apply fmap_sublist, sublist_filter.
Qed.

(** Every job of a batch is a pending row of the table, as scanned. *)
Lemma FindPending_elem limit d (j : Job) :
  j ∈ FindPending limit d →
  ∃ r, jobs d !! ID j = Some r ∧ status r = StatusPending
       ∧ j = scanJob (ID j) r.
Proof.
  unfold FindPending. intros Hin.
  apply list_elem_of_fmap in Hin as ([k r] & -> & Hin).
  eapply elem_of_sublist in Hin; [|apply sql_limit_sublist].
  rewrite merge_sort_Permutation in Hin.
  apply list_elem_of_filter in Hin as [Hst Hin].
  apply elem_of_map_to_list in Hin. exists r. done.
Qed.

Lemma lookup_exec_call_other now c d id i :
  call_id c = Some id → i ≠ id →
  jobs (exec_call now c d) !! i = jobs d !! i.
Proof.
  intros Hc Hne.
  assert (Hz : (i =? id) = false) by by apply Z.eqb_neq.
  destruct c; cbn in Hc; try done; injection Hc as ->; cbn [exec_call].
  - rewrite lookup_Claim. destruct (jobs d !! i) as [r|]; [|done]. cbn.
    unfold claim_cond. by rewrite Hz.
  - rewrite lookup_Complete, Hz. by destruct (jobs d !! i).
  - rewrite lookup_Fail, Hz. by destruct (jobs d !! i).
  - rewrite lookup_Retry, Hz. by destruct (jobs d !! i).
Qed.

(** [processJob] calls the repository for its own job only and leaves
    the other rows alone, however it ends; it returns when the context
    refuses no call. *)
Lemma processJob_frame ctx (job : Job) (w : World) :
  ∃ w' new,
    world_of (processJob clock registry maxRetries ctx job w) = w'
    ∧ ((∀ n, refused ctx n = false) →
       processJob clock registry maxRetries ctx job w = Returned w')
    ∧ calls w' = calls w ++ new
    ∧ Forall (λ c, call_id c = Some (ID job)) new
    ∧ ∀ i, i ≠ ID job → jobs (db w') !! i = jobs (db w) !! i.
Proof.
  assert (Hwrite : ∀ c (op : Time → DB → option error * DB) (w0 : World),
    call_id c = Some (ID job) →
    (∀ now d, (op now d).2 = exec_call now c d) →
    ∀ i, i ≠ ID job →
      jobs (db (under ctx c true (Some ErrCanceled) (timed clock c op) w0).2) !! i
      = jobs (db w0) !! i).
  { intros c op w0 Hc Hop i Hne. rewrite under_timed_db.
    destruct (refused ctx _); [done|]. rewrite Hop.
    by apply (lookup_exec_call_other _ c _ (ID job)). }
  destruct (Registry.Match registry (URL job)) as [proc|] eqn:Hm.
  - destruct (refused ctx (length (calls w))) eqn:H0.
    { unfold processJob. rewrite Hm. unfold svc_MarkProcessing.
      rewrite under_refused by done.
      eexists _, [_]. split; [done|]. split; [intros Hl; by rewrite Hl in H0|].
      cbn [declined calls db]. split; [done|].
      split; [repeat constructor|done]. }
    destruct (pending_or_not (ID job) (db w)) as [(r & Hr & Hst)|Hno].
    + destruct (refused ctx (S (length (calls w)))) eqn:H1.
      { rewrite (processJob_stranded clock registry maxRetries ctx job w proc r
                   Hm Hr Hst H0 H1).
        eexists _, [_; _]. split; [done|].
        split; [intros Hl; by rewrite Hl in H1|].
        cbn [world_of calls db]. rewrite <- app_assoc. split; [done|].
        split; [repeat constructor|].
        intros i Hne. unfold with_jobs. cbn [jobs].
        by rewrite lookup_insert_ne. }
      rewrite (processJob_claimed clock registry maxRetries ctx job w proc r
                 Hm Hr Hst H0 H1).
      cbn zeta.
      set (w2 := mkWorld _ _ _).
      assert (Hw2 : ∀ i, i ≠ ID job → jobs (db w2) !! i = jobs (db w) !! i).
      { intros i Hne. unfold w2, with_jobs. cbn [db jobs].
        by rewrite lookup_insert_ne. }
      destruct (Process proc _) as [msg|];
        [destruct (CanRetry _ _)|]; eexists _, [_; _; _];
        (split; [done|]); (split; [done|]); cbn [world_of];
        unfold svc_MarkRetry, MarkRetry, svc_MarkFailed, MarkFailed,
          svc_MarkComplete, MarkComplete;
        rewrite under_timed_calls; unfold w2 at 1; cbn [calls];
        rewrite <- !app_assoc; (split; [done|]);
        (split; [repeat constructor|]);
        intros i Hne; rewrite <- (Hw2 i Hne); by apply Hwrite.
    + unfold processJob. rewrite Hm. unfold svc_MarkProcessing.
      rewrite under_live by done. unfold MarkProcessing, timed.
      rewrite (Claim_not_pending _ _ _ Hno).
      eexists _, [_]. split; [done|]. split; [done|]. cbn [calls db].
      split; [done|]. split; [repeat constructor|done].
  - unfold processJob. rewrite Hm. eexists _, [_]. split; [done|].
    split; [done|]. cbn [world_of]. unfold svc_MarkFailed, MarkFailed.
    rewrite under_timed_calls.
    split; [done|]. split; [repeat constructor|].
    intros i Hne. by apply Hwrite.
Qed.

(** Jobs other than [i] in the batch do not touch job [i]. *)
Lemma poll_loop_others ctx (batch : list Job) k0 (w : World) i :
  Forall (λ j, ID j ≠ i) batch →
  ∃ w' new,
    world_of (poll_loop clock registry maxRetries ctx k0 batch w) = w'
    ∧ ((∀ n, refused ctx n = false) →
       poll_loop clock registry maxRetries ctx k0 batch w = Returned w')
    ∧ calls w' = calls w ++ new
    ∧ Forall (λ c, call_id c ≠ Some i) new
    ∧ jobs (db w') !! i = jobs (db w) !! i.
Proof.
  revert k0 w. induction batch as [|job rest IH]; intros k0 w Hall.
  - exists w, []. cbn. by rewrite app_nil_r.
  - apply Forall_cons in Hall as [Hne Hall]. cbn [poll_loop].
    destruct (cancelled ctx k0).
    { exists w, []. by rewrite app_nil_r. }
    destruct (processJob_frame ctx job w)
      as (w1 & new1 & Hw1 & Hret1 & Hc1 & Hid1 & Hfr1).
    assert (Hid1' : Forall (λ c, call_id c ≠ Some i) new1).
    { eapply Forall_impl; [exact Hid1|]. cbn. intros c -> [= ?]. done. }
    destruct (processJob clock registry maxRetries ctx job w) as [w1'|w1'];
      cbn [world_of] in Hw1; subst w1'.
    + destruct (IH (S k0) w1 Hall) as (w' & new & Hw' & Hret & Hc & Hid & Hfr).
      exists w', (new1 ++ new). split; [done|]. split; [done|].
      rewrite Hc, Hc1, app_assoc. split; [done|]. split.
      * by apply Forall_app.
      * rewrite Hfr. apply Hfr1. done.
    + exists w1, new1. split; [done|].
      split; [intros Hl; by specialize (Hret1 Hl)|].
      split; [done|]. split; [done|]. by apply Hfr1.
Qed.



End PollFacts.

(** ** The file system of the executor *)
Section FsFacts.
Import Executor.
Implicit Types (fs : FS) (path nm : string) (e : entry).

Lemma stat_ok_lookup path nm fs :
  stat_ok path nm fs = true ↔ is_Some (lookup_entry path nm fs).
Proof.
  unfold stat_ok, lookup_entry. destruct (fs !! path) as [d|]; cbn.
  - by rewrite bool_decide_eq_true.
  - split; [done|]. by intros [? ?].
Qed.

Lemma stat_ok_false path nm fs :
  stat_ok path nm fs = false ↔ lookup_entry path nm fs = None.
Proof.
  rewrite <- not_true_iff_false, stat_ok_lookup, <- eq_None_not_Some. done.
Qed.

Lemma put_entry_dir path nm e fs path' :
  path' ≠ path → put_entry path nm e fs !! path' = fs !! path'.
Proof.
  intros Hne. unfold put_entry. destruct (fs !! path); [|done].
  by rewrite lookup_insert_ne.
Qed.

Lemma del_entry_dir path nm fs path' :
  path' ≠ path → del_entry path nm fs !! path' = fs !! path'.
Proof.
  intros Hne. unfold del_entry. destruct (fs !! path); [|done].
  by rewrite lookup_insert_ne.
Qed.

Lemma put_entry_is_Some path nm e fs path' :
  is_Some (put_entry path nm e fs !! path') ↔ is_Some (fs !! path').
Proof.
  unfold put_entry. destruct (fs !! path) as [d|] eqn:Hd; [|done].
  destruct (decide (path' = path)) as [->|Hne].
  - rewrite lookup_insert_eq, Hd. split; eauto.
  - by rewrite lookup_insert_ne.
Qed.

Lemma del_entry_is_Some path nm fs path' :
  is_Some (del_entry path nm fs !! path') ↔ is_Some (fs !! path').
Proof.
  unfold del_entry. destruct (fs !! path) as [d|] eqn:Hd; [|done].
  destruct (decide (path' = path)) as [->|Hne].
  - rewrite lookup_insert_eq, Hd. split; eauto.
  - by rewrite lookup_insert_ne.
Qed.

Lemma lookup_put_entry path nm e fs path' nm' :
  is_Some (fs !! path) →
  lookup_entry path' nm' (put_entry path nm e fs)
  = if decide (path' = path ∧ nm' = nm) then Some e
    else lookup_entry path' nm' fs.
Proof.
  intros [d Hd]. unfold lookup_entry, put_entry. rewrite Hd.
  destruct (decide (path' = path)) as [->|Hne].
  - rewrite lookup_insert_eq, Hd. cbn.
    destruct (decide (nm' = nm)) as [->|Hn].
    + rewrite lookup_insert_eq. by rewrite decide_True.
    + rewrite lookup_insert_ne by done. rewrite decide_False; [done|].
      by intros [_ ?].
  - rewrite lookup_insert_ne by done. rewrite decide_False; [done|].
    by intros [? _].
Qed.

Lemma lookup_del_entry path nm fs path' nm' :
  lookup_entry path' nm' (del_entry path nm fs)
  = if decide (path' = path ∧ nm' = nm) then None
    else lookup_entry path' nm' fs.
Proof.
  unfold lookup_entry, del_entry.
  destruct (fs !! path) as [d|] eqn:Hd.
  - destruct (decide (path' = path)) as [->|Hne].
    + rewrite lookup_insert_eq, Hd. cbn.
      destruct (decide (nm' = nm)) as [->|Hn].
      * rewrite lookup_delete_eq. by rewrite decide_True.
      * rewrite lookup_delete_ne by done. rewrite decide_False; [done|].
        by intros [_ ?].
    + rewrite lookup_insert_ne by done. rewrite decide_False; [done|].
      by intros [? _].
  - case_decide as Hc; [|done]. destruct Hc as [-> _]. by rewrite Hd.
Qed.

Lemma relocated_rename src dst nm e fs :
  is_Some (fs !! dst) →
  relocated src dst nm e fs (put_entry dst nm e (del_entry src nm fs)).
Proof.
  intros HB.
  assert (HB' : is_Some (del_entry src nm fs !! dst))
    by by apply del_entry_is_Some.
  split_and!.
  - intros path H1 H2. by rewrite put_entry_dir, del_entry_dir.
  - intros _. by apply put_entry_is_Some.
  - intros. by rewrite lookup_put_entry, lookup_del_entry.
Qed.

Lemma relocated_copy src dst nm e fs :
  src ≠ dst → is_Some (fs !! dst) →
  relocated src dst nm e fs (del_entry src nm (put_entry dst nm e fs)).
Proof.
  intros Hsd HB. split_and!.
  - intros path H1 H2. by rewrite del_entry_dir, put_entry_dir.
  - intros _. by apply del_entry_is_Some, put_entry_is_Some.
  - intros path' nm'. rewrite lookup_del_entry, lookup_put_entry by done.
    repeat case_decide; destruct_and?; try done. congruence.
Qed.

(** One successful relocation keeps the invariant. *)
Lemma move_inv_moved src dst fs0 moved fs nm e fs' :
  move_inv src dst fs0 moved fs →
  lookup_entry dst nm fs = None →
  lookup_entry src nm fs = Some e →
  relocated src dst nm e fs fs' →
  move_inv src dst fs0 (moved ++ [nm]) fs'.
Proof.
  intros (HA & HB & HC & HD & HE) Hdst Hsrc (RA & RB & Hlk).
  assert (Hnm : nm ∉ moved).
  { intros Hin. destruct (HD nm Hin) as (_ & e' & _ & He'). congruence. }
  split_and!.
  - intros path H1 H2. rewrite RA by done. by apply HA.
  - by apply RB.
  - intros nm' e' H0. destruct (HC nm' e' H0) as [H1 H2].
    assert (nm' ≠ nm) by congruence.
    split.
    + rewrite Hlk. repeat case_decide; destruct_and?; done.
    + rewrite elem_of_app, list_elem_of_singleton. by intros [?|?].
  - intros nm' [Hin| ->%list_elem_of_singleton]%elem_of_app.
    + destruct (HD nm' Hin) as (H1 & e' & H2 & H3).
      assert (nm' ≠ nm) by congruence.
      split; [done|]. exists e'. split; [done|].
      rewrite Hlk. repeat case_decide; destruct_and?; done.
    + split.
      * destruct (lookup_entry dst nm fs0) as [e'|] eqn:H0; [|done].
        destruct (HC nm e' H0) as [H1 _]. congruence.
      * exists e. rewrite <- (HE nm Hnm). split; [done|].
        rewrite Hlk. by rewrite decide_True.
  - intros nm' Hnot. rewrite elem_of_app, list_elem_of_singleton in Hnot.
    assert (nm' ≠ nm) by (intros ->; apply Hnot; by right).
    assert (nm' ∉ moved) by (intros ?; apply Hnot; by left).
    rewrite Hlk. repeat case_decide; destruct_and?; try done. by apply HE.
Qed.

(** Writing a name that is absent from the destination and not moved
    keeps the invariant. *)
Lemma move_inv_partial src dst fs0 moved fs nm e :
  src ≠ dst →
  move_inv src dst fs0 moved fs →
  lookup_entry dst nm fs = None →
  move_inv src dst fs0 moved (put_entry dst nm e fs).
Proof.
  intros Hsd (HA & HB & HC & HD & HE) Hdst.
  split_and!.
  - intros path H1 H2. rewrite put_entry_dir by done. by apply HA.
  - by apply put_entry_is_Some.
  - intros nm' e' H0. destruct (HC nm' e' H0) as [H1 H2].
    assert (nm' ≠ nm) by congruence.
    split; [|done]. rewrite lookup_put_entry by done.
    case_decide; destruct_and?; done.
  - intros nm' Hin. destruct (HD nm' Hin) as (H1 & e' & H2 & H3).
    assert (nm' ≠ nm) by congruence.
    split; [done|]. exists e'. split; [done|].
    rewrite lookup_put_entry by done. case_decide; destruct_and?; done.
  - intros nm' Hnot. rewrite <- (HE nm' Hnot).
    rewrite lookup_put_entry by done. case_decide; destruct_and?; done.
Qed.

(** The loop keeps the invariant, whether it ends with an error or not. *)
Lemma move_loop_inv o src dst entries fs0 moved fs err moved' fs' :
  src ≠ dst →
  move_inv src dst fs0 moved fs →
  move_loop o src dst entries moved fs = (err, moved', fs') →
  move_inv src dst fs0 moved' fs'.
Proof.
  intros Hsd. revert moved fs.
  induction entries as [|[nm e] rest IH]; intros moved fs Hinv Hrun;
    cbn [move_loop] in Hrun.
  - by injection Hrun as <- <- <-.
  - destruct (is_dir e); [by eapply IH|].
    destruct (stat_ok dst nm fs) eqn:Hstat; [by eapply IH|].
    apply stat_ok_false in Hstat.
    pose proof Hinv as (_ & HB & _). pose proof HB as [dd Hdd].
    unfold os_Rename in Hrun. rewrite Hdd in Hrun.
    destruct (lookup_entry src nm fs) as [e0|] eqn:Hsrc.
    + destruct (rename_ok o nm).
      * eapply IH; [|exact Hrun].
        eapply move_inv_moved; eauto using relocated_rename.
      * unfold copyFile in Hrun. rewrite Hsrc, Hdd in Hrun.
        destruct e0 as [data|]; [|by injection Hrun as <- <- <-].
        destruct (copy o nm) as [|err0|err0 [part|]].
        -- eapply IH; [|exact Hrun].
           eapply move_inv_moved; eauto using relocated_copy.
        -- by injection Hrun as <- <- <-.
        -- injection Hrun as <- <- <-. by apply move_inv_partial.
        -- by injection Hrun as <- <- <-.
    + unfold copyFile in Hrun. rewrite Hsrc in Hrun.
      by injection Hrun as <- <- <-.
Qed.

Lemma move_inv_start src dst fs0 :
  is_Some (fs0 !! dst) → move_inv src dst fs0 [] fs0.
Proof.
  intros HB. split_and!; try done.
  - intros nm e ->. split; [done|apply not_elem_of_nil].
  - intros nm Hin. by apply elem_of_nil in Hin.
Qed.

End FsFacts.

(** ** Isolated execution *)
Section IsolationFacts.
Import Executor.
Implicit Types (fs : FS) (path nm : string) (e : entry)
  (p : CommandProcessor) (o : OS).

(** The loop touches the source and the destination directory only. *)
Lemma move_loop_frame o src dst entries moved fs path :
  path ≠ src → path ≠ dst →
  (move_loop o src dst entries moved fs).2 !! path = fs !! path.
Proof.
  intros H1 H2. revert moved fs.
  induction entries as [|[nm e] rest IH]; intros moved fs;
    cbn [move_loop]; [done|].
  destruct (is_dir e); [apply IH|].
  destruct (stat_ok dst nm fs); [apply IH|].
  assert (Hcopy : (match copyFile o src dst nm fs with
                   | (Some err, fs2) => (Some err, moved, fs2)
                   | (None, fs2) =>
                       move_loop o src dst rest (moved ++ [nm])
                         (del_entry src nm fs2)
                   end).2 !! path = fs !! path).
  { unfold copyFile.
    destruct (lookup_entry src nm fs) as [[data|]|]; [|done..].
    destruct (fs !! dst) as [dd|]; [|done].
    destruct (copy o nm) as [|err0|err0 [part|]]; cbn [snd]; try done.
    - etrans; [apply IH|]. by rewrite del_entry_dir, put_entry_dir.
    - by rewrite put_entry_dir. }
  unfold os_Rename.
  destruct (lookup_entry src nm fs) as [e0|]; [|exact Hcopy].
  destruct (fs !! dst) as [dd|]; [|exact Hcopy].
  destruct (rename_ok o nm); [|exact Hcopy].
  etrans; [apply IH|]. by rewrite put_entry_dir, del_entry_dir.
Qed.

Lemma os_MkdirAll_entries o path fs fs1 path' nm :
  os_MkdirAll o path fs = inl fs1 →
  lookup_entry path' nm fs1 = lookup_entry path' nm fs
  ∧ is_Some (fs1 !! path)
  ∧ (path' ≠ path → fs1 !! path' = fs !! path').
Proof.
  unfold os_MkdirAll, lookup_entry.
  destruct (fs !! path) as [d|] eqn:Hd.
  - intros [= <-]. rewrite Hd. eauto.
  - destruct (mkdir_all o); [done|]. intros [= <-].
    split_and!.
    + destruct (decide (path' = path)) as [->|Hne].
      * by rewrite lookup_insert_eq, Hd.
      * by rewrite lookup_insert_ne.
    + rewrite lookup_insert_eq. eauto.
    + intros Hne. by rewrite lookup_insert_ne.
Qed.

Lemma moveFiles_frame p o src fs path :
  path ≠ src → path ≠ targetDir p →
  (moveFiles p o src fs).2 !! path = fs !! path.
Proof.
  intros H1 H2. unfold moveFiles.
  destruct (os_ReadDir src fs) as [entries|]; [|done].
  destruct (os_MkdirAll o (targetDir p) fs) as [fs1|] eqn:Hmk; [|done].
  rewrite move_loop_frame by done.
  by apply (os_MkdirAll_entries o (targetDir p) fs fs1 path "" Hmk).
Qed.

(** What [moveFiles] guarantees when source and target differ: it either
    gave up before touching anything, or ran the loop under its
    invariant from the file system with the target made. *)
Lemma moveFiles_inv p o src fs err moved fs' :
  src ≠ targetDir p →
  moveFiles p o src fs = (err, moved, fs') →
  (fs' = fs ∧ moved = [])
  ∨ (∃ fs1, os_MkdirAll o (targetDir p) fs = inl fs1
            ∧ move_inv src (targetDir p) fs1 moved fs').
Proof.
  intros Hsd. unfold moveFiles.
  destruct (os_ReadDir src fs) as [entries|];
    [|intros [= <- <- <-]; by left].
  destruct (os_MkdirAll o (targetDir p) fs) as [fs1|] eqn:Hmk;
    [|intros [= <- <- <-]; by left].
  intros Hrun. right. exists fs1. split; [done|].
  eapply move_loop_inv; [done| |exact Hrun].
  apply move_inv_start.
  by apply (os_MkdirAll_entries o (targetDir p) fs fs1 "" "" Hmk).
Qed.

(** [processIsolated] once the temporary directory is made and the
    command has run. *)
Lemma processIsolated_unfold p o argv fs tmp out res :
  mkdir_temp o = inl tmp → fs !! tmp = None →
  run o (command p) argv ∅ = (out, res) →
  processIsolated p o argv fs =
    match res with
    | Some (err, output) =>
        (Some (command p +:+ " failed: " +:+ err +:+ ": " +:+ output),
         delete tmp (<[tmp := out]> fs))
    | None =>
        ((moveFiles p o tmp (<[tmp := out]> fs)).1.1,
         delete tmp (moveFiles p o tmp (<[tmp := out]> fs)).2)
    end.
Proof.
  intros Hmk Hfresh Hrun. unfold processIsolated, os_MkdirTemp.
  rewrite Hmk, Hfresh. unfold run_in. rewrite lookup_insert_eq, Hrun.
  rewrite insert_insert_eq. unfold os_RemoveAll.
  destruct res as [[err output]|]; [done|].
  by destruct (moveFiles p o tmp (<[tmp := out]> fs)) as [[err moved] fs3].
Qed.

(** On every return of [processIsolated] the directories other than
    the target are as they were, so no temporary directory is left. *)
Lemma processIsolated_frame p o argv fs path :
  path ≠ targetDir p →
  (processIsolated p o argv fs).2 !! path = fs !! path.
Proof.
  intros Hne.
  destruct (mkdir_temp o) as [tmp|err] eqn:Hmk;
    [|unfold processIsolated, os_MkdirTemp; by rewrite Hmk].
  destruct (fs !! tmp) as [d|] eqn:Hfresh;
    [unfold processIsolated, os_MkdirTemp; by rewrite Hmk, Hfresh|].
  destruct (run o (command p) argv ∅) as [out res] eqn:Hrun.
  rewrite (processIsolated_unfold p o argv fs tmp out res) by done.
  destruct (decide (path = tmp)) as [->|Hpt].
  - destruct res as [[err output]|]; cbn [snd];
      by rewrite lookup_delete_eq.
  - destruct res as [[err output]|]; cbn [snd];
      rewrite lookup_delete_ne by done.
    + by rewrite lookup_insert_ne.
    + rewrite moveFiles_frame by done. by rewrite lookup_insert_ne.
Qed.

Lemma lookup_entry_insert_other path nm fs tmp d :
  path ≠ tmp → lookup_entry path nm (<[tmp := d]> fs) = lookup_entry path nm fs.
Proof. intros Hne. unfold lookup_entry. by rewrite lookup_insert_ne. Qed.

Lemma lookup_entry_delete_other path nm fs tmp :
  path ≠ tmp → lookup_entry path nm (delete tmp fs) = lookup_entry path nm fs.
Proof. intros Hne. unfold lookup_entry. by rewrite lookup_delete_ne. Qed.

(** C6. On every return of [processIsolated] each entry the target
    directory held is still there unchanged, and every other directory
    is as before, so the temporary directory is gone. When the command
    succeeds and leaves a file whose name the target already has, that
    file is not among the moved ones and is still in the temporary
    directory when it is removed. *)
Theorem isolated_never_overwrites p o argv fs :
  (∀ nm e, lookup_entry (targetDir p) nm fs = Some e →
     lookup_entry (targetDir p) nm (processIsolated p o argv fs).2 = Some e)
  ∧ (∀ path, path ≠ targetDir p →
     (processIsolated p o argv fs).2 !! path = fs !! path)
  ∧ (∀ tmp, mkdir_temp o = inl tmp → fs !! tmp = None →
     (processIsolated p o argv fs).2 !! tmp = None)
  ∧ (∀ tmp out nm e data,
     mkdir_temp o = inl tmp → fs !! tmp = None →
     run o (command p) argv ∅ = (out, None) →
     lookup_entry (targetDir p) nm fs = Some e →
     out !! nm = Some (File data) →
     ∃ err moved fs3,
       moveFiles p o tmp (<[tmp := out]> fs) = (err, moved, fs3)
       ∧ (nm ∉ moved)
       ∧ lookup_entry tmp nm fs3 = Some (File data)
       ∧ lookup_entry (targetDir p) nm fs3 = Some e
       ∧ processIsolated p o argv fs = (err, delete tmp fs3)).
Proof.
  assert (Hkeep : ∀ tmp out nm e err moved fs3,
    fs !! tmp = None →
    lookup_entry (targetDir p) nm fs = Some e →
    moveFiles p o tmp (<[tmp := out]> fs) = (err, moved, fs3) →
    tmp ≠ targetDir p ∧ (nm ∉ moved)
    ∧ lookup_entry (targetDir p) nm fs3 = Some e
    ∧ lookup_entry tmp nm fs3 = out !! nm).
  { intros tmp out nm e err moved fs3 Hfresh Hold Hmv.
    assert (Hsd : tmp ≠ targetDir p).
    { intros ->. unfold lookup_entry in Hold. by rewrite Hfresh in Hold. }
    split; [done|].
    assert (Hold2 : lookup_entry (targetDir p) nm (<[tmp := out]> fs) = Some e)
      by by rewrite lookup_entry_insert_other.
    assert (Hsrc : lookup_entry tmp nm (<[tmp := out]> fs) = out !! nm)
      by (unfold lookup_entry; by rewrite lookup_insert_eq).
    destruct (moveFiles_inv p o tmp _ err moved fs3 Hsd Hmv)
      as [[-> ->]|(fs1 & Hmk & HA & HB & HC & HD & HE)].
    - split; [apply not_elem_of_nil|done].
    - pose proof (os_MkdirAll_entries o _ _ fs1 (targetDir p) nm Hmk)
        as (H1 & _ & _).
      pose proof (os_MkdirAll_entries o _ _ fs1 tmp nm Hmk) as (H2 & _ & _).
      rewrite <- H1 in Hold2. destruct (HC nm e Hold2) as [H3 H4].
      split; [done|]. split; [done|].
      by rewrite (HE nm H4), H2. }
  split_and!.
  - intros nm e Hold.
    assert (Hex : is_Some (fs !! targetDir p)).
    { unfold lookup_entry in Hold. destruct (fs !! targetDir p); [eauto|done]. }
    destruct (mkdir_temp o) as [tmp|err] eqn:Hmk;
      [|unfold processIsolated, os_MkdirTemp; by rewrite Hmk].
    destruct (fs !! tmp) as [d|] eqn:Hfresh;
      [unfold processIsolated, os_MkdirTemp; by rewrite Hmk, Hfresh|].
    assert (Hsd : targetDir p ≠ tmp).
    { intros Heq. rewrite Heq, Hfresh in Hex. by destruct Hex. }
    destruct (run o (command p) argv ∅) as [out res] eqn:Hrun.
    rewrite (processIsolated_unfold p o argv fs tmp out res) by done.
    destruct res as [[err output]|]; cbn [snd];
      rewrite lookup_entry_delete_other by done.
    + by rewrite lookup_entry_insert_other.
    + destruct (moveFiles p o tmp (<[tmp := out]> fs)) as [[err moved] fs3]
        eqn:Hmv.
      by destruct (Hkeep tmp out nm e err moved fs3 Hfresh Hold Hmv)
        as (_ & _ & ? & _).
  - intros path Hne. by apply processIsolated_frame.
  - intros tmp Hmk Hfresh.
    destruct (run o (command p) argv ∅) as [out res] eqn:Hrun.
    rewrite (processIsolated_unfold p o argv fs tmp out res) by done.
    destruct res as [[err output]|]; cbn [snd]; by rewrite lookup_delete_eq.
  - intros tmp out nm e data Hmk Hfresh Hrun Hold Hout.
    destruct (moveFiles p o tmp (<[tmp := out]> fs)) as [[err moved] fs3]
      eqn:Hmv.
    destruct (Hkeep tmp out nm e err moved fs3 Hfresh Hold Hmv)
      as (_ & Hnm & Htgt & Hsrc).
    exists err, moved, fs3. split; [done|]. split; [done|].
    split; [by rewrite Hsrc|]. split; [done|].
    rewrite (processIsolated_unfold p o argv fs tmp out None) by done.
    by rewrite Hmv.
Qed.

(** C10. The move loop stops at the first file whose rename and copy
    fallback both fail and returns the copy's error with the names moved
    so far. Whenever [moveFiles] ends with an error in an isolated run,
    [processIsolated] returns that error, and every file already moved is
    in the target directory, where it was not before, with the entry the
    command produced. The scenario [partial_os] shows such a run leaving
    one of the two produced files in the target. *)
Theorem failed_move_leaves_files :
  (∀ o src dst nm e rest moved fs err,
     is_dir e = false → stat_ok dst nm fs = false →
     rename_ok o nm = false →
     (copyFile o src dst nm fs).1 = Some err →
     move_loop o src dst ((nm, e) :: rest) moved fs
     = (Some err, moved, (copyFile o src dst nm fs).2))
  ∧ (∀ p o argv fs tmp out err moved fs3,
     mkdir_temp o = inl tmp → fs !! tmp = None → tmp ≠ targetDir p →
     run o (command p) argv ∅ = (out, None) →
     moveFiles p o tmp (<[tmp := out]> fs) = (Some err, moved, fs3) →
     processIsolated p o argv fs = (Some err, delete tmp fs3)
     ∧ ∀ nm, nm ∈ moved →
         lookup_entry (targetDir p) nm fs = None
         ∧ ∃ e, out !! nm = Some e
                ∧ lookup_entry (targetDir p) nm (delete tmp fs3) = Some e)
  ∧ (processIsolated partial_proc partial_os [] partial_fs
     = (Some "no space left on device",
        {["/videos" := {["a.txt" := File "A"]}]})).
Proof.
  split_and!.
  - intros o src dst nm e rest moved fs err He Hstat Hren Hcopy.
    cbn [move_loop]. rewrite He, Hstat.
    assert (Hr : ∃ msg, os_Rename o src dst nm fs = (Some msg, fs)).
    { unfold os_Rename. rewrite Hren.
      destruct (lookup_entry src nm fs), (fs !! dst); eauto. }
    destruct Hr as [msg ->].
    destruct (copyFile o src dst nm fs) as [[err'|] fs2]; cbn in Hcopy |- *;
      congruence.
  - intros p o argv fs tmp out err moved fs3 Hmk Hfresh Hsd Hrun Hmv.
    split.
    { rewrite (processIsolated_unfold p o argv fs tmp out None) by done.
      by rewrite Hmv. }
    intros nm Hin.
    destruct (moveFiles_inv p o tmp _ (Some err) moved fs3 Hsd Hmv)
      as [[-> ->]|(fs1 & Hmk1 & HA & HB & HC & HD & HE)].
    { by apply elem_of_nil in Hin. }
    destruct (HD nm Hin) as (Hnone & e & Hsrc & Hdst).
    pose proof (os_MkdirAll_entries o _ _ fs1 (targetDir p) nm Hmk1)
      as (H1 & _ & _).
    pose proof (os_MkdirAll_entries o _ _ fs1 tmp nm Hmk1) as (H2 & _ & _).
    split.
    + rewrite H1, lookup_entry_insert_other in Hnone by done. done.
    + exists e. split.
      * rewrite H2 in Hsrc. unfold lookup_entry in Hsrc.
        by rewrite lookup_insert_eq in Hsrc.
      * by rewrite lookup_entry_delete_other.
  - vm_compute. reflexivity.
Qed.

End IsolationFacts.

(** ** The statements at concrete inputs *)
Section Instances.
Import Sqlite Service Worker Scenario.

Lemma db_stale_jobs :
  jobs db_stale =
    <[1 := {| url := "https://example.com/1"; status := StatusProcessing;
              attempts := 1; error_col := None; created_at := 1;
              updated_at := 4 |}]>
    (<[2 := {| url := "https://example.com/2"; status := StatusProcessing;
               attempts := 1; error_col := None; created_at := 2;
               updated_at := 5 |}]>
    (<[3 := {| url := "https://example.com/3"; status := StatusPending;
               attempts := 0; error_col := None; created_at := 3;
               updated_at := 3 |}]> ∅)).
Proof. vm_compute. reflexivity. Qed.

(** C1 on the pending job of [db_one]: the first claim wins, the second
    is told the job is not found. *)
Lemma Claim_exactly_once_witness :
  Sqlite.Get 1 (Claim 101 1 db_one).2
  = Ok {| ID := 1; URL := "https://example.com/x"; Status := StatusProcessing;
          Attempts := 1; Error := ""; CreatedAt := 100; UpdatedAt := 101 |}
  ∧ (Claim 101 1 db_one).1 = None
  ∧ Claim 102 1 (Claim 101 1 db_one).2
    = (Some ErrJobNotFound, (Claim 101 1 db_one).2).
Proof.
  split; [vm_compute; reflexivity|]. split; [vm_compute; reflexivity|].
  apply (Claim_exactly_once 101 1 db_one). vm_compute. reflexivity.
Defined.

(** C6 on [rerun_fs]: the old [a.txt] stays, [b.txt] arrives and the
    temporary directory is gone. *)
Lemma isolated_never_overwrites_witness :
  Executor.processIsolated Executor.partial_proc Executor.rerun_os []
    Executor.rerun_fs
  = (None, {["/videos" := {["a.txt" := Executor.File "old";
                            "b.txt" := Executor.File "B"]}]})
  ∧ Executor.lookup_entry "/videos" "a.txt"
      (Executor.processIsolated Executor.partial_proc Executor.rerun_os []
         Executor.rerun_fs).2
    = Some (Executor.File "old").
Proof.
  split; [vm_compute; reflexivity|].
  apply (isolated_never_overwrites Executor.partial_proc Executor.rerun_os []
           Executor.rerun_fs).
  vm_compute. reflexivity.
Defined.

(** C2 on the three jobs of [db_stale]: two are recovered. *)
Lemma RecoverStale_all_witness :
  (Sqlite.RecoverStale 9 db_stale).1 = 2
  ∧ Sqlite.Get 1 (Sqlite.RecoverStale 9 db_stale).2
    = Ok {| ID := 1; URL := "https://example.com/1"; Status := StatusPending;
            Attempts := 1; Error := "recovered after crash";
            CreatedAt := 1; UpdatedAt := 9 |}.
Proof.
  assert (Hnd : NoDup [1; 2]) by compute_done.
  assert (Hids : ∀ i, i ∈ [1; 2] ↔
            ∃ r, jobs db_stale !! i = Some r ∧ status r = StatusProcessing).
  { intros i. rewrite db_stale_jobs. split.
    - intros Hi. apply elem_of_cons in Hi as [->|Hi];
        [|apply list_elem_of_singleton in Hi as ->];
        eexists; (split; [vm_compute; reflexivity|reflexivity]).
    - intros (r & Hr & Hst).
      apply lookup_insert_Some in Hr as [[<- _]|[_ Hr]]; [by left|].
      apply lookup_insert_Some in Hr as [[<- _]|[_ Hr]];
        [right; by left|].
      apply lookup_insert_Some in Hr as [[_ <-]|[_ Hr]]; [done|].
      by rewrite lookup_empty in Hr. }
  split.
  - exact (proj1 (RecoverStale_all 9 db_stale [1; 2] Hnd Hids)).
  - vm_compute. reflexivity.
Defined.

(** C3 on job 1 of [db_one] along [later_calls]. *)
Lemma attempts_monotone_witness :
  jobs db_one !! 1 = Some row_one
  ∧ claims_won 1 later_calls db_one = 2%nat
  ∧ ∃ r', jobs (run later_calls db_one) !! 1 = Some r'
          ∧ attempts r' = attempts row_one
                          + Z.of_nat (claims_won 1 later_calls db_one)
          ∧ attempts row_one ≤ attempts r'.
Proof.
  assert (H1 : jobs db_one !! 1 = Some row_one) by (vm_compute; reflexivity).
  split; [exact H1|]. split; [vm_compute; reflexivity|].
  exact (proj1 (attempts_monotone later_calls db_one 1 row_one H1)).
Defined.

(** C4 on the first failed attempt of the job of [w_video]: retried when
    [maxRetries = 2], failed for good when [maxRetries = 1], and left
    processing when the context is cancelled during the run. *)
Lemma failed_run_outcome_witness :
  (∃ w' r', processJob clock0 [failing] 2 background job_video w_video
              = Returned w'
     ∧ jobs (db w') !! 1 = Some r'
     ∧ status r' = StatusPending
     ∧ error_col r' = Some "exit status 1" ∧ attempts r' = 1)
  ∧ (∃ w' r', processJob clock0 [failing] 1 background job_video w_video
                = Returned w'
     ∧ jobs (db w') !! 1 = Some r'
     ∧ status r' = StatusFailed
     ∧ error_col r' = Some "exit status 1" ∧ attempts r' = 1)
  ∧ (∃ w' r', processJob clock0 [failing] 2 ctx_cut job_video w_video
                = Returned w'
     ∧ jobs (db w') !! 1 = Some r'
     ∧ r' = set_claim 101 row_video).
Proof.
  split_and!.
  - destruct (failed_run_outcome clock0 [failing] 2 background job_video
                w_video failing row_video "exit status 1")
      as (w' & job' & r' & Hrun & Hget & Hatt & _ & _ & Hrow & Hatt'
          & Hlive & _).
    + vm_compute. reflexivity.
    + vm_compute. reflexivity.
    + reflexivity.
    + reflexivity.
    + reflexivity.
    + reflexivity.
    + destruct (Hlive eq_refl) as (Herr & _ & _ & Hlast & _).
      exists w', r'. split; [exact Hrun|]. split; [exact Hrow|].
      split; [apply Hlast; rewrite Hatt; reflexivity|].
      split; [exact Herr|exact Hatt'].
  - destruct (failed_run_outcome clock0 [failing] 1 background job_video
                w_video failing row_video "exit status 1")
      as (w' & job' & r' & Hrun & Hget & Hatt & _ & _ & Hrow & Hatt'
          & Hlive & _).
    + vm_compute. reflexivity.
    + vm_compute. reflexivity.
    + reflexivity.
    + reflexivity.
    + reflexivity.
    + reflexivity.
    + destruct (Hlive eq_refl) as (Herr & _ & _ & _ & Hmax).
      exists w', r'. split; [exact Hrun|]. split; [exact Hrow|].
      split; [apply Hmax; rewrite Hatt; reflexivity|].
      split; [exact Herr|exact Hatt'].
  - destruct (failed_run_outcome clock0 [failing] 2 ctx_cut job_video
                w_video failing row_video "exit status 1")
      as (w' & job' & r' & Hrun & _ & _ & _ & _ & Hrow & _ & _ & Hcut).
    + vm_compute. reflexivity.
    + vm_compute. reflexivity.
    + reflexivity.
    + reflexivity.
    + reflexivity.
    + reflexivity.
    + exists w', r'. split; [exact Hrun|]. split; [exact Hrow|].
      exact (Hcut eq_refl).
Defined.

(** C4: the run of a claimed job fails under a context that has been
    cancelled in the meantime. The worker calls retry, the store refuses
    the call, and the job is neither pending nor failed: it stays
    processing, and the failure text is not recorded. *)
Lemma failed_run_left_processing :
  Process failing
    {| ID := 1; URL := "https://video.example/v"; Status := StatusProcessing;
       Attempts := 1; Error := ""; CreatedAt := 100; UpdatedAt := 101 |}
  = Some "exit status 1"
  ∧ calls (world_of (processJob clock0 [failing] 3 ctx_cut job_video w_video))
    = [CallCreate "https://video.example/v"; CallClaim 1; CallGet 1;
       CallRetry 1 "exit status 1"]
  ∧ Sqlite.Get 1
      (db (world_of (processJob clock0 [failing] 3 ctx_cut job_video w_video)))
    = Ok {| ID := 1; URL := "https://video.example/v";
            Status := StatusProcessing; Attempts := 1; Error := "";
            CreatedAt := 100; UpdatedAt := 101 |}.
Proof. split_and!; vm_compute; reflexivity. Qed.


(** C9: a path is not an absolute URL, [getScheme] finds no scheme in it,
    and [Submit] stores it all the same; the authority parser is not
    asked. *)
Lemma Submit_stores_a_path :
  Url.getScheme "/just/a/path" = Some (EmptyString, "/just/a/path")
  ∧ Url.ParseRequestURI (λ _, false) "/just/a/path" = true
  ∧ (Submit (λ _, false) clock0 "/just/a/path" init_world).1
    = Ok {| ID := 1; URL := "/just/a/path"; Status := StatusPending;
            Attempts := 0; Error := ""; CreatedAt := 100; UpdatedAt := 100 |}
  ∧ Sqlite.Get 1 (db (Submit (λ _, false) clock0 "/just/a/path" init_world).2)
    = Ok {| ID := 1; URL := "/just/a/path"; Status := StatusPending;
            Attempts := 0; Error := ""; CreatedAt := 100; UpdatedAt := 100 |}
  ∧ (Submit (λ _, true) clock0 "example.com/video" init_world)
    = (Err ErrInvalidURL, init_world).
Proof. split_and!; vm_compute; reflexivity. Qed.



(** C8: a job claimed again after a retry is processing, and then
    completed, with the error of the retry. *)
Lemma error_kept_while_processing :
  Sqlite.Get 1 (run reclaim_calls empty_db)
  = Ok {| ID := 1; URL := "https://example.com/x"; Status := StatusProcessing;
          Attempts := 2; Error := "exit status 1"; CreatedAt := 100;
          UpdatedAt := 103 |}
  ∧ Sqlite.Get 1 (run (reclaim_calls ++ [(104, CallComplete 1)]) empty_db)
    = Ok {| ID := 1; URL := "https://example.com/x"; Status := StatusCompleted;
            Attempts := 2; Error := "exit status 1"; CreatedAt := 100;
            UpdatedAt := 104 |}.
Proof. split; vm_compute; reflexivity. Qed.

(** C8, as the code has it, on the same run: the job is processing and
    its error is the reason of the retry, the last write before the second
    claim. *)
Lemma error_only_after_write_witness :
  Sqlite.Get 1 (run reclaim_calls empty_db)
  = Ok {| ID := 1; URL := "https://example.com/x";
          Status := StatusProcessing; Attempts := 2;
          Error := "exit status 1"; CreatedAt := 100; UpdatedAt := 103 |}
  ∧ last_error_written 1 reclaim_calls empty_db = Some "exit status 1"
  ∧ ∃ cs1 now c cs2, reclaim_calls = cs1 ++ (now, c) :: cs2
      ∧ last_error_written 1 cs2 (exec_call now c (run cs1 empty_db)) = None
      ∧ (c = CallFail 1 "exit status 1" ∨ c = CallRetry 1 "exit status 1"
         ∨ (c = CallRecoverStale ∧ "exit status 1" = recovery_marker
            ∧ ∃ r, jobs (run cs1 empty_db) !! 1 = Some r
                   ∧ status r = StatusProcessing)).
Proof.
  assert (Hget : Sqlite.Get 1 (run reclaim_calls empty_db)
    = Ok {| ID := 1; URL := "https://example.com/x";
            Status := StatusProcessing; Attempts := 2;
            Error := "exit status 1"; CreatedAt := 100; UpdatedAt := 103 |})
    by (vm_compute; reflexivity).
  split; [exact Hget|]. split; [vm_compute; reflexivity|].
  apply (error_only_after_write reclaim_calls 1 _ Hget). discriminate.
Defined.

End Instances.

(** ** More on the store: queries, inserts and the shape of runs *)
Section StoreQueries.
Import Sqlite.
Implicit Types (d : DB) (r : Row) (id : Z) (now : Time).

Lemma created_le_spec (x y : Z * Row) :
  created_le x y = true ↔
  wall (created_at x.2) < wall (created_at y.2)
  ∨ (wall (created_at x.2) = wall (created_at y.2) ∧ x.1 ≤ y.1).
Proof.
  unfold created_le.
  rewrite orb_true_iff, andb_true_iff, Z.ltb_lt, Z.eqb_eq, Z.leb_le. done.
Qed.

#[local] Instance created_rel_trans : Transitive created_rel.
Proof.
  intros x y z Hxy Hyz. unfold created_rel in *.
  apply Is_true_true in Hxy, Hyz. apply Is_true_true.
  apply created_le_spec in Hxy, Hyz. apply created_le_spec. lia.
Qed.

#[local] Instance created_rel_total : Total created_rel.
Proof.
  intros x y. unfold created_rel. rewrite !Is_true_true, !created_le_spec. lia.
Qed.

Lemma FindPending_stages limit d :
  FindPending limit d
  = (λ kr : Z * Row, scanJob kr.1 kr.2) <$> sql_limit limit (ordered_rows d).
Proof. done. Qed.

Lemma ordered_rows_sorted d : StronglySorted created_rel (ordered_rows d).
Proof. apply StronglySorted_merge_sort; apply _. Qed.

Lemma elem_of_ordered_rows d id r :
  (id, r) ∈ ordered_rows d ↔ jobs d !! id = Some r ∧ status r = StatusPending.
Proof.
  unfold ordered_rows, pending_rows.
  rewrite merge_sort_Permutation, list_elem_of_filter, elem_of_map_to_list.
  cbn. tauto.
Qed.

Lemma sql_limit_split {A} limit (l : list A) :
  ∃ rest, l = sql_limit limit l ++ rest
          ∧ (rest ≠ [] → 0 ≤ limit ∧ length (sql_limit limit l) = Z.to_nat limit).
Proof.
  unfold sql_limit. destruct (limit <? 0) eqn:Hl.
  - exists []. by rewrite app_nil_r.
  - exists (drop (Z.to_nat limit) l). rewrite take_drop. split; [done|].
    intros Hne. apply Z.ltb_ge in Hl. split; [done|].
    apply length_take_le.
    destruct (decide (Z.to_nat limit ≤ length l)%nat); [done|].
    rewrite drop_ge in Hne by lia. done.
Qed.

Lemma sql_limit_length {A} limit (l : list A) :
  0 ≤ limit → (length (sql_limit limit l) ≤ Z.to_nat limit)%nat.
Proof.
  intros Hl. unfold sql_limit.
  destruct (limit <? 0) eqn:Hlt; [apply Z.ltb_lt in Hlt; lia|].
  rewrite length_take. lia.
Qed.

(** X1. [FindPending] returns pending jobs only, each as [Get] reads it,
    never the same job twice, and at most [limit] of them when the limit is
    not negative. *)
Theorem FindPending_sound limit d :
  (∀ j, j ∈ FindPending limit d →
     Sqlite.Get (ID j) d = Ok j ∧ Status j = StatusPending)
  ∧ NoDup (ID <$> FindPending limit d)
  ∧ (0 ≤ limit → (length (FindPending limit d) ≤ Z.to_nat limit)%nat).
Proof.
  split_and!.
  - intros j Hj. destruct (FindPending_elem limit d j Hj) as (r & Hr & Hst & Hscan).
    unfold Sqlite.Get. rewrite Hr, <- Hscan. split; [done|].
    by rewrite Hscan.
  - apply FindPending_NoDup.
  - intros Hl. rewrite FindPending_stages, length_fmap.
    by apply sql_limit_length.
Qed.

Lemma StronglySorted_among {A} (P : A → Prop) (R R' : relation A) (l : list A) :
  (∀ x y, P x → P y → R x y → R' x y) →
  Forall P l → StronglySorted R l → StronglySorted R' l.
Proof.
  intros HR HP Hs. induction Hs as [|x l Hs IH Hx]; [constructor|].
  apply Forall_cons in HP as [Px HP]. constructor; [by apply IH|].
  rewrite Forall_forall in Hx, HP. apply Forall_forall.
  intros y Hy. apply HR; auto.
Qed.

(** X2. The jobs [FindPending] returns are in ascending order of the
    wall-clock reading of their creation time, which is how the stored
    text compares: the zone offset in force when a job was created counts.
    When all pending jobs were created under one offset this is the order
    of the instants. *)
Theorem FindPending_sorted limit d :
  StronglySorted (λ a b : Job, wall (CreatedAt a) ≤ wall (CreatedAt b))
    (FindPending limit d)
  ∧ ∀ z,
      (∀ id r, jobs d !! id = Some r → status r = StatusPending →
               zone (created_at r) = z) →
      StronglySorted (λ a b : Job, instant (CreatedAt a) ≤ instant (CreatedAt b))
        (FindPending limit d).
Proof.
  assert (Hwall : StronglySorted
            (λ a b : Job, wall (CreatedAt a) ≤ wall (CreatedAt b))
            (FindPending limit d)).
  { rewrite FindPending_stages.
    apply (StronglySorted_fmap _ created_rel).
    - intros x y Hxy. apply Is_true_true, created_le_spec in Hxy. cbn. lia.
    - destruct (sql_limit_split limit (ordered_rows d)) as (rest & Heq & _).
      pose proof (ordered_rows_sorted d) as Hs. rewrite Heq in Hs.
      by apply StronglySorted_app_1_l in Hs. }
  split; [done|]. intros z Hz.
  apply (StronglySorted_among (λ j : Job, zone (CreatedAt j) = z) _ _ _)
    with (3 := Hwall).
  - intros a b Ha Hb. unfold wall. lia.
  - apply Forall_forall. intros j Hj.
    destruct (FindPending_elem limit d j Hj) as (r & Hr & Hst & ->).
    cbn. by eapply Hz.
Qed.

(** X3. [FindPending] leaves a pending job out only when the limit is
    reached, and then every job it returns has a creation time whose
    wall-clock reading is no later than that of the one left out: the jobs
    that come first are the oldest by the clock on the wall, which after a
    change of the zone offset need not be the oldest. *)
Theorem FindPending_oldest_first limit d id r :
  jobs d !! id = Some r → status r = StatusPending →
  scanJob id r ∉ FindPending limit d →
  0 ≤ limit
  ∧ length (FindPending limit d) = Z.to_nat limit
  ∧ ∀ j, j ∈ FindPending limit d →
      wall (CreatedAt j) ≤ wall (created_at r).
Proof.
  intros Hr Hst Hout.
  destruct (sql_limit_split limit (ordered_rows d)) as (rest & Heq & Hfull).
  assert (Hin : (id, r) ∈ ordered_rows d) by by apply elem_of_ordered_rows.
  rewrite Heq in Hin. apply elem_of_app in Hin as [Hin|Hin].
  { destruct Hout. rewrite FindPending_stages.
    by apply (list_elem_of_fmap_2 (λ kr : Z * Row, scanJob kr.1 kr.2) _ (id, r)). }
  assert (Hne : rest ≠ []) by (intros ->; by apply elem_of_nil in Hin).
  destruct (Hfull Hne) as [Hl Hlen].
  split; [done|]. split.
  { by rewrite FindPending_stages, length_fmap. }
  intros j Hj. rewrite FindPending_stages in Hj.
  apply list_elem_of_fmap in Hj as ([k r'] & -> & Hj).
  pose proof (ordered_rows_sorted d) as Hs. rewrite Heq in Hs.
  pose proof (StronglySorted_app_1_elem_of _ _ _ _ _ Hs Hj Hin) as Hle.
  apply Is_true_true, created_le_spec in Hle. cbn in *. lia.
Qed.

End StoreQueries.

(** ** More on the store: identifiers, missing rows, transitions *)
Section StoreShape.
Import Sqlite.
Implicit Types (d : DB) (r : Row) (id : Z) (now : Time) (c : Call).

Lemma seq_exec_call now c d : seq d ≤ seq (exec_call now c d).
Proof.
  destruct c; cbn [exec_call];
    rewrite ?Claim_unfold, ?RecoverStale_unfold;
    unfold Create, exec_insert, Complete, Fail, Retry, with_jobs; cbn; lia.
Qed.

Lemma seq_run (cs : list (Time * Call)) d : seq d ≤ seq (run cs d).
Proof.
  revert d. induction cs as [|[now c] cs IH]; intros d; cbn [run]; [done|].
  etrans; [apply (seq_exec_call now c)|apply IH].
Qed.

Lemma Create_id now u d :
  ID (Create now u d).1 = Z.max (seq d) (max_rowid (jobs d)) + 1
  ∧ seq (Create now u d).2 = ID (Create now u d).1.
Proof. done. Qed.

(** X4. The id [Create] assigns is larger than every id in the table and
    than every id assigned before, so ids are never reused and a job
    created later, after any calls in between, has a larger id. *)
Theorem Create_ids_increase now u d (cs : list (Time * Call)) now' u' :
  (∀ i r, jobs d !! i = Some r → i < ID (Create now u d).1)
  ∧ seq d < ID (Create now u d).1
  ∧ ID (Create now u d).1 < ID (Create now' u' (run cs (Create now u d).2)).1.
Proof.
  destruct (Create_id now u d) as [Hid Hseq].
  split_and!.
  - intros i r Hi. apply max_rowid_ge in Hi. lia.
  - lia.
  - destruct (Create_id now' u' (run cs (Create now u d).2)) as [Hid' _].
    pose proof (seq_run cs (Create now u d).2). lia.
Qed.

(** X5. On an id that is not in the table, [Complete], [Fail] and [Retry]
    return nil and change nothing; only [Claim] and [Get] report the
    missing job. *)
Theorem missing_id_is_silent now id reason d :
  jobs d !! id = None →
  Complete now id d = (None, d)
  ∧ Fail now id reason d = (None, d)
  ∧ Retry now id reason d = (None, d)
  ∧ Claim now id d = (Some ErrJobNotFound, d)
  ∧ Sqlite.Get id d = Err ErrJobNotFound.
Proof.
  intros Hid.
  assert (Hno : ∀ k r, jobs d !! k = Some r → id_cond id k r = false).
  { intros k r Hk. unfold id_cond. apply Z.eqb_neq. congruence. }
  unfold Complete, Fail, Retry.
  rewrite !exec_update_id, with_jobs_id by done.
  split_and!; try done.
  - apply Claim_not_pending. congruence.
  - unfold Sqlite.Get. by rewrite Hid.
Qed.

(** X6. Crash recovery is idempotent: run again right after itself it
    finds nothing to recover and changes nothing. *)
Theorem RecoverStale_idempotent now now' d :
  RecoverStale now' (RecoverStale now d).2 = (0, (RecoverStale now d).2).
Proof.
  assert (Hno : ∀ k r, jobs (RecoverStale now d).2 !! k = Some r →
                       stale_cond k r = false).
  { intros k r. rewrite lookup_RecoverStale. unfold stale_cond.
    destruct (jobs d !! k) as [r0|]; [|done]. cbn.
    case_bool_decide; intros [= <-]; by rewrite bool_decide_eq_false_2. }
  rewrite (RecoverStale_unfold now').
  rewrite exec_update_id, with_jobs_id by done.
  f_equal. by apply affected_zero.
Qed.

(** X7. No call removes a job or rewrites its url or its creation time:
    along any sequence of calls a job stays in the table with both. *)
Theorem url_and_created_at_immutable (cs : list (Time * Call)) d id r :
  jobs d !! id = Some r →
  ∃ r', jobs (run cs d) !! id = Some r'
        ∧ url r' = url r ∧ created_at r' = created_at r.
Proof.
  revert d r. induction cs as [|[now c] cs IH]; intros d r Hid.
  - by exists r.
  - pose proof (lookup_exec_call now c d id r Hid) as Hstep.
    destruct (IH _ _ Hstep) as (r' & Hr' & Hu & Hc).
    exists r'. split; [done|]. rewrite Hu, Hc.
    destruct c; cbn [row_after]; try done;
      repeat (case_match || case_bool_decide); done.
Qed.

(** X8. A retry, whatever the status it finds, makes the job claimable
    again; after a fail or a complete a claim is refused. *)
Theorem claim_after_transition now now' id reason d r :
  jobs d !! id = Some r →
  (Claim now' id (Retry now id reason d).2).1 = None
  ∧ (Claim now' id (Fail now id reason d).2).1 = Some ErrJobNotFound
  ∧ (Claim now' id (Complete now id d).2).1 = Some ErrJobNotFound.
Proof.
  intros Hid. split_and!.
  - rewrite (Claim_pending now' id _
               (set_status_error StatusPending reason now r)); [done| |done].
    rewrite lookup_Retry, Hid. cbn. by rewrite Z.eqb_refl.
  - rewrite Claim_not_pending; [done|]. intros r'.
    rewrite lookup_Fail, Hid. cbn. rewrite Z.eqb_refl. by intros [= <-].
  - rewrite Claim_not_pending; [done|]. intros r'.
    rewrite lookup_Complete, Hid. cbn. rewrite Z.eqb_refl. by intros [= <-].
Qed.

(** X9. The status of a job changes only along these edges: to processing
    by a claim of that job found pending, to completed by a complete of
    that job, to failed by a fail of that job, and to pending by a retry of
    that job or by a crash recovery that finds it processing. *)
Theorem status_edges now c d id r r' :
  jobs d !! id = Some r →
  jobs (exec_call now c d) !! id = Some r' →
  status r' ≠ status r →
  (status r' = StatusProcessing ∧ c = CallClaim id
     ∧ status r = StatusPending)
  ∨ (status r' = StatusCompleted ∧ c = CallComplete id)
  ∨ (status r' = StatusFailed ∧ ∃ reason, c = CallFail id reason)
  ∨ (status r' = StatusPending
     ∧ ((∃ reason, c = CallRetry id reason)
        ∨ (c = CallRecoverStale ∧ status r = StatusProcessing))).
Proof.
  intros Hid Hstep Hne.
  rewrite (lookup_exec_call now c d id r Hid) in Hstep. injection Hstep as <-.
  destruct c as [| | |i|i|i reason|i reason|]; cbn [row_after] in *; try done.
  - destruct (claim_cond i id r) eqn:Hc; [|done].
    apply claim_cond_true in Hc as [-> Hp]. left. done.
  - destruct (id =? i) eqn:Heq; [|done]. apply Z.eqb_eq in Heq as ->.
    right; left. done.
  - destruct (id =? i) eqn:Heq; [|done]. apply Z.eqb_eq in Heq as ->.
    right; right; left. eauto.
  - destruct (id =? i) eqn:Heq; [|done]. apply Z.eqb_eq in Heq as ->.
    right; right; right. eauto.
  - case_bool_decide; [|done]. right; right; right. eauto.
Qed.

(** X10. Every call that changes a row stamps it: a job whose row differs
    after a call has that call's clock reading as [updated_at]. *)
Theorem changed_row_is_stamped now c d id r r' :
  jobs d !! id = Some r →
  jobs (exec_call now c d) !! id = Some r' →
  r' ≠ r → updated_at r' = now.
Proof.
  intros Hid Hstep Hne.
  rewrite (lookup_exec_call now c d id r Hid) in Hstep. injection Hstep as <-.
  destruct c; cbn [row_after] in *; try done;
    repeat (case_match || case_bool_decide); done.
Qed.

End StoreShape.

(** ** The registry *)
Section RegistryFacts.

(** X11. [Registry.Match] answers with a processor exactly when that
    processor matches the URL and none registered before it does, and with
    nothing exactly when no registered processor matches. *)
Theorem Match_first_wins (ps : list URLProcessor) (u : string) :
  (∀ p, Registry.Match ps u = Some p →
     ∃ pre post, ps = pre ++ p :: post ∧ Match p u = true
                 ∧ Forall (λ q, Match q u = false) pre)
  ∧ (∀ pre p post, ps = pre ++ p :: post → Match p u = true →
       Forall (λ q, Match q u = false) pre → Registry.Match ps u = Some p)
  ∧ (Registry.Match ps u = None ↔ Forall (λ q, Match q u = false) ps).
Proof.
  split_and!.
  - induction ps as [|q ps IH]; intros p; cbn; [done|].
    destruct (Match q u) eqn:Hq.
    + intros [= <-]. by exists [], ps.
    + intros Hp. destruct (IH p Hp) as (pre & post & -> & Hm & Hpre).
      exists (q :: pre), post. split_and!; [done|done|by constructor].
  - intros pre p post -> Hm Hpre.
    induction Hpre as [|q pre Hq _ IH]; cbn; [by rewrite Hm|by rewrite Hq].
  - induction ps as [|q ps IH]; cbn; [done|].
    destruct (Match q u) eqn:Hq.
    + split; [done|]. intros [Hq' _]%Forall_cons. congruence.
    + rewrite IH, Forall_cons. tauto.
Qed.

Lemma Match_app (ps qs : list URLProcessor) (u : string) :
  Registry.Match (ps ++ qs) u
  = match Registry.Match ps u with
    | Some p => Some p
    | None => Registry.Match qs u
    end.
Proof.
  induction ps as [|q ps IH]; cbn; [done|]. by destruct (Match q u).
Qed.

(** X12. Registering a processor never changes the answer for a URL an
    earlier processor matches; the new processor is consulted last. An
    empty registry matches nothing. *)
Theorem Register_keeps_precedence (ps : list URLProcessor) (q : URLProcessor)
    (u : string) :
  Registry.Match (Registry.Register ps q) u
  = match Registry.Match ps u with
    | Some p => Some p
    | None => if Match q u then Some q else None
    end
  ∧ Registry.Match Registry.NewRegistry u = None
  ∧ Registry.Processors (Registry.Register ps q)
    = Registry.Processors ps ++ [q].
Proof.
  unfold Registry.Register. rewrite Match_app. split_and!; try done.
Qed.

End RegistryFacts.

(** ** More on the worker *)
Section WorkerRuns.
Import Sqlite Service Worker.
Variable clock : nat → Time.
Variable registry : list URLProcessor.
Variable maxRetries : Z.

(** X13. When the matched processor succeeds on a pending job and the
    context refuses none of the three calls, the worker claims the job,
    reads it back and completes it: the job ends completed with one more
    attempt and the error field it had. *)
Theorem processJob_success ctx (job : Job) (w : World) proc r :
  Registry.Match registry (URL job) = Some proc →
  jobs (db w) !! ID job = Some r → status r = StatusPending →
  refused ctx (length (calls w)) = false →
  refused ctx (S (length (calls w))) = false →
  refused ctx (S (S (length (calls w)))) = false →
  Process proc
    {| ID := ID job; URL := url r; Status := StatusProcessing;
       Attempts := attempts r + 1; Error := default "" (error_col r);
       CreatedAt := created_at r; UpdatedAt := clock (ticks w) |}
    = None →
  ∃ w', processJob clock registry maxRetries ctx job w = Returned w'
    ∧ jobs (db w') !! ID job
      = Some {| url := url r; status := StatusCompleted;
                attempts := attempts r + 1; error_col := error_col r;
                created_at := created_at r;
                updated_at := clock (S (ticks w)) |}
    ∧ calls w' = calls w ++ [CallClaim (ID job); CallGet (ID job);
                             CallComplete (ID job)].
Proof.
  intros Hm Hr Hst H0 H1 H2 Hp.
  rewrite (processJob_claimed clock registry maxRetries ctx job w proc r
             Hm Hr Hst H0 H1).
  cbn zeta.
  change (Process proc (scanJob (ID job) (set_claim (clock (ticks w)) r)) = None)
    in Hp.
  rewrite Hp. eexists. split; [done|].
  unfold svc_MarkComplete. rewrite under_live
    by (cbn [calls]; rewrite !length_app; cbn;
        by replace (length (calls w) + 1 + 1)%nat
             with (S (S (length (calls w)))) by lia).
  unfold MarkComplete. rewrite timed_db, timed_calls. cbn [db ticks calls].
  split.
  - rewrite lookup_Complete. unfold with_jobs at 1. cbn [jobs].
    rewrite lookup_insert_eq. cbn. by rewrite Z.eqb_refl.
  - by rewrite <- !app_assoc.
Qed.

(** X14. When the job is no longer pending, or gone, by the time the
    worker gets to it, the claim fails and the worker skips the job: the
    database is as it was and the claim is the only repository call. So
    it is under every context: a claim the context refuses leaves the
    database alone as well. *)
Theorem processJob_skips_unclaimable ctx (job : Job) (w : World) proc :
  Registry.Match registry (URL job) = Some proc →
  (∀ r, jobs (db w) !! ID job = Some r → status r ≠ StatusPending) →
  ∃ w', processJob clock registry maxRetries ctx job w = Returned w'
    ∧ db w' = db w
    ∧ calls w' = calls w ++ [CallClaim (ID job)].
Proof.
  intros Hm Hno.
  by apply (processJob_not_pending clock registry maxRetries ctx job w proc).
Qed.

Lemma poll_loop_returns ctx (batch : list Job) k0 (w : World) :
  (∀ n, refused ctx n = false) →
  ∃ w', poll_loop clock registry maxRetries ctx k0 batch w = Returned w'.
Proof.
  intros Hlive.
  destruct (poll_loop_others clock registry maxRetries ctx batch k0 w
              (1 + foldr Z.max 0 (ID <$> batch)))
    as (w' & new & _ & Hret & _).
  - apply Forall_forall. intros j Hj.
    assert (Hle : ∀ l : list Z, ∀ x, x ∈ l → x ≤ foldr Z.max 0 l).
    { induction l as [|y l IH]; intros x Hx; [by apply elem_of_nil in Hx|].
      apply elem_of_cons in Hx as [->|Hx]; cbn; [lia|].
      specialize (IH x Hx). lia. }
    specialize (Hle (ID <$> batch) (ID j) (list_elem_of_fmap_2 ID _ _ Hj)).
    lia.
  - exists w'. by apply Hret.
Qed.

(** With no call refused a poll cycle returns. *)
Lemma poll_returns ctx (w : World) :
  (∀ n, refused ctx n = false) →
  poll clock registry maxRetries ctx w
  = Returned (world_of (poll clock registry maxRetries ctx w)).
Proof.
  intros Hlive. unfold poll, svc_GetPending.
  rewrite under_live by apply Hlive.
  unfold GetPending, untimed.
  destruct (poll_loop_returns ctx (FindPending 10 (db w)) 0
              {| db := db w; ticks := ticks w;
                 calls := calls w ++ [CallFindPending 10] |} Hlive)
    as (w' & ->).
  done.
Qed.

(** X15. [processJob] panics exactly when the claim it made was won and
    the refresh that follows is refused by the context: the job is then
    left as the claim made it, processing, with the attempt counted.
    With a context that refuses no call a poll cycle always returns,
    whatever its checks between the jobs find. *)
Theorem panic_iff_refresh_refused ctx (job : Job) (w w' : World) :
  (processJob clock registry maxRetries ctx job w = Panicked w' ↔
     ∃ proc r,
       Registry.Match registry (URL job) = Some proc
       ∧ jobs (db w) !! ID job = Some r ∧ status r = StatusPending
       ∧ refused ctx (length (calls w)) = false
       ∧ refused ctx (S (length (calls w))) = true
       ∧ w' = {| db := with_jobs (db w)
                         (<[ID job := set_claim (clock (ticks w)) r]>
                            (jobs (db w)));
                 ticks := S (ticks w);
                 calls := calls w ++ [CallClaim (ID job); CallGet (ID job)] |})
  ∧ ((∀ n, refused ctx n = false) →
     ∃ w'', poll clock registry maxRetries ctx w = Returned w'').
Proof.
  split.
  - split.
    + intros Hpanic.
      destruct (Registry.Match registry (URL job)) as [proc|] eqn:Hm;
        [|unfold processJob in Hpanic; by rewrite Hm in Hpanic].
      destruct (refused ctx (length (calls w))) eqn:H0.
      { unfold processJob in Hpanic. rewrite Hm in Hpanic.
        unfold svc_MarkProcessing in Hpanic.
        by rewrite under_refused in Hpanic. }
      destruct (pending_or_not (ID job) (db w)) as [(r & Hr & Hst)|Hno].
      * destruct (refused ctx (S (length (calls w)))) eqn:H1.
        -- rewrite (processJob_stranded clock registry maxRetries ctx job w
                      proc r Hm Hr Hst H0 H1) in Hpanic.
           injection Hpanic as <-. exists proc, r.
           split_and!; try done. by rewrite <- app_assoc.
        -- rewrite (processJob_claimed clock registry maxRetries ctx job w
                      proc r Hm Hr Hst H0 H1) in Hpanic.
           cbn zeta in Hpanic.
           destruct (Process proc _); [destruct (CanRetry _ _)|]; done.
      * destruct (processJob_not_pending clock registry maxRetries ctx job w
                    proc Hm Hno) as (w1 & Hrun & _). congruence.
    + intros (proc & r & Hm & Hr & Hst & H0 & H1 & ->).
      rewrite (processJob_stranded clock registry maxRetries ctx job w
                 proc r Hm Hr Hst H0 H1).
      by rewrite <- app_assoc.
  - intros Hlive. eexists. by apply poll_returns.
Qed.

(** X16. A poll cycle, however it ends, touches the jobs of the batch it
    fetched and no others: jobs that were processing, completed or failed
    when the batch was fetched keep their rows, and no job appears or
    disappears. *)
Theorem poll_touches_batch_only ctx (w : World) :
  (∀ id, id ∉ ID <$> FindPending 10 (db w) →
     jobs (db (world_of (poll clock registry maxRetries ctx w))) !! id
     = jobs (db w) !! id)
  ∧ (∀ id r, jobs (db w) !! id = Some r → status r ≠ StatusPending →
     jobs (db (world_of (poll clock registry maxRetries ctx w))) !! id
     = Some r)
  ∧ (∀ id, jobs (db w) !! id = None →
     jobs (db (world_of (poll clock registry maxRetries ctx w))) !! id
     = None).
Proof.
  assert (Hout : ∀ id, id ∉ ID <$> FindPending 10 (db w) →
            jobs (db (world_of (poll clock registry maxRetries ctx w))) !! id
            = jobs (db w) !! id).
  { intros id Hid. unfold poll, svc_GetPending, under.
    destruct (refused ctx (length (calls w))); [done|].
    unfold GetPending, untimed.
    destruct (poll_loop_others clock registry maxRetries ctx
                (FindPending 10 (db w)) 0
                {| db := db w; ticks := ticks w;
                   calls := calls w ++ [CallFindPending 10] |} id)
      as (w'' & new & Hrun & _ & _ & _ & Hfr).
    - apply Forall_forall. intros j Hj Heq. apply Hid. rewrite <- Heq.
      by apply list_elem_of_fmap_2.
    - rewrite Hrun. exact Hfr. }
  assert (Hbatch : ∀ id, id ∈ ID <$> FindPending 10 (db w) →
            ∃ r, jobs (db w) !! id = Some r ∧ status r = StatusPending).
  { intros id Hid. apply list_elem_of_fmap in Hid as (j & -> & Hj).
    destruct (FindPending_elem _ _ _ Hj) as (r & Hr & Hst & _). eauto. }
  split_and!.
  - exact Hout.
  - intros id r Hr Hst. rewrite Hout; [done|].
    intros Hid. destruct (Hbatch id Hid) as (r0 & Hr0 & Hst0). congruence.
  - intros id Hnone. rewrite Hout; [done|].
    intros Hid. destruct (Hbatch id Hid) as (r0 & Hr0 & _). congruence.
Qed.

End WorkerRuns.

(** ** Poll cycles and retries *)
Section WorkerCycles.
Import Sqlite Service Worker.
Variable clock : nat → Time.
Variable registry : list URLProcessor.
Variable maxRetries : Z.

(** The job in the middle of a batch is processed on a world in which its
    row is as at the start, and the rest of the batch leaves the result
    alone. *)
Lemma poll_loop_at ctx (pre post : list Job) (job : Job) k0 (w : World) :
  Forall (λ j, ID j ≠ ID job) pre → Forall (λ j, ID j ≠ ID job) post →
  (∀ k, (k0 ≤ k ≤ k0 + length pre)%nat → cancelled ctx k = false) →
  (∀ n, refused ctx n = false) →
  ∃ w1 w2 w',
    jobs (db w1) !! ID job = jobs (db w) !! ID job
    ∧ processJob clock registry maxRetries ctx job w1 = Returned w2
    ∧ poll_loop clock registry maxRetries ctx k0 (pre ++ job :: post) w
      = Returned w'
    ∧ jobs (db w') !! ID job = jobs (db w2) !! ID job.
Proof.
  revert k0 w.
  induction pre as [|j0 pre IH]; intros k0 w Hpre Hpost Hcan Hlive.
  - cbn [app poll_loop]. rewrite Hcan by (cbn; lia).
    destruct (processJob_frame clock registry maxRetries ctx job w)
      as (w2 & new & _ & Hrun & _).
    destruct (poll_loop_others clock registry maxRetries ctx post (S k0)
                w2 (ID job) Hpost) as (w' & new' & _ & Hrest & _ & _ & Hfr).
    exists w, w2, w'. rewrite (Hrun Hlive), (Hrest Hlive). done.
  - apply Forall_cons in Hpre as [Hne Hpre]. cbn [app poll_loop].
    rewrite Hcan by (cbn; lia).
    destruct (processJob_frame clock registry maxRetries ctx j0 w)
      as (w0 & new0 & _ & Hret0 & _ & _ & Hfr0).
    rewrite (Hret0 Hlive).
    destruct (IH (S k0) w0 Hpre Hpost) as (w1 & w2 & w' & H1 & H2 & H3 & H4).
    { intros k Hk. apply Hcan. cbn. lia. }
    { done. }
    exists w1, w2, w'. split; [|done]. rewrite H1. by apply Hfr0.
Qed.

(** What [processJob] makes of a pending job with a matching processor
    when no call is refused. *)
Lemma processJob_matched ctx (job : Job) (w : World) proc r :
  Registry.Match registry (URL job) = Some proc →
  jobs (db w) !! ID job = Some r → status r = StatusPending →
  (∀ n, refused ctx n = false) →
  ∃ w2 r', processJob clock registry maxRetries ctx job w = Returned w2
    ∧ jobs (db w2) !! ID job = Some r'
    ∧ attempts r' = attempts r + 1
    ∧ url r' = url r ∧ created_at r' = created_at r
    ∧ match Process proc (scanJob (ID job) (set_claim (clock (ticks w)) r)) with
      | None => status r' = StatusCompleted ∧ error_col r' = error_col r
      | Some msg =>
          error_col r' = Some msg
          ∧ status r' = (if attempts r + 1 <? maxRetries
                         then StatusPending else StatusFailed)
      end.
Proof.
  intros Hm Hr Hst Hlive.
  rewrite (processJob_claimed clock registry maxRetries ctx job w proc r
             Hm Hr Hst (Hlive _) (Hlive _)).
  cbn zeta.
  set (job' := scanJob (ID job) (set_claim (clock (ticks w)) r)).
  assert (Hcr : CanRetry job' maxRetries = (attempts r + 1 <? maxRetries)).
  { unfold CanRetry, job'. cbn. by rewrite andb_true_r. }
  rewrite Hcr.
  destruct (Process proc job') as [msg|];
    [destruct (attempts r + 1 <? maxRetries)|];
    eexists _, _; (split; [done|]);
    unfold svc_MarkRetry, svc_MarkFailed, svc_MarkComplete;
    rewrite under_live by apply Hlive;
    unfold MarkRetry, MarkFailed, MarkComplete; rewrite timed_db;
    cbn [db ticks];
    rewrite ?lookup_Retry, ?lookup_Fail, ?lookup_Complete;
    unfold with_jobs at 1; cbn [jobs];
    rewrite lookup_insert_eq; cbn; rewrite Z.eqb_refl; done.
Qed.

(** X17. In a poll cycle not cancelled before it, under a context that
    refuses none of the cycle's calls, a fetched job with a matching
    processor is claimed once and ends as the processor decides:
    completed on success, and on an error pending or failed by
    [CanRetry], with the error text recorded. [t] is the clock reading
    index of the claim. *)
Theorem poll_runs_matched_job ctx (w : World) (job : Job) (k : nat) proc :
  FindPending 10 (db w) !! k = Some job →
  Registry.Match registry (URL job) = Some proc →
  (∀ k', (k' ≤ k)%nat → cancelled ctx k' = false) →
  (∀ n, refused ctx n = false) →
  ∃ r w' r' t,
    jobs (db w) !! ID job = Some r ∧ status r = StatusPending
    ∧ poll clock registry maxRetries ctx w = Returned w'
    ∧ jobs (db w') !! ID job = Some r'
    ∧ attempts r' = attempts r + 1
    ∧ url r' = url r ∧ created_at r' = created_at r
    ∧ match Process proc (scanJob (ID job) (set_claim (clock t) r)) with
      | None => status r' = StatusCompleted ∧ error_col r' = error_col r
      | Some msg =>
          error_col r' = Some msg
          ∧ status r' = (if attempts r + 1 <? maxRetries
                         then StatusPending else StatusFailed)
      end.
Proof.
  intros Hk Hm Hcan Hlive.
  assert (Hin : job ∈ FindPending 10 (db w))
    by (eapply list_elem_of_lookup_2; eauto).
  destruct (FindPending_elem _ _ _ Hin) as (r & Hr & Hst & _).
  pose proof (FindPending_NoDup 10 (db w)) as Hnd.
  pose proof (take_drop_middle _ _ _ Hk) as Hsplit.
  rewrite <- Hsplit, fmap_app, fmap_cons in Hnd.
  apply NoDup_app in Hnd as (_ & Hpre & Hpost).
  apply NoDup_cons in Hpost as [Hpost _].
  set (pre := take k (FindPending 10 (db w))) in *.
  set (post := drop (S k) (FindPending 10 (db w))) in *.
  assert (Fpre : Forall (λ j, ID j ≠ ID job) pre).
  { apply Forall_forall. intros j Hj Heq.
    apply (Hpre (ID j)); [by apply list_elem_of_fmap_2|].
    rewrite Heq. apply list_elem_of_here. }
  assert (Fpost : Forall (λ j, ID j ≠ ID job) post).
  { apply Forall_forall. intros j Hj Heq. apply Hpost.
    rewrite <- Heq. by apply list_elem_of_fmap_2. }
  assert (Hlen : (length pre ≤ k)%nat) by (unfold pre; rewrite length_take; lia).
  destruct (poll_loop_at ctx pre post job 0
              {| db := db w; ticks := ticks w;
                 calls := calls w ++ [CallFindPending 10] |} Fpre Fpost)
    as (w1 & w2 & w' & H1 & H2 & H3 & H4).
  { intros k' Hk'. apply Hcan. lia. }
  { done. }
  cbn [db] in H1. rewrite Hr in H1.
  destruct (processJob_matched ctx job w1 proc r Hm H1 Hst Hlive)
    as (w2' & r' & H2' & Hrow & Hatt & Hurl & Hcre & Hout).
  assert (w2' = w2) as -> by congruence.
  exists r, w', r', (ticks w1). split; [done|]. split; [done|]. split.
  { unfold poll, svc_GetPending. rewrite under_live by apply Hlive.
    unfold GetPending, untimed. rewrite <- Hsplit. exact H3. }
  rewrite H4. done.
Qed.

(** One round on a pending job whose processor fails. *)
Lemma failing_round ctx (job : Job) (w : World) proc r :
  Registry.Match registry (URL job) = Some proc →
  (∀ j, Process proc j ≠ None) →
  (∀ n, refused ctx n = false) →
  jobs (db w) !! ID job = Some r → status r = StatusPending →
  ∃ w' r', processJob clock registry maxRetries ctx job w = Returned w'
    ∧ jobs (db w') !! ID job = Some r'
    ∧ attempts r' = attempts r + 1
    ∧ is_Some (error_col r')
    ∧ status r' = (if attempts r + 1 <? maxRetries
                   then StatusPending else StatusFailed).
Proof.
  intros Hm Hfail Hlive Hr Hst.
  destruct (processJob_matched ctx job w proc r Hm Hr Hst Hlive)
    as (w2 & r' & Hrun & Hrow & Hatt & _ & _ & Hout).
  exists w2, r'. split; [done|]. split; [done|]. split; [done|].
  destruct (Process proc _) as [msg|] eqn:Hp; [|by destruct (Hfail _ Hp)].
  destruct Hout as [-> ->]. eauto.
Qed.

(** A round on a job that is not pending changes nothing. *)
Lemma idle_rounds ctx n (job : Job) (w : World) proc r :
  Registry.Match registry (URL job) = Some proc →
  jobs (db w) !! ID job = Some r → status r ≠ StatusPending →
  ∃ w', rounds clock registry maxRetries ctx n job w = Returned w'
        ∧ db w' = db w.
Proof.
  intros Hm. revert w. induction n as [|n IH]; intros w Hr Hst; cbn [rounds].
  - by exists w.
  - destruct (processJob_not_pending clock registry maxRetries ctx job w proc Hm)
      as (w1 & -> & Hdb & _).
    { intros r' Hr'. congruence. }
    destruct (IH w1) as (w' & Hrun & Hdb'); [by rewrite Hdb|done|].
    exists w'. split; [done|congruence].
Qed.

(** X18. Under a context that refuses no call, a job whose processor
    fails every time is retried until its attempts reach [maxRetries],
    at least once: with [n] attempts to go it is still pending after
    fewer than [n] rounds, and failed for good, with exactly [n] more
    attempts, after [n] rounds or more. *)
Theorem retries_are_bounded ctx (job : Job) (w : World) proc r (n m : nat) :
  Registry.Match registry (URL job) = Some proc →
  (∀ j, Process proc j ≠ None) →
  (∀ i, refused ctx i = false) →
  jobs (db w) !! ID job = Some r → status r = StatusPending →
  n = Z.to_nat (Z.max 1 (maxRetries - attempts r)) →
  ∃ w' r', rounds clock registry maxRetries ctx m job w = Returned w'
    ∧ jobs (db w') !! ID job = Some r'
    ∧ if decide (m < n)%nat
      then status r' = StatusPending
           ∧ attempts r' = attempts r + Z.of_nat m
      else status r' = StatusFailed
           ∧ attempts r' = attempts r + Z.of_nat n.
Proof.
  intros Hm Hfail Hlive. revert w r n.
  induction m as [|m IH]; intros w r n Hr Hst Hn.
  - exists w, r. cbn [rounds]. split; [done|]. split; [done|].
    rewrite decide_True by lia. split; [done|lia].
  - cbn [rounds].
    destruct (failing_round ctx job w proc r Hm Hfail Hlive Hr Hst)
      as (w1 & r1 & -> & Hr1 & Hatt & _ & Hst1).
    destruct (attempts r + 1 <? maxRetries) eqn:Hlt.
    + apply Z.ltb_lt in Hlt.
      destruct (IH w1 r1 (Z.to_nat (Z.max 1 (maxRetries - attempts r1)))
                  Hr1 Hst1 eq_refl) as (w' & r' & Hrun & Hr' & Hres).
      exists w', r'. split; [done|]. split; [done|].
      rewrite Hatt in Hres.
      destruct (decide (m < Z.to_nat (Z.max 1 (maxRetries - (attempts r + 1))))%nat);
        [rewrite decide_True by lia|rewrite decide_False by lia];
        destruct Hres as [? ?]; split; [done|lia|done|lia].
    + apply Z.ltb_ge in Hlt.
      destruct (idle_rounds ctx m job w1 proc r1 Hm Hr1) as (w' & Hrun & Hdb);
        [by rewrite Hst1|].
      exists w', r1. split; [done|]. rewrite Hdb. split; [done|].
      rewrite decide_False by lia. split; [done|lia].
Qed.

(** The jobs before the point of cancellation are the only ones reached. *)
Lemma poll_loop_cancelled ctx (pre rest : list Job) k0 (w : World) i :
  (∀ k, (k0 ≤ k < k0 + length pre)%nat → cancelled ctx k = false) →
  cancelled ctx (k0 + length pre)%nat = true →
  Forall (λ j, ID j ≠ i) pre →
  jobs (db (world_of (poll_loop clock registry maxRetries ctx k0
                        (pre ++ rest) w))) !! i
  = jobs (db w) !! i.
Proof.
  revert k0 w. induction pre as [|j0 pre IH]; intros k0 w Hcan Hstop Hpre.
  - cbn [app length] in *. rewrite Nat.add_0_r in Hstop.
    destruct rest as [|j rest]; cbn [poll_loop]; [done|].
    by rewrite Hstop.
  - apply Forall_cons in Hpre as [Hne Hpre]. cbn [app poll_loop].
    rewrite Hcan by (cbn; lia).
    destruct (processJob_frame clock registry maxRetries ctx j0 w)
      as (w0 & new0 & Hw0 & _ & _ & _ & Hfr0).
    destruct (processJob clock registry maxRetries ctx j0 w) as [w0'|w0'];
      cbn [world_of] in Hw0; subst w0'.
    + rewrite IH; [by apply Hfr0| | |done].
      * intros k Hk. apply Hcan. cbn. lia.
      * rewrite <- Hstop. f_equal. cbn. lia.
    + cbn [world_of]. by apply Hfr0.
Qed.

(** X19. Cancellation is honoured between jobs: when the context is found
    cancelled at the check before the [k]-th job of the batch, that job and
    all later ones are left untouched by the cycle, however it ends; and
    the cycle returns when the context refuses none of its calls. *)
Theorem cancelled_poll_stops ctx (w : World) (k i : nat) (job : Job) :
  (∀ k', (k' < k)%nat → cancelled ctx k' = false) →
  cancelled ctx k = true →
  FindPending 10 (db w) !! i = Some job → (k ≤ i)%nat →
  ∃ w', world_of (poll clock registry maxRetries ctx w) = w'
        ∧ ((∀ n, refused ctx n = false) →
           poll clock registry maxRetries ctx w = Returned w')
        ∧ jobs (db w') !! ID job = jobs (db w) !! ID job.
Proof.
  intros Hcan Hstop Hi Hki. eexists. split; [done|].
  split; [by apply poll_returns|].
  unfold poll, svc_GetPending, under.
  destruct (refused ctx (length (calls w))); [done|].
  unfold GetPending, untimed.
  pose proof (FindPending_NoDup 10 (db w)) as Hnd.
  pose proof (take_drop k (FindPending 10 (db w))) as Hsplit.
  assert (Hlt : (i < length (FindPending 10 (db w)))%nat)
    by (apply lookup_lt_is_Some; eauto).
  assert (Hlen : length (take k (FindPending 10 (db w))) = k)
    by (rewrite length_take; lia).
  assert (Hrest : job ∈ drop k (FindPending 10 (db w))).
  { apply list_elem_of_lookup. exists (i - k)%nat.
    rewrite lookup_drop. rewrite <- Hi. f_equal. lia. }
  rewrite <- Hsplit, fmap_app in Hnd.
  apply NoDup_app in Hnd as (_ & Hdisj & _).
  assert (Fpre : Forall (λ j, ID j ≠ ID job) (take k (FindPending 10 (db w)))).
  { apply Forall_forall. intros j Hj Heq.
    apply (Hdisj (ID j)); [by apply list_elem_of_fmap_2|].
    rewrite Heq. by apply list_elem_of_fmap_2. }
  rewrite <- Hsplit at 1.
  rewrite (poll_loop_cancelled ctx (take k (FindPending 10 (db w)))
             (drop k (FindPending 10 (db w))) 0
             {| db := db w; ticks := ticks w;
                calls := calls w ++ [CallFindPending 10] |} (ID job)).
  - done.
  - intros k' Hk'. apply Hcan. lia.
  - by rewrite Hlen.
  - done.
Qed.

End WorkerCycles.

(** ** More on isolated and direct execution *)
Section ExecutorRuns.
Import Executor.
Implicit Types (fs : FS) (path nm : string) (e : entry)
  (p : CommandProcessor) (o : OS).

(** X20. When the temporary directory cannot be made, or the command
    fails, [processIsolated] reports it and leaves the file system exactly
    as it found it: nothing is moved and nothing of the run stays behind. *)
Theorem failed_command_moves_nothing p o argv fs :
  (∀ msg, mkdir_temp o = inr msg →
     processIsolated p o argv fs = (Some ("create temp dir: " +:+ msg), fs))
  ∧ (∀ tmp out err output,
     mkdir_temp o = inl tmp → fs !! tmp = None →
     run o (command p) argv ∅ = (out, Some (err, output)) →
     processIsolated p o argv fs
     = (Some (command p +:+ " failed: " +:+ err +:+ ": " +:+ output), fs)).
Proof.
  split.
  - intros msg Hmk. unfold processIsolated, os_MkdirTemp. by rewrite Hmk.
  - intros tmp out err output Hmk Hfresh Hrun.
    rewrite (processIsolated_unfold p o argv fs tmp out _ Hmk Hfresh Hrun).
    by rewrite delete_insert_id.
Qed.

(** A successful loop adds nothing to the destination but what it moved,
    and moves only regular files of the listing. *)
Lemma move_loop_exact o src dst entries fs0 moved fs moved' fs' :
  is_Some (fs !! dst) →
  move_exact dst fs0 moved fs →
  move_loop o src dst entries moved fs = (None, moved', fs') →
  move_exact dst fs0 moved' fs'
  ∧ ∀ nm, nm ∈ moved' →
      nm ∈ moved ∨ ∃ e, (nm, e) ∈ entries ∧ is_dir e = false.
Proof.
  revert moved fs.
  induction entries as [|[nm e] rest IH]; intros moved fs HB Hex Hrun;
    cbn [move_loop] in Hrun.
  - injection Hrun as <- <-. split; [done|]. intros nm Hin. by left.
  - assert (Hlift : ∀ moved1 fs1,
      is_Some (fs1 !! dst) → move_exact dst fs0 moved1 fs1 →
      (∀ nm', nm' ∈ moved1 → nm' ∈ moved ∨ (nm' = nm ∧ is_dir e = false)) →
      move_loop o src dst rest moved1 fs1 = (None, moved', fs') →
      move_exact dst fs0 moved' fs'
      ∧ ∀ nm', nm' ∈ moved' →
          nm' ∈ moved ∨ ∃ e', (nm', e') ∈ (nm, e) :: rest ∧ is_dir e' = false).
    { intros moved1 fs1 HB1 Hex1 Hsub Hrun1.
      destruct (IH moved1 fs1 HB1 Hex1 Hrun1) as [Hex' Hm'].
      split; [done|]. intros nm' Hin.
      destruct (Hm' nm' Hin) as [Hin1|(e' & He' & Hd)].
      - destruct (Hsub nm' Hin1) as [?|[-> Hd]]; [by left|].
        right. exists e. split; [apply list_elem_of_here|done].
      - right. exists e'. split; [by apply list_elem_of_further|done]. }
    destruct (is_dir e) eqn:Hdir.
    { apply (Hlift moved fs); [done|done| |done]. intros ? ?; by left. }
    destruct (stat_ok dst nm fs) eqn:Hstat.
    { apply (Hlift moved fs); [done|done| |done]. intros ? ?; by left. }
    apply stat_ok_false in Hstat. pose proof HB as [dd Hdd].
    assert (Hmoved : ∀ e0 fs1, relocated src dst nm e0 fs fs1 →
      is_Some (fs1 !! dst) ∧ move_exact dst fs0 (moved ++ [nm]) fs1).
    { intros e0 fs1 (_ & RB & Hlk). split; [by apply RB|].
      intros nm' e' Hl. rewrite Hlk in Hl.
      destruct (decide (dst = dst ∧ nm' = nm)) as [[_ ->]|Hn].
      - right. apply elem_of_app. right. by apply list_elem_of_singleton.
      - destruct (decide (dst = src ∧ nm' = nm)); [done|].
        destruct (Hex nm' e' Hl) as [?|?]; [by left|].
        right. apply elem_of_app. by left. }
    assert (Hsub : ∀ nm', nm' ∈ moved ++ [nm] →
                     nm' ∈ moved ∨ (nm' = nm ∧ false = false)).
    { intros nm' [?| ->%list_elem_of_singleton]%elem_of_app;
        [by left|by right]. }
    unfold os_Rename in Hrun. rewrite Hdd in Hrun.
    destruct (lookup_entry src nm fs) as [e0|] eqn:Hsrc.
    + destruct (rename_ok o nm).
      * destruct (Hmoved e0 _ (relocated_rename src dst nm e0 fs HB))
          as [HB1 Hex1].
        by apply (Hlift _ _ HB1 Hex1 Hsub).
      * unfold copyFile in Hrun. rewrite Hsrc, Hdd in Hrun.
        destruct e0 as [data|]; [|done].
        destruct (copy o nm) as [|err0|err0 [part|]]; try done.
        destruct (decide (src = dst)) as [->|Hsd]; [congruence|].
        destruct (Hmoved (File data) _
                    (relocated_copy src dst nm (File data) fs Hsd HB))
          as [HB1 Hex1].
        by apply (Hlift _ _ HB1 Hex1 Hsub).
    + unfold copyFile in Hrun. rewrite Hsrc in Hrun. done.
Qed.

(** The accumulator only collects names. *)
Lemma move_loop_acc o src dst entries moved fs :
  move_loop o src dst entries moved fs
  = let '(err, m, fs') := move_loop o src dst entries [] fs in
    (err, moved ++ m, fs').
Proof.
  revert moved fs. induction entries as [|[nm e] rest IH]; intros moved fs;
    cbn [move_loop].
  - by rewrite app_nil_r.
  - destruct (is_dir e); [apply IH|].
    destruct (stat_ok dst nm fs); [apply IH|].
    destruct (os_Rename o src dst nm fs) as [[msg|] fs1].
    + destruct (copyFile o src dst nm fs1) as [[err|] fs2].
      * by rewrite app_nil_r.
      * rewrite (IH (moved ++ [nm])), (IH ([] ++ [nm])).
        destruct (move_loop o src dst rest [] _) as [[err m] fs'].
        by rewrite <- app_assoc.
    + rewrite (IH (moved ++ [nm])), (IH ([] ++ [nm])).
      destruct (move_loop o src dst rest [] _) as [[err m] fs'].
      by rewrite <- app_assoc.
Qed.

(** What the destination holds, it keeps. *)
Lemma move_loop_persist o src dst entries moved fs err moved' fs' nm e :
  src ≠ dst → is_Some (fs !! dst) →
  move_loop o src dst entries moved fs = (err, moved', fs') →
  lookup_entry dst nm fs = Some e →
  lookup_entry dst nm fs' = Some e ∧ is_Some (fs' !! dst).
Proof.
  intros Hsd HB Hrun Hl. rewrite move_loop_acc in Hrun.
  destruct (move_loop o src dst entries [] fs) as [[err0 m] fs0] eqn:Hrun0.
  injection Hrun as <- <- <-.
  destruct (move_loop_inv o src dst entries fs [] fs err0 m fs0 Hsd)
    as (_ & HB' & HC & _); [by apply move_inv_start|done|].
  split; [|done]. by destruct (HC nm e Hl).
Qed.

(** A successful loop leaves every regular file of the listing in the
    destination. *)
Lemma move_loop_complete o src dst entries moved fs moved' fs' nm e :
  src ≠ dst → is_Some (fs !! dst) →
  move_loop o src dst entries moved fs = (None, moved', fs') →
  (nm, e) ∈ entries → is_dir e = false →
  is_Some (lookup_entry dst nm fs').
Proof.
  intros Hsd. revert moved fs.
  induction entries as [|[nm0 e0] rest IH]; intros moved fs HB Hrun Hin Hd.
  { by apply elem_of_nil in Hin. }
  cbn [move_loop] in Hrun.
  assert (Hhere : ∀ moved1 fs1 e1, is_Some (fs1 !! dst) →
    move_loop o src dst rest moved1 fs1 = (None, moved', fs') →
    lookup_entry dst nm0 fs1 = Some e1 →
    is_Some (lookup_entry dst nm0 fs')).
  { intros moved1 fs1 e1 HB1 Hrun1 He1.
    destruct (move_loop_persist o src dst rest moved1 fs1 None moved' fs'
                nm0 e1 Hsd HB1 Hrun1 He1) as [? _]. eauto. }
  apply elem_of_cons in Hin as [[= -> ->]|Hin].
  - rewrite Hd in Hrun.
    destruct (stat_ok dst nm0 fs) eqn:Hstat.
    { apply stat_ok_lookup in Hstat as [e1 He1]. by eapply Hhere. }
    pose proof HB as [dd Hdd].
    unfold os_Rename in Hrun. rewrite Hdd in Hrun.
    destruct (lookup_entry src nm0 fs) as [e1|] eqn:Hsrc.
    + destruct (rename_ok o nm0).
      * destruct (relocated_rename src dst nm0 e1 fs HB) as (_ & RB & Hlk).
        eapply (Hhere _ _ e1 (RB HB) Hrun).
        rewrite Hlk. by rewrite decide_True.
      * unfold copyFile in Hrun. rewrite Hsrc, Hdd in Hrun.
        destruct e1 as [data|]; [|done].
        destruct (copy o nm0) as [|err0|err0 [part|]]; try done.
        destruct (relocated_copy src dst nm0 (File data) fs Hsd HB)
          as (_ & RB & Hlk).
        eapply (Hhere _ _ (File data) (RB HB) Hrun).
        rewrite Hlk. by rewrite decide_True.
    + unfold copyFile in Hrun. rewrite Hsrc in Hrun. done.
  - destruct (is_dir e0); [by eapply IH|].
    destruct (stat_ok dst nm0 fs); [by eapply IH|].
    pose proof HB as [dd Hdd].
    unfold os_Rename in Hrun. rewrite Hdd in Hrun.
    destruct (lookup_entry src nm0 fs) as [e1|] eqn:Hsrc.
    + destruct (rename_ok o nm0).
      * destruct (relocated_rename src dst nm0 e1 fs HB) as (_ & RB & _).
        eapply (IH _ _ (RB HB)); eauto.
      * unfold copyFile in Hrun. rewrite Hsrc, Hdd in Hrun.
        destruct e1 as [data|]; [|done].
        destruct (copy o nm0) as [|err0|err0 [part|]]; try done.
        destruct (relocated_copy src dst nm0 (File data) fs Hsd HB)
          as (_ & RB & _).
        eapply (IH _ _ (RB HB)); eauto.
    + unfold copyFile in Hrun. rewrite Hsrc in Hrun. done.
Qed.

Lemma elem_of_ReadDir path fs entries nm e :
  os_ReadDir path fs = inl entries →
  (nm, e) ∈ entries ↔ lookup_entry path nm fs = Some e.
Proof.
  unfold os_ReadDir, lookup_entry.
  destruct (fs !! path) as [d|]; [|done]. intros [= <-].
  rewrite merge_sort_Permutation, elem_of_map_to_list. done.
Qed.

(** X21. When an isolated run succeeds, the target directory holds what
    it held before, unchanged, and besides that exactly the regular files
    the command left whose names were free: subdirectories and files with
    a taken name are not moved. *)
Theorem isolated_success_merges p o argv fs tmp out :
  mkdir_temp o = inl tmp → fs !! tmp = None → tmp ≠ targetDir p →
  run o (command p) argv ∅ = (out, None) →
  (processIsolated p o argv fs).1 = None →
  ∀ nm,
    lookup_entry (targetDir p) nm (processIsolated p o argv fs).2
    = match lookup_entry (targetDir p) nm fs, out !! nm with
      | Some e, _ => Some e
      | None, Some (File data) => Some (File data)
      | None, _ => None
      end.
Proof.
  intros Hmk Hfresh Hsd Hrun Hok nm.
  rewrite (processIsolated_unfold p o argv fs tmp out None Hmk Hfresh Hrun)
    in Hok |- *.
  cbn [fst snd] in *.
  rewrite lookup_entry_delete_other by done.
  set (fs2 := <[tmp := out]> fs) in *.
  unfold moveFiles in *.
  destruct (os_ReadDir tmp fs2) as [entries|] eqn:Hrd; [|done].
  destruct (os_MkdirAll o (targetDir p) fs2) as [fs1|] eqn:Hmd; [|done].
  destruct (move_loop o tmp (targetDir p) entries [] fs1)
    as [[err moved] fs3] eqn:Hloop.
  cbn [fst snd] in *. subst err.
  pose proof (os_MkdirAll_entries o _ _ fs1 (targetDir p) nm Hmd)
    as (Ht1 & HB1 & _).
  pose proof (os_MkdirAll_entries o _ _ fs1 tmp nm Hmd) as (Hs1 & _ & _).
  assert (Ht0 : lookup_entry (targetDir p) nm fs1
                = lookup_entry (targetDir p) nm fs).
  { rewrite Ht1. unfold fs2. by apply lookup_entry_insert_other. }
  assert (Hs0 : lookup_entry tmp nm fs1 = out !! nm).
  { rewrite Hs1. unfold fs2, lookup_entry. by rewrite lookup_insert_eq. }
  destruct (move_loop_inv o tmp (targetDir p) entries fs1 [] fs1 None moved
              fs3 Hsd (move_inv_start _ _ _ HB1) Hloop)
    as (_ & _ & HC & HD & _).
  destruct (move_loop_exact o tmp (targetDir p) entries fs1 [] fs1 moved fs3
              HB1) as [Hex Hfrom]; [by left|done|].
  rewrite <- Ht0, <- Hs0.
  destruct (lookup_entry (targetDir p) nm fs1) as [e|] eqn:Hold.
  { by destruct (HC nm e Hold). }
  assert (Hlisted : ∀ e, (nm, e) ∈ entries ↔ lookup_entry tmp nm fs1 = Some e).
  { intros e. rewrite (elem_of_ReadDir tmp fs2 entries nm e Hrd).
    by rewrite Hs1. }
  destruct (lookup_entry (targetDir p) nm fs3) as [e3|] eqn:Hnew.
  - destruct (Hex nm e3 Hnew) as [Hc|Hin]; [congruence|].
    destruct (HD nm Hin) as (_ & e & Hsrc & Hdst).
    destruct (Hfrom nm Hin) as [Hc|(e' & He' & Hdir)];
      [by apply elem_of_nil in Hc|].
    apply Hlisted in He'. rewrite Hsrc in He' |- *. injection He' as ->.
    destruct e' as [data|]; [congruence|done].
  - destruct (lookup_entry tmp nm fs1) as [[data|]|] eqn:Hsrc; try done.
    assert (Hin : (nm, File data) ∈ entries) by by apply Hlisted.
    destruct (move_loop_complete o tmp (targetDir p) entries [] fs1 moved fs3
                nm (File data) Hsd HB1 Hloop Hin eq_refl) as [e3 He3].
    congruence.
Qed.

(** X22. In direct mode the command runs in the target directory itself:
    if the directory cannot be made the command is not run and the
    directory stays absent; otherwise the target holds whatever the
    command left there, also when the command failed, and when the target
    was there already no other directory is touched. *)
Theorem direct_run_keeps_output p o argv fs :
  (∀ msg, fs !! targetDir p = None → mkdir_all o = Some msg →
     (processDirect p o argv fs).1 = Some ("create target dir: " +:+ msg)
     ∧ (processDirect p o argv fs).2 !! targetDir p = None)
  ∧ ((fs !! targetDir p = None → mkdir_all o = None) →
     (processDirect p o argv fs).2 !! targetDir p
     = Some (run o (command p) argv (default ∅ (fs !! targetDir p))).1
     ∧ ((processDirect p o argv fs).1 = None ↔
        (run o (command p) argv (default ∅ (fs !! targetDir p))).2 = None)
     ∧ (is_Some (fs !! targetDir p) →
        ∀ path, path ≠ targetDir p →
          (processDirect p o argv fs).2 !! path = fs !! path)).
Proof.
  unfold processDirect, os_MkdirAll, run_in. split.
  - intros msg Hnone Hmk. by rewrite Hnone, Hmk.
  - intros Hmk. destruct (fs !! targetDir p) as [d|] eqn:Hd;
      cbn [from_option id].
    + rewrite Hd.
      destruct (run o (command p) argv d) as [d' [[err output]|]]; cbn;
        rewrite lookup_insert_eq; (split; [done|]);
        (split; [split; congruence|]);
        intros _ path Hne; by rewrite lookup_insert_ne.
    + rewrite (Hmk eq_refl), lookup_insert_eq.
      destruct (run o (command p) argv ∅) as [d' [[err output]|]]; cbn;
        rewrite lookup_insert_eq; (split; [done|]);
        (split; [split; congruence|]);
        by intros [d Hd'].
Qed.

End ExecutorRuns.

(** ** The webhook endpoint *)

(** The two ways [Submit] can end. *)
Lemma Submit_cases (parseAuthority : string → bool) (clock : nat → Time)
    (u : string) (w : Service.World) :
  (Url.ParseRequestURI parseAuthority u = false
   ∧ Service.Submit parseAuthority clock u w = (Err ErrInvalidURL, w))
  ∨ (∃ j w', Service.Submit parseAuthority clock u w = (Ok j, w')
       ∧ URL j = u ∧ Status j = StatusPending ∧ Attempts j = 0
       ∧ Sqlite.Get (ID j) (Service.db w) = Err ErrJobNotFound
       ∧ Sqlite.Get (ID j) (Service.db w') = Ok j).
Proof.
  unfold Service.Submit, Service.repo_Create, Service.timed.
  destruct (Url.ParseRequestURI parseAuthority u); [right|by left].
  destruct (Sqlite.Create (clock (Service.ticks w)) u (Service.db w))
    as [j d'] eqn:Hc.
  assert (Hj : j = (Sqlite.Create (clock (Service.ticks w)) u (Service.db w)).1)
    by by rewrite Hc.
  assert (Hd : d' = (Sqlite.Create (clock (Service.ticks w)) u (Service.db w)).2)
    by by rewrite Hc.
  eexists j, _. split; [done|]. cbn [Service.db]. subst j d'.
  split_and!; try done.
  - assert (Hfresh : Sqlite.jobs (Service.db w)
        !! ID (Sqlite.Create (clock (Service.ticks w)) u (Service.db w)).1
        = None).
    { apply (exec_insert_fresh
        {| Sqlite.url := u; Sqlite.status := StatusPending;
           Sqlite.attempts := 0; Sqlite.error_col := None;
           Sqlite.created_at := clock (Service.ticks w);
           Sqlite.updated_at := clock (Service.ticks w) |}). }
    unfold Sqlite.Get. by rewrite Hfresh.
  - unfold Sqlite.Get. by rewrite lookup_Create_new.
Qed.

Section HttpFacts.
Import Sqlite Service Http.
Variable parseAuthority : string → bool.
Variable clock : nat → Time.
Variable secret : string.
Variable decode : string → option string.
Variable parse_rfc3339 : string → option Time.
Variable since : Time → Z.
Variable skew_error : Z → string.
Variable sha256_hex : string → string.
Variable parse_int : string → option Z.

Local Abbreviation verify :=
  (verifySignature secret parse_rfc3339 since skew_error sha256_hex).
Local Abbreviation webhook :=
  (handleWebhook parseAuthority clock secret decode parse_rfc3339 since
     skew_error sha256_hex).

(** X23. [handleWebhook] stores a job exactly when it answers 201: the
    answer then carries the job just stored, a pending job with no attempts
    under an id that was free; with any other answer, which is a 400 or a
    401, the store and the calls made on it are as before. *)
Theorem webhook_stores_iff_created (r : Request) (w : World) :
  (code (webhook r w).1 = 201 →
     ∃ j, payload (webhook r w).1 = JobBody j
       ∧ decode (default "" (read_body r)) = Some (URL j)
       ∧ Status j = StatusPending ∧ Attempts j = 0
       ∧ Sqlite.Get (ID j) (db w) = Err ErrJobNotFound
       ∧ Sqlite.Get (ID j) (db (webhook r w).2) = Ok j)
  ∧ (code (webhook r w).1 ≠ 201 →
     (webhook r w).2 = w
     ∧ (code (webhook r w).1 = 400 ∨ code (webhook r w).1 = 401)).
Proof.
  unfold handleWebhook.
  destruct (read_body r) as [body|]; [|by split; [|intros _; split; [|left]]].
  destruct (if decide (secret = "") then None else verify r body) as [err|];
    [by split; [|intros _; split; [|right]]|].
  destruct (decode body) as [u|] eqn:Hdec;
    [|by split; [|intros _; split; [|left]]].
  destruct (decide (u = "")) as [->|Hu];
    [by split; [|intros _; split; [|left]]|].
  destruct (Submit_cases parseAuthority clock u w)
    as [[Hrej ->]|(j & w' & -> & Hurl & Hst & Hatt & Hfresh & Hget)].
  - by split; [|intros _; split; [|left]].
  - split; [|done]. intros _. exists j. cbn.
    split_and!; try done. by rewrite Hurl.
Qed.

Lemma wrap64_neg (s : Z) :
  - 2 ^ 63 ≤ s < 0 →
  wrap64 (- s) = if decide (s = - 2 ^ 63) then - 2 ^ 63 else - s.
Proof.
  intros Hs. unfold wrap64. case_decide as Hmin.
  - subst s. reflexivity.
  - rewrite Z.mod_small by lia. lia.
Qed.

(** X24. With the durations [time.Since] returns in the [int64] range,
    [verifySignature] accepts exactly the requests that carry a timestamp
    that parses, lies within five minutes of now in either direction, and a
    signature equal to the SHA-256 hex of timestamp, body and secret joined
    by newlines. The one exception in the window test is the smallest
    duration, whose negation wraps around to itself and passes. With a
    secret configured, [handleWebhook] answers 201 only to such requests. *)
Theorem signature_gate (r : Request) (body : string) (w : World) :
  (∀ t, - 2 ^ 63 ≤ since t < 2 ^ 63) →
  (verify r body = None ↔
     header r "X-Timestamp" ≠ ""
     ∧ ∃ ts, parse_rfc3339 (header r "X-Timestamp") = Some ts
         ∧ (Z.abs (since ts) ≤ 300000000000 ∨ since ts = - 2 ^ 63)
         ∧ header r "X-Signature" ≠ ""
         ∧ header r "X-Signature"
           = sha256_hex (header r "X-Timestamp" +:+ newline +:+ body
                         +:+ newline +:+ secret))
  ∧ (secret ≠ "" → read_body r = Some body →
     code (webhook r w).1 = 201 → verify r body = None).
Proof.
  intros Hrange. split.
  - unfold verifySignature. cbn zeta.
    destruct (decide (header r "X-Timestamp" = "")) as [He|Hne].
    { split; [done|]. by intros [? _]. }
    destruct (parse_rfc3339 (header r "X-Timestamp")) as [ts|].
    2:{ split; [done|]. by intros (_ & ts & ? & _). }
    assert (Hwin : (maxTimestampSkew
                    <? (if since ts <? 0 then wrap64 (- since ts) else since ts))
                   = false
                   ↔ Z.abs (since ts) ≤ 300000000000 ∨ since ts = - 2 ^ 63).
    { rewrite Z.ltb_ge. unfold maxTimestampSkew. specialize (Hrange ts).
      destruct (since ts <? 0) eqn:Hneg.
      - apply Z.ltb_lt in Hneg. rewrite wrap64_neg by lia.
        case_decide; lia.
      - apply Z.ltb_ge in Hneg. lia. }
    destruct (maxTimestampSkew <? _) eqn:Hskew.
    { split; [done|]. intros (_ & ts' & [= <-] & Hw & _).
      apply Hwin in Hw. congruence. }
    destruct (decide (header r "X-Signature" = "")) as [Hs|Hs].
    { split; [done|]. by intros (_ & ts' & _ & _ & ? & _). }
    case_decide as Hsig.
    + split; [|done]. intros _. split; [done|]. exists ts.
      split; [done|]. split; [by apply Hwin|]. done.
    + split; [done|]. by intros (_ & ts' & _ & _ & _ & ?).
  - intros Hsec Hbody. unfold handleWebhook. rewrite Hbody.
    rewrite decide_False by done.
    by destruct (verify r body).
Qed.

(** X25. [handleGetJob] only reads: the database is as before whatever
    the answer. It answers 200 exactly when the id parses and a job with
    that id is stored, and the answer then carries that job as the store
    holds it; otherwise it answers 400 for an id that does not parse and
    404 for an id with no job. *)
Theorem get_job_reads_only (r : Request) (w : World) :
  db (handleGetJob parse_int r w).2 = db w
  ∧ (code (handleGetJob parse_int r w).1 = 200 ↔
       ∃ id row, parse_int (path_id r) = Some id
         ∧ jobs (db w) !! id = Some row
         ∧ payload (handleGetJob parse_int r w).1 = JobBody (scanJob id row))
  ∧ (code (handleGetJob parse_int r w).1 = 400 ↔ parse_int (path_id r) = None)
  ∧ (code (handleGetJob parse_int r w).1 = 404 ↔
       ∃ id, parse_int (path_id r) = Some id ∧ jobs (db w) !! id = None).
Proof.
  unfold handleGetJob, Service.Get, untimed, Sqlite.Get.
  destruct (parse_int (path_id r)) as [id|]; cbn.
  - destruct (jobs (db w) !! id) as [row|] eqn:Hrow; cbn.
    + split_and!; [done| |done|].
      * split; [|done]. intros _. by exists id, row.
      * split; [done|]. intros (id' & [= <-] & ?). congruence.
    + split_and!; [done| |done|].
      * split; [done|]. intros (id' & row & [= <-] & ? & _). congruence.
      * split; [|done]. intros _. by exists id.
  - split_and!; [done| |done|].
    + split; [done|]. by intros (? & ? & ? & _).
    + split; [done|]. by intros (? & ? & _).
Qed.

End HttpFacts.

(** ** The built-in YouTube processor *)
Section YouTubeFacts.
Import Executor.
Implicit Types (fs : FS) (path nm : string) (e : entry) (o : OS).

(** One successful step of the loop relocates the file. *)
Lemma yt_step o src dst nm data fs :
  src ≠ dst → is_Some (fs !! dst) →
  lookup_entry src nm fs = Some (File data) →
  (∃ fs1, relocated src dst nm (File data) fs fs1
     ∧ ∀ rest, YouTube.move_loop o src dst ((nm, File data) :: rest) fs
               = YouTube.move_loop o src dst rest fs1)
  ∨ (∃ err fs2, ∀ rest,
       YouTube.move_loop o src dst ((nm, File data) :: rest) fs
       = (Some err, fs2)
       ∧ ∀ path, path ≠ dst → fs2 !! path = fs !! path).
Proof.
  intros Hsd HB Hsrc. pose proof HB as [dd Hdd].
  cbn [YouTube.move_loop is_dir].
  unfold YouTube.rename_over, YouTube.copy_over.
  destruct (lookup_entry dst nm fs) as [[old|]|] eqn:Hold.
  - unfold os_Rename. rewrite Hsrc, Hdd.
    destruct (rename_ok o nm).
    + left. eexists. split; [by apply relocated_rename|done].
    + rewrite Hold. unfold copyFile. rewrite Hsrc, Hdd.
      destruct (copy o nm) as [|err0|err0 [part|]].
      * left. eexists. split; [by apply relocated_copy|done].
      * right. by eexists _, _.
      * right. eexists _, _. intros rest. split; [done|].
        intros path Hp. by rewrite put_entry_dir.
      * right. by eexists _, _.
  - right. rewrite Hold. by eexists _, _.
  - unfold os_Rename. rewrite Hsrc, Hdd.
    destruct (rename_ok o nm).
    + left. eexists. split; [by apply relocated_rename|done].
    + rewrite Hold. unfold copyFile. rewrite Hsrc, Hdd.
      destruct (copy o nm) as [|err0|err0 [part|]].
      * left. eexists. split; [by apply relocated_copy|done].
      * right. by eexists _, _.
      * right. eexists _, _. intros rest. split; [done|].
        intros path Hp. by rewrite put_entry_dir.
      * right. by eexists _, _.
Qed.

(** A successful loop puts every regular file of the listing in the
    destination, over what was there, and changes no other name. *)
Lemma yt_move_loop_spec o src dst entries fs fs' :
  src ≠ dst → is_Some (fs !! dst) → NoDup entries.*1 →
  (∀ nm e, (nm, e) ∈ entries → lookup_entry src nm fs = Some e) →
  YouTube.move_loop o src dst entries fs = (None, fs') →
  (∀ nm data, (nm, File data) ∈ entries →
     lookup_entry dst nm fs' = Some (File data))
  ∧ (∀ nm, (∀ data, (nm, File data) ∉ entries) →
       lookup_entry dst nm fs' = lookup_entry dst nm fs).
Proof.
  intros Hsd. revert fs.
  induction entries as [|[nm0 e0] rest IH]; intros fs HB Hnd Hsrc Hrun.
  { cbn in Hrun. injection Hrun as <-. split; [|done].
    intros nm data Hin. by apply elem_of_nil in Hin. }
  apply NoDup_cons in Hnd as [Hnot Hnd].
  assert (Hrest : ∀ e, (nm0, e) ∉ rest).
  { intros e Hin. apply Hnot. apply list_elem_of_fmap.
    by exists (nm0, e). }
  destruct e0 as [d0|].
  - destruct (yt_step o src dst nm0 d0 fs Hsd HB) as
      [(fs1 & (RA & RB & Hlk) & Heq)|(err & fs2 & Hfail)].
    { apply Hsrc. apply list_elem_of_here. }
    2:{ destruct (Hfail rest) as [Hf _]. congruence. }
    rewrite Heq in Hrun.
    destruct (IH fs1) as [Ha Hb]; [by apply RB|done| |done|].
    { intros nm e Hin. rewrite Hlk.
      rewrite decide_False by (intros [? _]; done).
      destruct (decide (src = src ∧ nm = nm0)) as [[_ ->]|_].
      - by destruct (Hrest e).
      - apply Hsrc. by apply list_elem_of_further. }
    split.
    + intros nm data [[= -> ->]|Hin]%elem_of_cons; [|by apply Ha].
      rewrite Hb by (intros data; apply Hrest).
      rewrite Hlk. by rewrite decide_True.
    + intros nm Hno. rewrite Hb.
      2:{ intros data Hin. apply (Hno data). by apply list_elem_of_further. }
      rewrite Hlk.
      assert (nm ≠ nm0).
      { intros ->. apply (Hno d0). apply list_elem_of_here. }
      rewrite decide_False by (intros [_ ?]; done).
      by rewrite decide_False by (intros [_ ?]; done).
  - cbn [YouTube.move_loop is_dir] in Hrun.
    destruct (IH fs) as [Ha Hb]; [done|done| |done|].
    { intros nm e Hin. apply Hsrc. by apply list_elem_of_further. }
    split.
    + intros nm data [[=]|Hin]%elem_of_cons. by apply Ha.
    + intros nm Hno. apply Hb. intros data Hin. apply (Hno data).
      by apply list_elem_of_further.
Qed.

(** The loop touches the source and the destination directory only. *)
Lemma yt_move_loop_frame o src dst entries fs path :
  path ≠ src → path ≠ dst →
  (YouTube.move_loop o src dst entries fs).2 !! path = fs !! path.
Proof.
  intros H1 H2. revert fs.
  induction entries as [|[nm e] rest IH]; intros fs;
    cbn [YouTube.move_loop]; [done|].
  destruct (is_dir e); [apply IH|].
  assert (Hcopy : (match YouTube.copy_over o src dst nm fs with
                   | (Some err, fs2) => (Some err, fs2)
                   | (None, fs2) =>
                       YouTube.move_loop o src dst rest (del_entry src nm fs2)
                   end).2 !! path = fs !! path).
  { unfold YouTube.copy_over, copyFile.
    destruct (lookup_entry dst nm fs) as [[old|]|];
      destruct (lookup_entry src nm fs) as [[data|]|]; try done;
      destruct (fs !! dst) as [dd|]; try done;
      destruct (copy o nm) as [|err0|err0 [part|]]; cbn [snd]; try done;
      first [ by rewrite put_entry_dir
            | etrans; [apply IH|]; by rewrite del_entry_dir, put_entry_dir ]. }
  unfold YouTube.rename_over, os_Rename.
  destruct (lookup_entry dst nm fs) as [[old|]|] eqn:Hold;
    [|exact Hcopy|];
    (destruct (lookup_entry src nm fs) as [e0|]; [|exact Hcopy]);
    (destruct (fs !! dst) as [dd|]; [|exact Hcopy]);
    (destruct (rename_ok o nm); [|exact Hcopy]);
    (etrans; [apply IH|]); by rewrite put_entry_dir, del_entry_dir.
Qed.

Lemma yt_moveFiles_frame videoDir o src fs path :
  path ≠ src → path ≠ videoDir →
  (YouTube.moveFiles videoDir o src fs).2 !! path = fs !! path.
Proof.
  intros H1 H2. unfold YouTube.moveFiles.
  destruct (os_ReadDir src fs) as [entries|]; [|done].
  destruct (os_MkdirAll o videoDir fs) as [fs1|] eqn:Hmk; [|done].
  rewrite yt_move_loop_frame by done.
  by apply (os_MkdirAll_entries o videoDir fs fs1 path "" Hmk).
Qed.

(** [Process] once the temporary directory is made and [yt-dlp] has
    run. *)
Lemma yt_Process_unfold videoDir o url fs tmp out res :
  mkdir_temp o = inl tmp → fs !! tmp = None →
  run o "yt-dlp" (YouTube.yt_args tmp url) ∅ = (out, res) →
  YouTube.Process videoDir o url fs =
    match res with
    | Some (err, output) =>
        (Some ("yt-dlp failed: " +:+ err +:+ ": " +:+ output),
         delete tmp (<[tmp := out]> fs))
    | None =>
        (match (YouTube.moveFiles videoDir o tmp (<[tmp := out]> fs)).1 with
         | Some err => Some ("move files: " +:+ err)
         | None => None
         end,
         delete tmp (YouTube.moveFiles videoDir o tmp (<[tmp := out]> fs)).2)
    end.
Proof.
  intros Hmk Hfresh Hrun. unfold YouTube.Process, os_MkdirTemp.
  rewrite Hmk, Hfresh. unfold run_in. rewrite lookup_insert_eq, Hrun.
  rewrite insert_insert_eq. unfold os_RemoveAll.
  destruct res as [[err output]|]; [done|].
  by destruct (YouTube.moveFiles videoDir o tmp (<[tmp := out]> fs))
    as [[err|] fs3].
Qed.

Lemma ReadDir_NoDup path fs entries :
  os_ReadDir path fs = inl entries → NoDup entries.*1.
Proof.
  unfold os_ReadDir. destruct (fs !! path) as [d|]; [|done].
  intros [= <-]. rewrite merge_sort_Permutation.
  apply NoDup_fst_map_to_list.
Qed.

(** X26. Unlike the command processor, the YouTube processor replaces
    files: when [Process] returns nil, every regular file [yt-dlp] left
    is in the video directory under its name, whatever file had that name
    before, and every other name of the video directory is as it was. *)
Theorem youtube_replaces_files videoDir o url fs tmp out :
  mkdir_temp o = inl tmp → fs !! tmp = None → tmp ≠ videoDir →
  run o "yt-dlp" (YouTube.yt_args tmp url) ∅ = (out, None) →
  (YouTube.Process videoDir o url fs).1 = None →
  ∀ nm,
    lookup_entry videoDir nm (YouTube.Process videoDir o url fs).2
    = match out !! nm with
      | Some (File data) => Some (File data)
      | _ => lookup_entry videoDir nm fs
      end.
Proof.
  intros Hmk Hfresh Hsd Hrun Hok nm.
  rewrite (yt_Process_unfold videoDir o url fs tmp out None Hmk Hfresh Hrun)
    in Hok |- *.
  cbn [fst snd] in *.
  rewrite lookup_entry_delete_other by done.
  set (fs2 := <[tmp := out]> fs) in *.
  unfold YouTube.moveFiles in *.
  destruct (os_ReadDir tmp fs2) as [entries|] eqn:Hrd; [|done].
  destruct (os_MkdirAll o videoDir fs2) as [fs1|] eqn:Hmd; [|done].
  destruct (YouTube.move_loop o tmp videoDir entries fs1)
    as [[err|] fs3] eqn:Hloop; [done|].
  cbn [fst snd] in *.
  pose proof (os_MkdirAll_entries o _ _ fs1 videoDir nm Hmd)
    as (Ht1 & HB1 & _).
  assert (Ht0 : lookup_entry videoDir nm fs1 = lookup_entry videoDir nm fs).
  { rewrite Ht1. unfold fs2. by apply lookup_entry_insert_other. }
  assert (Hlisted : ∀ nm' e,
            (nm', e) ∈ entries ↔ out !! nm' = Some e).
  { intros nm' e. rewrite (elem_of_ReadDir tmp fs2 entries nm' e Hrd).
    unfold fs2, lookup_entry. by rewrite lookup_insert_eq. }
  destruct (yt_move_loop_spec o tmp videoDir entries fs1 fs3 Hsd HB1)
    as [Ha Hb]; [by eapply ReadDir_NoDup| |done|].
  { intros nm' e Hin.
    pose proof (os_MkdirAll_entries o _ _ fs1 tmp nm' Hmd) as (-> & _ & _).
    by apply (elem_of_ReadDir tmp fs2 entries nm' e Hrd). }
  destruct (out !! nm) as [[data|]|] eqn:Hout.
  - apply Ha. by apply Hlisted.
  - rewrite Hb, Ht0; [done|]. intros data Hin%Hlisted. congruence.
  - rewrite Hb, Ht0; [done|]. intros data Hin%Hlisted. congruence.
Qed.

(** X27. On every return of the YouTube processor's [Process] the
    temporary directory is gone, and when the video directory was there
    already the directories other than it are as they were; when [yt-dlp]
    fails nothing is moved: the file system is as before the run. *)
Theorem youtube_leaves_no_trace videoDir o url fs :
  (∀ tmp, mkdir_temp o = inl tmp → fs !! tmp = None →
     (YouTube.Process videoDir o url fs).2 !! tmp = None)
  ∧ (is_Some (fs !! videoDir) →
     ∀ path, path ≠ videoDir →
       (YouTube.Process videoDir o url fs).2 !! path = fs !! path)
  ∧ (∀ msg, mkdir_temp o = inr msg →
       YouTube.Process videoDir o url fs
       = (Some ("create temp dir: " +:+ msg), fs))
  ∧ (∀ tmp out err output,
       mkdir_temp o = inl tmp → fs !! tmp = None →
       run o "yt-dlp" (YouTube.yt_args tmp url) ∅ = (out, Some (err, output)) →
       YouTube.Process videoDir o url fs
       = (Some ("yt-dlp failed: " +:+ err +:+ ": " +:+ output), fs)).
Proof.
  split_and!.
  - intros tmp Hmk Hfresh.
    destruct (run o "yt-dlp" (YouTube.yt_args tmp url) ∅) as [out res] eqn:Hrun.
    rewrite (yt_Process_unfold videoDir o url fs tmp out res) by done.
    destruct res as [[err output]|]; cbn [snd]; by rewrite lookup_delete_eq.
  - intros _ path Hne.
    destruct (mkdir_temp o) as [tmp|err] eqn:Hmk;
      [|unfold YouTube.Process, os_MkdirTemp; by rewrite Hmk].
    destruct (fs !! tmp) as [d|] eqn:Hfresh;
      [unfold YouTube.Process, os_MkdirTemp; by rewrite Hmk, Hfresh|].
    destruct (run o "yt-dlp" (YouTube.yt_args tmp url) ∅) as [out res] eqn:Hrun.
    rewrite (yt_Process_unfold videoDir o url fs tmp out res) by done.
    destruct (decide (path = tmp)) as [->|Hpt].
    + destruct res as [[err output]|]; cbn [snd];
        by rewrite lookup_delete_eq.
    + destruct res as [[err output]|]; cbn [snd];
        rewrite lookup_delete_ne by done.
      * by rewrite lookup_insert_ne.
      * rewrite yt_moveFiles_frame by done. by rewrite lookup_insert_ne.
  - intros msg Hmk. unfold YouTube.Process, os_MkdirTemp. by rewrite Hmk.
  - intros tmp out err output Hmk Hfresh Hrun.
    rewrite (yt_Process_unfold videoDir o url fs tmp out _ Hmk Hfresh Hrun).
    by rewrite delete_insert_id.
Qed.

End YouTubeFacts.

(** ** More statements at concrete inputs *)
Section MoreInstances.
Import Sqlite Service Worker Scenario.

(** X3 on [db_zones] with a limit of one: the job created first is the
    one left out, its wall-clock reading being the later one. *)
Lemma FindPending_oldest_first_witness :
  jobs db_zones !! 1 = Some row_first
  ∧ ID <$> FindPending 1 db_zones = [2]
  ∧ 0 ≤ 1
  ∧ length (FindPending 1 db_zones) = Z.to_nat 1
  ∧ ∀ j, j ∈ FindPending 1 db_zones →
      wall (CreatedAt j) ≤ wall (created_at row_first).
Proof.
  assert (H1 : jobs db_zones !! 1 = Some row_first)
    by (vm_compute; reflexivity).
  split; [exact H1|]. split; [vm_compute; reflexivity|].
  apply (FindPending_oldest_first 1 db_zones 1 row_first H1 eq_refl).
  assert (Hfp : FindPending 1 db_zones
                = [{| ID := 2; URL := "https://example.com/2";
                      Status := StatusPending; Attempts := 0; Error := "";
                      CreatedAt := mkTime (100 + 60000000000) 0;
                      UpdatedAt := mkTime (100 + 60000000000) 0 |}])
    by (vm_compute; reflexivity).
  rewrite Hfp. intros Hin. apply list_elem_of_singleton in Hin. discriminate.
Defined.

(** X5 on [db_one] and the id 7, which it does not hold. *)
Lemma missing_id_is_silent_witness :
  jobs db_one !! 7 = None
  ∧ Complete 101 7 db_one = (None, db_one)
  ∧ Fail 101 7 "late" db_one = (None, db_one)
  ∧ Retry 101 7 "late" db_one = (None, db_one)
  ∧ Claim 101 7 db_one = (Some ErrJobNotFound, db_one)
  ∧ Sqlite.Get 7 db_one = Err ErrJobNotFound.
Proof.
  assert (H7 : jobs db_one !! 7 = None) by (vm_compute; reflexivity).
  split; [exact H7|].
  exact (missing_id_is_silent 101 7 "late" db_one H7).
Defined.

(** X7 on job 1 of [db_one] along [later_calls]. *)
Lemma url_and_created_at_immutable_witness :
  jobs db_one !! 1 = Some row_one
  ∧ ∃ r', jobs (run later_calls db_one) !! 1 = Some r'
          ∧ url r' = url row_one ∧ created_at r' = created_at row_one.
Proof.
  assert (H1 : jobs db_one !! 1 = Some row_one) by (vm_compute; reflexivity).
  split; [exact H1|].
  exact (url_and_created_at_immutable later_calls db_one 1 row_one H1).
Defined.

(** X8 on job 1 of [db_one]. *)
Lemma claim_after_transition_witness :
  jobs db_one !! 1 = Some row_one
  ∧ (Claim 102 1 (Retry 101 1 "exit status 1" db_one).2).1 = None
  ∧ (Claim 102 1 (Fail 101 1 "exit status 1" db_one).2).1
    = Some ErrJobNotFound
  ∧ (Claim 102 1 (Complete 101 1 db_one).2).1 = Some ErrJobNotFound.
Proof.
  assert (H1 : jobs db_one !! 1 = Some row_one) by (vm_compute; reflexivity).
  split; [exact H1|].
  exact (claim_after_transition 101 102 1 "exit status 1" db_one row_one H1).
Defined.

(** X9 on the claim of job 1 of [db_one]. *)
Lemma status_edges_witness :
  jobs db_one !! 1 = Some row_one
  ∧ jobs (exec_call 101 (CallClaim 1) db_one) !! 1 = Some row_claimed
  ∧ status row_claimed ≠ status row_one
  ∧ ((status row_claimed = StatusProcessing ∧ CallClaim 1 = CallClaim 1
        ∧ status row_one = StatusPending)
     ∨ (status row_claimed = StatusCompleted ∧ CallClaim 1 = CallComplete 1)
     ∨ (status row_claimed = StatusFailed
        ∧ ∃ reason, CallClaim 1 = CallFail 1 reason)
     ∨ (status row_claimed = StatusPending
        ∧ ((∃ reason, CallClaim 1 = CallRetry 1 reason)
           ∨ (CallClaim 1 = CallRecoverStale
              ∧ status row_one = StatusProcessing)))).
Proof.
  assert (H1 : jobs db_one !! 1 = Some row_one) by (vm_compute; reflexivity).
  assert (H2 : jobs (exec_call 101 (CallClaim 1) db_one) !! 1
               = Some row_claimed) by (vm_compute; reflexivity).
  assert (H3 : status row_claimed ≠ status row_one) by discriminate.
  split; [exact H1|]. split; [exact H2|]. split; [exact H3|].
  exact (status_edges 101 (CallClaim 1) db_one 1 row_one row_claimed H1 H2 H3).
Defined.

(** X10 on a retry of job 1 of [db_one] at 102. *)
Lemma changed_row_is_stamped_witness :
  jobs db_one !! 1 = Some row_one
  ∧ jobs (exec_call 102 (CallRetry 1 "exit status 1") db_one) !! 1
    = Some row_retried
  ∧ row_retried ≠ row_one
  ∧ updated_at row_retried = 102.
Proof.
  assert (H1 : jobs db_one !! 1 = Some row_one) by (vm_compute; reflexivity).
  assert (H2 : jobs (exec_call 102 (CallRetry 1 "exit status 1") db_one) !! 1
               = Some row_retried) by (vm_compute; reflexivity).
  assert (H3 : row_retried ≠ row_one) by discriminate.
  split; [exact H1|]. split; [exact H2|]. split; [exact H3|].
  exact (changed_row_is_stamped 102 (CallRetry 1 "exit status 1") db_one 1
           row_one row_retried H1 H2 H3).
Defined.

(** X13 on the job of [w_video] with a processor that succeeds. *)
Lemma processJob_success_witness :
  ∃ w', processJob clock0 [succeeding] 3 background job_video w_video
        = Returned w'
    ∧ jobs (db w') !! 1
      = Some {| url := "https://video.example/v"; status := StatusCompleted;
                attempts := 1; error_col := None; created_at := 100;
                updated_at := 102 |}
    ∧ calls w' = calls w_video ++ [CallClaim 1; CallGet 1; CallComplete 1].
Proof.
  apply (processJob_success clock0 [succeeding] 3 background job_video
           w_video succeeding row_video).
  - vm_compute. reflexivity.
  - vm_compute. reflexivity.
  - reflexivity.
  - reflexivity.
  - reflexivity.
  - reflexivity.
  - reflexivity.
Defined.

(** X14 on the job of [w_claimed], which is processing already. *)
Lemma processJob_skips_unclaimable_witness :
  ∃ w', processJob clock0 [failing] 3 background job_video w_claimed
        = Returned w'
    ∧ db w' = db w_claimed
    ∧ calls w' = calls w_claimed ++ [CallClaim 1].
Proof.
  apply (processJob_skips_unclaimable clock0 [failing] 3 background job_video
           w_claimed failing).
  - vm_compute. reflexivity.
  - intros r Hr. vm_compute in Hr. injection Hr as <-. discriminate.
Defined.

(** X17 on the job of [w_video] and the failing processor, with three
    attempts allowed. *)
Lemma poll_runs_matched_job_witness :
  ∃ r w' r' t,
    jobs (db w_video) !! 1 = Some r ∧ status r = StatusPending
    ∧ poll clock0 [failing] 3 background w_video = Returned w'
    ∧ jobs (db w') !! 1 = Some r'
    ∧ attempts r' = attempts r + 1
    ∧ url r' = url r ∧ created_at r' = created_at r
    ∧ match Process failing (scanJob 1 (set_claim (clock0 t) r)) with
      | None => status r' = StatusCompleted ∧ error_col r' = error_col r
      | Some msg =>
          error_col r' = Some msg
          ∧ status r' = (if attempts r + 1 <? 3
                         then StatusPending else StatusFailed)
      end.
Proof.
  apply (poll_runs_matched_job clock0 [failing] 3 background w_video
           job_video 0 failing).
  - vm_compute. reflexivity.
  - vm_compute. reflexivity.
  - reflexivity.
  - reflexivity.
Defined.

(** X18 on the job of [w_video]: with three attempts allowed the third
    failure is final. *)
Lemma retries_are_bounded_witness :
  ∃ w' r', rounds clock0 [failing] 3 background 3 job_video w_video
           = Returned w'
    ∧ jobs (db w') !! 1 = Some r'
    ∧ status r' = StatusFailed ∧ attempts r' = 3.
Proof.
  destruct (retries_are_bounded clock0 [failing] 3 background job_video
              w_video failing row_video 3 3)
    as (w' & r' & Hr & Hrow & Hout).
  - vm_compute. reflexivity.
  - intros j. discriminate.
  - reflexivity.
  - vm_compute. reflexivity.
  - reflexivity.
  - reflexivity.
  - exists w', r'. split; [exact Hr|]. split; [exact Hrow|].
    destruct (decide (3 < 3)%nat) as [Hlt|_]; [lia|]. exact Hout.
Defined.

(** X19 on [w_video] with the context cancelled once the batch has been
    fetched. *)
Lemma cancelled_poll_stops_witness :
  ∃ w', world_of (poll clock0 [failing] 3 ctx_stopped w_video) = w'
        ∧ jobs (db w') !! 1 = jobs (db w_video) !! 1.
Proof.
  destruct (cancelled_poll_stops clock0 [failing] 3 ctx_stopped w_video 0 0
              job_video) as (w' & Hw & _ & Hrow).
  - intros k' Hk. lia.
  - reflexivity.
  - vm_compute. reflexivity.
  - lia.
  - exists w'. split; [exact Hw|exact Hrow].
Defined.

(** X21 on [rerun_fs]: [b.txt] arrives, nothing else does. *)
Lemma isolated_success_merges_witness :
  (Executor.processIsolated Executor.partial_proc Executor.rerun_os []
     Executor.rerun_fs).1 = None
  ∧ Executor.lookup_entry "/videos" "b.txt"
      (Executor.processIsolated Executor.partial_proc Executor.rerun_os []
         Executor.rerun_fs).2
    = Some (Executor.File "B")
  ∧ Executor.lookup_entry "/videos" "c.txt"
      (Executor.processIsolated Executor.partial_proc Executor.rerun_os []
         Executor.rerun_fs).2
    = None.
Proof.
  assert (Hok : (Executor.processIsolated Executor.partial_proc
                   Executor.rerun_os [] Executor.rerun_fs).1 = None)
    by (vm_compute; reflexivity).
  assert (Hfresh : Executor.rerun_fs !! "/tmp/catcher-job-1-002" = None)
    by (vm_compute; reflexivity).
  assert (Hne : "/tmp/catcher-job-1-002"
                ≠ Executor.targetDir Executor.partial_proc) by discriminate.
  pose proof (isolated_success_merges Executor.partial_proc Executor.rerun_os
                [] Executor.rerun_fs "/tmp/catcher-job-1-002"
                {["a.txt" := Executor.File "new"; "b.txt" := Executor.File "B"]}
                eq_refl Hfresh Hne eq_refl Hok) as H.
  split; [exact Hok|]. split.
  - etrans; [apply (H "b.txt")|]. vm_compute. reflexivity.
  - etrans; [apply (H "c.txt")|]. vm_compute. reflexivity.
Defined.

(** X24 on [req0]: the request is accepted. *)
Lemma signature_gate_witness :
  (∀ t, - 2 ^ 63 ≤ since0 t < 2 ^ 63)
  ∧ Http.verifySignature "s3cret" parse0 since0 (λ _, "too old") digest0
      req0 body0 = None.
Proof.
  assert (Hr : ∀ t, - 2 ^ 63 ≤ since0 t < 2 ^ 63)
    by (intros t; unfold since0; lia).
  split; [exact Hr|].
  apply (proj1 (signature_gate (λ _, true) clock0 "s3cret" (λ _, None) parse0
                  since0 (λ _, "too old") digest0 req0 body0 init_world Hr)).
  split; [discriminate|]. exists 960000000000.
  split; [reflexivity|]. split; [left; unfold since0, utc; cbn [instant]; lia|].
  split; [discriminate|reflexivity].
Defined.

(** X26 on [rerun_fs]: the old [a.txt] is replaced by the new one. *)
Lemma youtube_replaces_files_witness :
  (YouTube.Process "/videos" Executor.rerun_os "https://youtu.be/x"
     Executor.rerun_fs).1 = None
  ∧ Executor.lookup_entry "/videos" "a.txt" Executor.rerun_fs
    = Some (Executor.File "old")
  ∧ Executor.lookup_entry "/videos" "a.txt"
      (YouTube.Process "/videos" Executor.rerun_os "https://youtu.be/x"
         Executor.rerun_fs).2
    = Some (Executor.File "new").
Proof.
  assert (Hok : (YouTube.Process "/videos" Executor.rerun_os
                   "https://youtu.be/x" Executor.rerun_fs).1 = None)
    by (vm_compute; reflexivity).
  assert (Hfresh : Executor.rerun_fs !! "/tmp/catcher-job-1-002" = None)
    by (vm_compute; reflexivity).
  assert (Hne : "/tmp/catcher-job-1-002" ≠ "/videos") by discriminate.
  pose proof (youtube_replaces_files "/videos" Executor.rerun_os
                "https://youtu.be/x" Executor.rerun_fs
                "/tmp/catcher-job-1-002"
                {["a.txt" := Executor.File "new"; "b.txt" := Executor.File "B"]}
                eq_refl Hfresh Hne eq_refl Hok) as H.
  split; [exact Hok|]. split; [vm_compute; reflexivity|].
  etrans; [apply (H "a.txt")|]. vm_compute. reflexivity.
Defined.

End MoreInstances.
